(** * InvestRadar: the stock-sheet normaliser and ranking engine

    A shallow embedding of [services/dataProcessor.ts] (with the types and
    header tables of [types.ts]) and the verification of its specification.

    Conventions of the embedding.
    - A JavaScript number is an IEEE-754 binary64 value.  Every finite
      double is an integer multiple of 2^-1074, so a finite number is
      kept as that integer ([Fin k] is the double k * 2^-1074) and each
      arithmetic operation is the exact rational operation followed by
      one rounding to nearest, ties to even, with overflow to infinity.
      The two zeros are identified: the program never divides by zero
      unguarded and never prints a zero through a sign-sensitive path
      other than [toFixed], which drops the sign of zero anyway.
    - A JavaScript string is a sequence of code units; the embedding
      covers code units below 256 (one [ascii] each).
    - A cell of a row is [string | undefined], an [option string].
    - Array indices and the rank fields are integers ([nat], [Z]): they
      are exact doubles as long as they stay below 2^53, which the length
      bound of a JavaScript array (2^32 - 1) guarantees.
    - [Array.prototype.sort] is the stable sort of ECMAScript 2019; it is
      embedded as the insertion sort driven by the sign of the comparator
      (a NaN result counts as zero). *)

From Stdlib Require Import ZArith Ascii Bool Lia Permutation Sorted.
From Stdlib Require String.
From stdpp Require Import list strings pretty sorting gmap.

Open Scope Z_scope.

(* ===================================================================== *)
(** ** Numbers *)
(* ===================================================================== *)

Module Number.

Inductive number : Type :=
| NaN
| PInf                      (* +Infinity *)
| NInf                      (* -Infinity *)
| Fin (k : Z).              (* the double k * 2^-1074 *)

(** 1.0 in units of 2^-1074, and the first magnitude that overflows. *)
Definition one_ulps : Z := 2 ^ 1074.
Definition overflow_ulps : Z := 2 ^ 2098.

(** [a / d] rounded to the nearest integer, ties to even ([0 <= a], [0 < d]). *)
Definition div_half_even (a d : Z) : Z :=
  let q := a / d in
  match 2 * (a mod d) ?= d with
  | Lt => q
  | Eq => if Z.even q then q else q + 1
  | Gt => q + 1
  end.

(** The double nearest to [a / d] ulps: 53 significant bits are kept. *)
Definition round_pos (a d : Z) : Z :=
  let e := Z.max 0 (Z.log2 (a / d) - 52) in
  div_half_even a (d * 2 ^ e) * 2 ^ e.

(** Rounding of the rational [n / d] (in ulps, [0 < d]) to a double. *)
Definition rnd (n d : Z) : number :=
  let m := round_pos (Z.abs n) d in
  if overflow_ulps <=? m then (if n <? 0 then NInf else PInf)
  else Fin (Z.sgn n * m).

(** The double nearest to the decimal [m * 10^e10]. *)
Definition of_decimal (m e10 : Z) : number :=
  if 0 <=? e10 then rnd (m * 10 ^ e10 * one_ulps) 1
  else rnd (m * one_ulps) (10 ^ (- e10)).

Definition of_Z (n : Z) : number := of_decimal n 0.

Definition zero : number := Fin 0.

Definition opp (x : number) : number :=
  match x with
  | NaN => NaN
  | PInf => NInf
  | NInf => PInf
  | Fin k => Fin (- k)
  end.

Definition add (x y : number) : number :=
  match x, y with
  | NaN, _ | _, NaN => NaN
  | PInf, NInf | NInf, PInf => NaN
  | PInf, _ | _, PInf => PInf
  | NInf, _ | _, NInf => NInf
  | Fin a, Fin b => rnd (a + b) 1
  end.

Definition sub (x y : number) : number := add x (opp y).

Definition mul (x y : number) : number :=
  match x, y with
  | NaN, _ | _, NaN => NaN
  | Fin a, Fin b => rnd (a * b) one_ulps
  | Fin a, PInf | PInf, Fin a =>
      if a =? 0 then NaN else if a <? 0 then NInf else PInf
  | Fin a, NInf | NInf, Fin a =>
      if a =? 0 then NaN else if a <? 0 then PInf else NInf
  | PInf, PInf | NInf, NInf => PInf
  | PInf, NInf | NInf, PInf => NInf
  end.

Definition div (x y : number) : number :=
  match x, y with
  | NaN, _ | _, NaN => NaN
  | Fin a, Fin b =>
      if b =? 0 then
        (if a =? 0 then NaN else if a <? 0 then NInf else PInf)
      else rnd (Z.sgn b * a * one_ulps) (Z.abs b)
  | Fin _, (PInf | NInf) => Fin 0
  | PInf, Fin b => if b <? 0 then NInf else PInf
  | NInf, Fin b => if b <? 0 then PInf else NInf
  | (PInf | NInf), (PInf | NInf) => NaN
  end.

(** [x < y], [x > y], [x === y], [x !== y], [isNaN(x)]. *)
Definition ltb (x y : number) : bool :=
  match x, y with
  | NaN, _ | _, NaN => false
  | _, NInf | PInf, _ => false
  | NInf, _ | _, PInf => true
  | Fin a, Fin b => a <? b
  end.

Definition gtb (x y : number) : bool := ltb y x.

Definition leb (x y : number) : bool :=
  match x, y with
  | NaN, _ | _, NaN => false
  | NInf, _ | _, PInf => true
  | _, NInf | PInf, _ => false
  | Fin a, Fin b => a <=? b
  end.

Definition strict_eq (x y : number) : bool :=
  match x, y with
  | PInf, PInf | NInf, NInf => true
  | Fin a, Fin b => a =? b
  | _, _ => false
  end.

Definition strict_ne (x y : number) : bool := negb (strict_eq x y).

Definition isNaN (x : number) : bool :=
  match x with NaN => true | _ => false end.

Definition is_finite (x : number) : bool :=
  match x with Fin _ => true | _ => false end.

Definition is_infinite (x : number) : bool :=
  match x with PInf | NInf => true | _ => false end.

End Number.
Export Number.

(* ===================================================================== *)
(** ** Strings *)
(* ===================================================================== *)

Module JsString.

(** White space and line terminators: the class [\s] of regular
    expressions, which is also what [trim] and [parseFloat] strip. *)
Definition isWhiteSpace (c : ascii) : bool :=
  match c with
  | "009" | "010" | "011" | "012" | "013" | " " | "160" => true
  | _ => false
  end%char.

Definition isDigit (c : ascii) : bool :=
  match Ascii.is_nat c with Some _ => true | None => false end.

Definition digit_value (c : ascii) : Z :=
  match Ascii.is_nat c with Some d => Z.of_nat d | None => 0 end.

Fixpoint trimStart (s : string) : string :=
  match s with
  | String c s' => if isWhiteSpace c then trimStart s' else s
  | EmptyString => EmptyString
  end.

Fixpoint trimEnd (s : string) : string :=
  match s with
  | EmptyString => EmptyString
  | String c s' =>
      match trimEnd s' with
      | EmptyString => if isWhiteSpace c then EmptyString else String c EmptyString
      | t => String c t
      end
  end.

Definition trim (s : string) : string := trimEnd (trimStart s).

(** [s.split(sep)] for a one-character separator: at least one piece. *)
Fixpoint split (sep : ascii) (s : string) : list string :=
  match s with
  | EmptyString => [EmptyString]
  | String c s' =>
      if Ascii.eqb c sep then EmptyString :: split sep s'
      else match split sep s' with
           | piece :: pieces => String c piece :: pieces
           | [] => [String c EmptyString]
           end
  end.

(** [s.replace(/[...]/g, '')]: delete every character of a class. *)
Fixpoint remove_all (cls : ascii -> bool) (s : string) : string :=
  match s with
  | EmptyString => EmptyString
  | String c s' => if cls c then remove_all cls s' else String c (remove_all cls s')
  end.

(** [s.replace(a, b)] for one-character strings: the first occurrence only. *)
Fixpoint replace_first (a b : ascii) (s : string) : string :=
  match s with
  | EmptyString => EmptyString
  | String c s' => if Ascii.eqb c a then String b s' else String c (replace_first a b s')
  end.

Definition lower_char (c : ascii) : ascii :=
  let n := N_of_ascii c in
  if ((65 <=? n) && (n <=? 90) || (192 <=? n) && (n <=? 222) && negb (n =? 215))%N
  then ascii_of_N (n + 32) else c.

Fixpoint toLowerCase (s : string) : string :=
  match s with
  | EmptyString => EmptyString
  | String c s' => String (lower_char c) (toLowerCase s')
  end.

Fixpoint startsWith (p s : string) : bool :=
  match p, s with
  | EmptyString, _ => true
  | String a p', String b s' => Ascii.eqb a b && startsWith p' s'
  | String _ _, EmptyString => false
  end.

Fixpoint repeat_char (c : ascii) (n : nat) : string :=
  match n with
  | O => EmptyString
  | S n' => String c (repeat_char c n')
  end.

(** [s.slice(0, n)] and [s.slice(n)]. *)
Definition slice_to (n : nat) (s : string) : string := String.substring 0 n s.
Definition slice_from (n : nat) (s : string) : string :=
  String.substring n (String.length s - n) s.

End JsString.
Export JsString.

(** A cell of a row: [string | undefined]. *)
Definition cell : Type := option string.
Abbreviation undefined := (@None string).

(** Truthiness of a cell: [undefined] and the empty string are falsy. *)
Definition truthy (c : cell) : bool :=
  match c with
  | Some (String _ _) => true
  | _ => false
  end.

(** [row[i]]: reading past the end of an array gives [undefined]. *)
Definition at_index (row : list cell) (i : nat) : cell :=
  match row !! i with
  | Some c => c
  | None => None
  end.

(* ===================================================================== *)
(** ** Printing and reading numbers *)
(* ===================================================================== *)

Module NumberText.

(** Decimal digits of a natural number, as [n.toString()] prints an
    integer below 10^21. *)
Definition digits_of (n : Z) : string := pretty (Z.to_N n).

(** [Number::toString] step 5: the shortest digit string [s] (of [k]
    digits) and the exponent [n] with [s * 10^(n-k)] reading back as the
    double; among the candidates of least length, the one nearest to
    the double.  [x] is the double in ulps, [0 < x]. *)
Definition scaled (x : Z) (p : Z) : Z * Z :=      (* x * 10^p as a fraction of ulps *)
  if 0 <=? p then (x * 10 ^ p, one_ulps) else (x, one_ulps * 10 ^ (- p)).

Fixpoint magnitude_up (fuel : nat) (x : Z) (n : Z) : Z :=
  (* least n with x < 10^n ulps-units, searching upwards *)
  match fuel with
  | O => n
  | S fuel' =>
      let '(a, d) := scaled x (- n) in
      if a <? d then n else magnitude_up fuel' x (n + 1)
  end.

Fixpoint magnitude_down (fuel : nat) (x : Z) (n : Z) : Z :=
  (* greatest n with 10^(n-1) <= x, searching downwards *)
  match fuel with
  | O => n
  | S fuel' =>
      let '(a, d) := scaled x (1 - n) in
      if d <=? a then n else magnitude_down fuel' x (n - 1)
  end.

Definition magnitude (x : Z) : Z :=
  if one_ulps <=? x then magnitude_up 400 x 1 else magnitude_down 400 x 0.

Definition candidate (x n k : Z) : option (Z * Z) :=
  let '(a, d) := scaled x (k - n) in
  let lo := a / d in
  let hi := lo + 1 in
  let hi_n := if hi =? 10 ^ k then n + 1 else n in
  let hi_s := if hi =? 10 ^ k then 10 ^ (k - 1) else hi in
  let lo_ok := (10 ^ (k - 1) <=? lo) && strict_eq (of_decimal lo (n - k)) (Fin x) in
  let hi_ok := strict_eq (of_decimal hi_s (hi_n - k)) (Fin x) in
  let lo_nearer :=
    match 2 * (a mod d) ?= d with
    | Lt => true
    | Eq => Z.even lo
    | Gt => false
    end in
  if lo_ok && (lo_nearer || negb hi_ok) then Some (lo, n)
  else if hi_ok then Some (hi_s, hi_n)
  else None.

Fixpoint shortest (fuel : nat) (x n k : Z) : Z * Z * Z :=
  match fuel with
  | O => (x, n, k)
  | S fuel' =>
      match candidate x n k with
      | Some (s, n') => (s, n', k)
      | None => shortest fuel' x n (k + 1)
      end
  end.

Definition exponent_text (e : Z) : string :=
  (if e <? 0 then "e-" else "e+") +:+ digits_of (Z.abs e).

Definition positive_toString (x : Z) : string :=
  let '(s, n, k) := shortest 17 x (magnitude x) 1 in
  let ds := digits_of s in
  if (k <=? n) && (n <=? 21) then ds +:+ repeat_char "0" (Z.to_nat (n - k))
  else if (0 <? n) && (n <=? 21) then
    slice_to (Z.to_nat n) ds +:+ "." +:+ slice_from (Z.to_nat n) ds
  else if (-6 <? n) && (n <=? 0) then
    "0." +:+ repeat_char "0" (Z.to_nat (- n)) +:+ ds
  else if k =? 1 then ds +:+ exponent_text (n - 1)
  else slice_to 1 ds +:+ "." +:+ slice_from 1 ds +:+ exponent_text (n - 1).

(** [String(x)], [x.toString()] and the number in a template literal. *)
Definition toString (x : number) : string :=
  match x with
  | NaN => "NaN"
  | PInf => "Infinity"
  | NInf => "-Infinity"
  | Fin k =>
      if k =? 0 then "0"
      else if k <? 0 then "-" +:+ positive_toString (- k)
      else positive_toString k
  end.

(** [x.toFixed(2)]. *)
Definition toFixed2 (x : number) : string :=
  match x with
  | Fin k =>
      let sign := if k <? 0 then "-" else "" in
      let a := Z.abs k in
      if 10 ^ 21 * one_ulps <=? a then sign +:+ positive_toString a
      else
        (* the integer n nearest to a * 100, the larger one on a tie *)
        let n := (2 * 100 * a + one_ulps) / (2 * one_ulps) in
        let m := digits_of n in
        let m := repeat_char "0" (3 - String.length m) +:+ m in
        let cut := (String.length m - 2)%nat in
        sign +:+ slice_to cut m +:+ "." +:+ slice_from cut m
  | _ => toString x
  end.

(** The digits at the head of a string, and what follows them. *)
Fixpoint span_digits (s : string) : list Z * string :=
  match s with
  | String c s' =>
      if isDigit c then
        let '(ds, rest) := span_digits s' in (digit_value c :: ds, rest)
      else ([], s)
  | EmptyString => ([], EmptyString)
  end.

Definition digits_value (ds : list Z) : Z :=
  foldl (fun acc d => 10 * acc + d) 0 ds.

(** The exponent part [e[+-]digits], when it is complete. *)
Definition exponent_part (s : string) : Z :=
  match s with
  | String c s' =>
      if Ascii.eqb c "e" || Ascii.eqb c "E" then
        let '(neg, s'') :=
          match s' with
          | String "-" r => (true, r)
          | String "+" r => (false, r)
          | _ => (false, s')
          end in
        match span_digits s'' with
        | ([], _) => 0
        | (ds, _) => if neg then - digits_value ds else digits_value ds
        end
      else 0
  | EmptyString => 0
  end.

(** [parseFloat(s)]: leading white space is skipped, the longest prefix
    that is a decimal literal is read, and [NaN] is returned when there
    is none. *)
Definition parseFloat (s : string) : number :=
  let t := trimStart s in
  let '(neg, t) :=
    match t with
    | String "-" r => (true, r)
    | String "+" r => (false, r)
    | _ => (false, t)
    end in
  if startsWith "Infinity" t then (if neg then NInf else PInf)
  else
    let '(int_part, r1) := span_digits t in
    let '(frac_part, r2) :=
      match r1 with
      | String "." r => span_digits r
      | _ => ([], r1)
      end in
    match int_part, frac_part with
    | [], [] => NaN
    | _, _ =>
        let m := digits_value (int_part ++ frac_part) in
        let e := exponent_part r2 - Z.of_nat (length frac_part) in
        of_decimal (if neg then - m else m) e
    end.

End NumberText.
Export NumberText.

(* ===================================================================== *)
(** ** The numeric parser *)
(* ===================================================================== *)

Definition is_symbol (c : ascii) : bool :=
  (Ascii.eqb c "R" || Ascii.eqb c "$" || Ascii.eqb c "%" || isWhiteSpace c)%char.

(** Helper: parse Brazilian formatted numbers ("1.234,56" or "12,50%"). *)
Definition parseBRNumber (str : cell) : number :=
  match str with
  | None | Some EmptyString => NInf
  | Some str =>
      let cleanStr := remove_all is_symbol str in            (* remove symbols *)
      let cleanStr := remove_all (Ascii.eqb ".") cleanStr in (* thousands separator *)
      let cleanStr := replace_first "," "." cleanStr in      (* decimal separator *)
      let num := parseFloat cleanStr in
      if isNaN num then NInf else num
  end.


(* ===================================================================== *)
(** ** Types ([types.ts]) *)
(* ===================================================================== *)

Record StockData : Type := mkStockData {
  id : string;                 (* unique id (usually the ticker) *)
  raw : list cell;             (* the display row *)
  plProjected : number;
  plDeviation : number;
  dy : number;
  marginSafety : number;
  cagr : number;
  debtEbitda : number;
  priceDiff : number;
  ticker : cell;
  company : cell;
  sector : cell;
  currentPrice : number;
  fairPrice : number;
  rankPL : Z;
  rankDeviation : Z;
  rankDY : Z;
  rankMargin : Z;
  rankCAGR : Z;
  rankDebt : Z;
  rankTotal : Z;
  rankGeneral : Z
}.

Inductive SortOrder : Type := ASC | DESC.

(** The titles are carried as they are written in [types.ts]; an accented
    letter stands here in the encoding of this file, and nothing below
    depends on the text of a title, only on how many there are. *)
Definition STANDARD_HEADERS : list string := [
  "Ranking Geral"; "Status"; "Ranking PL"; "Ranking Desvio PL"; "Ranking DY"; "Ranking Mg";
  "Ranking CAGR"; "Ranking Divida"; "Ranking Total"; "Empresa"; "Código"; "Atuação";
  "Quantidade total de ações"; "Valor de mercado"; "Lucro líquido estimado 2025";
  "P/L projetado"; "P/L médio (últ. 10 anos)"; "Desvio do P/L da sua média";
  "CAGR lucros (últ. 5 anos)"; "Dívida líquida/EBITDA"; "Lucro por ação estimado";
  "Payout esperado"; "Dividendo por ação bruto projetado"; "Dividend Yield estimado";
  "Cotação atual"; "Preço Teto"; "Margem de segurança"; "Preço de entrada";
  "Dif. Preço Atual x Entrada"; "Frequência nos anúncios"; "Meses que costumam anunciar dividendos";
  "Última atualização"; "Investidor10"
].

Definition NETO_INVEST_HEADERS : list string := [
  "Empresa"; "Código"; "Atuação"; "Quantidade total de ações"; "Valor de mercado";
  "Lucro líquido estimado 2025"; "P/L projetado"; "P/L médio (últ. 10 anos)";
  "Desvio do P/L da sua média"; "CAGR lucros (últ. 5 anos)"; "Dívida líquida/EBITDA";
  "Lucro por ação estimado"; "Payout esperado"; "Dividendo por ação bruto projetado";
  "Dividend Yield bruto estimado"; "Cotação atual"; "Preço Teto"; "Margem de segurança";
  "Frequência nos anúncios"; "Meses que costumam anunciar dividendos"; "Última atualização"
].

(** How the table component renders specific columns. *)
Record TableLayoutConfig : Type := mkLayout {
  stickyIndices : list nat;
  tickerIndex : nat;
  companyIndex : nat;
  statusIndex : option nat;
  generalRankIndex : option nat
}.

Inductive Mode : Type := standard | neto.

Record ProcessResult : Type := mkResult {
  processed : list StockData;
  headers : list string;
  initialHiddenColumns : list nat;
  layoutConfig : TableLayoutConfig
}.

(** The keys [applyRank] reads and the rank fields it writes. *)
Inductive NumericKey : Type :=
| key_plProjected | key_plDeviation | key_dy | key_marginSafety
| key_cagr | key_debtEbitda | key_rankTotal.

Inductive RankKey : Type :=
| key_rankPL | key_rankDeviation | key_rankDY | key_rankMargin
| key_rankCAGR | key_rankDebt | key_rankGeneral.

Definition get (key : NumericKey) (s : StockData) : number :=
  match key with
  | key_plProjected => plProjected s
  | key_plDeviation => plDeviation s
  | key_dy => dy s
  | key_marginSafety => marginSafety s
  | key_cagr => cagr s
  | key_debtEbitda => debtEbitda s
  | key_rankTotal => of_Z (rankTotal s)
  end.

Definition rank_of (key : RankKey) (s : StockData) : Z :=
  match key with
  | key_rankPL => rankPL s
  | key_rankDeviation => rankDeviation s
  | key_rankDY => rankDY s
  | key_rankMargin => rankMargin s
  | key_rankCAGR => rankCAGR s
  | key_rankDebt => rankDebt s
  | key_rankGeneral => rankGeneral s
  end.

Definition set_rank (key : RankKey) (v : Z) (s : StockData) : StockData :=
  let '(mkStockData i r pl pd y ms cg de df tk co se cp fp r1 r2 r3 r4 r5 r6 rt rg) := s in
  match key with
  | key_rankPL => mkStockData i r pl pd y ms cg de df tk co se cp fp v r2 r3 r4 r5 r6 rt rg
  | key_rankDeviation => mkStockData i r pl pd y ms cg de df tk co se cp fp r1 v r3 r4 r5 r6 rt rg
  | key_rankDY => mkStockData i r pl pd y ms cg de df tk co se cp fp r1 r2 v r4 r5 r6 rt rg
  | key_rankMargin => mkStockData i r pl pd y ms cg de df tk co se cp fp r1 r2 r3 v r5 r6 rt rg
  | key_rankCAGR => mkStockData i r pl pd y ms cg de df tk co se cp fp r1 r2 r3 r4 v r6 rt rg
  | key_rankDebt => mkStockData i r pl pd y ms cg de df tk co se cp fp r1 r2 r3 r4 r5 v rt rg
  | key_rankGeneral => mkStockData i r pl pd y ms cg de df tk co se cp fp r1 r2 r3 r4 r5 r6 rt v
  end.

Definition set_rankTotal (v : Z) (s : StockData) : StockData :=
  let '(mkStockData i r pl pd y ms cg de df tk co se cp fp r1 r2 r3 r4 r5 r6 _ rg) := s in
  mkStockData i r pl pd y ms cg de df tk co se cp fp r1 r2 r3 r4 r5 r6 v rg.

Definition set_raw (v : list cell) (s : StockData) : StockData :=
  let '(mkStockData i _ pl pd y ms cg de df tk co se cp fp r1 r2 r3 r4 r5 r6 rt rg) := s in
  mkStockData i v pl pd y ms cg de df tk co se cp fp r1 r2 r3 r4 r5 r6 rt rg.

Definition set_priceDiff (v : number) (s : StockData) : StockData :=
  let '(mkStockData i r pl pd y ms cg de _ tk co se cp fp r1 r2 r3 r4 r5 r6 rt rg) := s in
  mkStockData i r pl pd y ms cg de v tk co se cp fp r1 r2 r3 r4 r5 r6 rt rg.

(* ===================================================================== *)
(** ** The ranking engine *)
(* ===================================================================== *)

Section ArraySort.
Context {A : Type}.
Variable comparefn : A -> A -> number.

(** [x] travels to the right past every element it compares greater
    than; a result of zero or NaN leaves the two in place. *)
Fixpoint sort_insert (x : A) (l : list A) : list A :=
  match l with
  | [] => [x]
  | y :: l' =>
      if gtb (comparefn x y) zero then y :: sort_insert x l'
      else x :: l
  end.

Definition array_sort (l : list A) : list A := foldr sort_insert [] l.
End ArraySort.

(** The comparator of [applyRank]: both infinities are remapped to the
    worst value for the current direction. *)
Definition safe_value (order : SortOrder) (val : number) : number :=
  if strict_eq val NInf || strict_eq val PInf
  then (match order with ASC => PInf | DESC => NInf end)
  else val.

Definition rank_compare (key : NumericKey) (order : SortOrder) (a b : StockData) : number :=
  let safeA := safe_value order (get key a) in
  let safeB := safe_value order (get key b) in
  match order with
  | ASC => sub safeA safeB
  | DESC => sub safeB safeA
  end.

Definition applyRank (key : NumericKey) (targetRank : RankKey) (order : SortOrder)
    (stocks : list StockData) : list StockData :=
  imap (fun i s => set_rank targetRank (Z.of_nat i + 1) s)
       (array_sort (rank_compare key order) stocks).

Definition sum_ranks (s : StockData) : StockData :=
  set_rankTotal
    (rankPL s + rankDeviation s + rankDY s + rankMargin s + rankCAGR s + rankDebt s) s.

Definition rank_text (r : Z) : cell := Some (toString (of_Z r)).

(** The write-back of one record: only rows of at least 30 cells. *)
Definition write_back (s : StockData) : StockData :=
  if (30 <=? length (raw s))%nat then
    set_raw
      (<[8%nat := rank_text (rankTotal s)]>
      (<[7%nat := rank_text (rankDebt s)]>
      (<[6%nat := rank_text (rankCAGR s)]>
      (<[5%nat := rank_text (rankMargin s)]>
      (<[4%nat := rank_text (rankDY s)]>
      (<[3%nat := rank_text (rankDeviation s)]>
      (<[2%nat := rank_text (rankPL s)]>
      (<[0%nat := rank_text (rankGeneral s)]> (raw s))))))))) s
  else s.

(** The default order: price difference ascending, a missing one last. *)
Definition default_compare (a b : StockData) : number :=
  let valA := if strict_eq (priceDiff a) NInf then PInf else priceDiff a in
  let valB := if strict_eq (priceDiff b) NInf then PInf else priceDiff b in
  sub valA valB.

Definition calculateRanks (stocks : list StockData) : list StockData :=
  let stocks := applyRank key_plProjected key_rankPL ASC stocks in
  let stocks := applyRank key_plDeviation key_rankDeviation ASC stocks in
  let stocks := applyRank key_dy key_rankDY DESC stocks in
  let stocks := applyRank key_marginSafety key_rankMargin DESC stocks in
  let stocks := applyRank key_cagr key_rankCAGR DESC stocks in
  let stocks := applyRank key_debtEbitda key_rankDebt ASC stocks in
  (* Total rank *)
  let stocks := sum_ranks <$> stocks in
  (* General rank *)
  let stocks := applyRank key_rankTotal key_rankGeneral ASC stocks in
  (* Write the ranks into the display rows of standard shape *)
  let stocks :=
    match stocks with
    | first :: _ =>
        if (9 <=? length (raw first))%nat then write_back <$> stocks else stocks
    | [] => stocks
    end in
  (* Default sort (price difference ascending) *)
  array_sort default_compare stocks.

(* ===================================================================== *)
(** ** The schema normaliser *)
(* ===================================================================== *)

(** [Math.random()] is the only effect of the module: a computation takes
    the sequence of values the generator is going to return and gives
    back what is left of it. *)
Definition RandomSource : Type := nat -> number.
Definition Random (A : Type) : Type := RandomSource -> A * RandomSource.

Definition ret {A} (a : A) : Random A := fun g => (a, g).
Definition bind {A B} (m : Random A) (f : A -> Random B) : Random B :=
  fun g => let '(a, g') := m g in f a g'.
Notation "'let*' x := m 'in' k" := (bind m (fun x => k))
  (at level 10, x name, m at level 100, k at level 200).

Definition Math_random : Random number :=
  fun g => (g 0%nat, fun n => g (S n)).

(** [rows.map(f)] for a callback that may draw random numbers. *)
Fixpoint array_mapM {A B} (f : A -> Random B) (l : list A) : Random (list B) :=
  match l with
  | [] => ret []
  | a :: l' => let* b := f a in let* bs := array_mapM f l' in ret (b :: bs)
  end.

Inductive outcome (A : Type) : Type :=
| Returns (a : A)
| Throws (message : string).
Arguments Returns {A} a.
Arguments Throws {A} message.

(** [while (safeRow.length < n) safeRow.push('')]. *)
Definition pad_row (n : nat) (row : list cell) : list cell :=
  row ++ replicate (n - length row) (Some "").

(** [cell || `unknown-${Math.random()}`]. *)
Definition id_of (tk : cell) : Random string :=
  match tk with
  | Some (String c t) => ret (String c t)
  | _ => let* r := Math_random in ret ("unknown-" +:+ toString r)
  end.

Definition neto_stock (row : list cell) : Random StockData :=
  (* Pad row if needed *)
  let safeRow := pad_row (length NETO_INVEST_HEADERS) row in
  let* i := id_of (at_index safeRow 1) in
  ret {| id := i;
         raw := safeRow;
         ticker := at_index safeRow 1;
         company := at_index safeRow 0;
         sector := at_index safeRow 2;
         plProjected := parseBRNumber (at_index safeRow 6);
         plDeviation := parseBRNumber (at_index safeRow 8);
         dy := parseBRNumber (at_index safeRow 14);
         marginSafety := parseBRNumber (at_index safeRow 17);
         cagr := parseBRNumber (at_index safeRow 9);
         debtEbitda := parseBRNumber (at_index safeRow 10);
         currentPrice := parseBRNumber (at_index safeRow 15);
         fairPrice := parseBRNumber (at_index safeRow 16);
         priceDiff := zero;
         rankPL := 0; rankDeviation := 0; rankDY := 0; rankMargin := 0;
         rankCAGR := 0; rankDebt := 0; rankTotal := 0; rankGeneral := 0 |}.

(** The price difference of neto mode. *)
Definition neto_priceDiff (s : StockData) : StockData :=
  if gtb (currentPrice s) zero && gtb (fairPrice s) zero then
    set_priceDiff
      (mul (div (sub (currentPrice s) (fairPrice s)) (fairPrice s)) (of_Z 100)) s
  else s.

(** The "simplified" sheet laid out in the 33 standard columns. *)
Definition simplified_row (row : list cell) : list cell :=
  let newRow := replicate (length STANDARD_HEADERS) (Some "") in
  let newRow := <[9%nat := at_index row 0]> newRow in
  let newRow := <[10%nat := at_index row 1]> newRow in   (* ticker *)
  let newRow := <[11%nat := at_index row 2]> newRow in   (* sector *)
  let newRow := <[15%nat := at_index row 6]> newRow in   (* P/L projected *)
  let newRow := <[17%nat := at_index row 8]> newRow in   (* deviation *)
  let newRow := <[18%nat := at_index row 9]> newRow in   (* CAGR *)
  let newRow := <[19%nat := at_index row 10]> newRow in  (* debt *)
  let newRow := <[23%nat := at_index row 14]> newRow in  (* DY *)
  let newRow := <[24%nat := at_index row 15]> newRow in  (* price *)
  let newRow := <[25%nat := at_index row 16]> newRow in  (* ceiling price *)
  let newRow := <[26%nat := at_index row 17]> newRow in  (* margin *)
  let newRow := <[29%nat := at_index row 18]> newRow in
  let newRow := <[30%nat := at_index row 19]> newRow in
  let newRow := <[31%nat := at_index row 20]> newRow in
  let newRow :=
    match at_index row 1 with
    | Some (String c t) =>
        <[32%nat := Some ("https://investidor10.com.br/acoes/" +:+ trim (String c t))]> newRow
    | _ => newRow
    end in
  let price := parseBRNumber (at_index row 15) in
  let fair := parseBRNumber (at_index row 16) in
  if strict_ne price NInf && strict_ne fair NInf && strict_ne fair zero then
    let diff := mul (div (sub price fair) fair) (of_Z 100) in
    <[28%nat := Some (replace_first "." "," (toFixed2 diff) +:+ "%")]> newRow
  else
    <[28%nat := Some "0,00%"]> newRow.

Definition standard_stock (row : list cell) : Random StockData :=
  let safeRow := pad_row (length STANDARD_HEADERS) row in
  let* i := id_of (at_index safeRow 10) in
  ret {| id := i;
         raw := safeRow;
         ticker := at_index safeRow 10;
         company := at_index safeRow 9;
         sector := at_index safeRow 11;
         plProjected := parseBRNumber (at_index safeRow 15);
         plDeviation := parseBRNumber (at_index safeRow 17);
         dy := parseBRNumber (at_index safeRow 23);
         marginSafety := parseBRNumber (at_index safeRow 26);
         cagr := parseBRNumber (at_index safeRow 18);
         debtEbitda := parseBRNumber (at_index safeRow 19);
         currentPrice := parseBRNumber (at_index safeRow 24);
         fairPrice := parseBRNumber (at_index safeRow 25);
         priceDiff := parseBRNumber (at_index safeRow 28);
         rankPL := 0; rankDeviation := 0; rankDY := 0; rankMargin := 0;
         rankCAGR := 0; rankDebt := 0; rankTotal := 0; rankGeneral := 0 |}.

(** [rawData.trim().split('\n').map(row => row.split('\t'))]. *)
Definition split_rows (rawData : string) : list (list cell) :=
  (fun row => Some <$> split "009" row) <$> split "010" (trim rawData).

(** Is the sheet the simplified one (its header starts with "Empresa")? *)
Definition is_simplified (inputHeaders : list cell) : bool :=
  match at_index inputHeaders 0 with
  | Some (String c t) =>
      bool_decide (toLowerCase (trim (String c t)) = "empresa")
  | _ => false
  end.

(** The data rows of standard mode, remapped when the sheet is simplified. *)
Definition standard_rows (rows : list (list cell)) : list (list cell) :=
  let inputHeaders := default [] (head rows) in
  let dataRows := tail rows in
  if is_simplified inputHeaders then simplified_row <$> dataRows else dataRows.

(** The array handed to [calculateRanks] in each mode. *)
Definition neto_stocks (rows : list (list cell)) : Random (list StockData) :=
  (* The headers are fixed; the header of the input is skipped. *)
  let dataRows := tail rows in
  let* stocks := array_mapM neto_stock dataRows in
  ret (neto_priceDiff <$> stocks).

Definition standard_stocks (rows : list (list cell)) : Random (list StockData) :=
  array_mapM standard_stock (standard_rows rows).

Definition processStockData (rawData : string) (mode : Mode)
    : Random (outcome ProcessResult) :=
  let rows := split_rows rawData in
  if (length rows <? 2)%nat then ret (Throws "Dados insuficientes.")
  else
    match mode with
    | neto =>
        let* stocks := neto_stocks rows in
        let stocks := calculateRanks stocks in
        ret (Returns {|
          processed := stocks;
          headers := NETO_INVEST_HEADERS;
          initialHiddenColumns := [];
          layoutConfig := {| stickyIndices := [0; 1]%nat;
                             companyIndex := 0;
                             tickerIndex := 1;
                             statusIndex := None;
                             generalRankIndex := None |} |})
    | standard =>
        let initialHiddenColumns :=
          if is_simplified (default [] (head rows)) then [1; 27]%nat else [] in
        let* stocks := standard_stocks rows in
        let stocks := calculateRanks stocks in
        ret (Returns {|
          processed := stocks;
          headers := STANDARD_HEADERS;
          initialHiddenColumns := initialHiddenColumns;
          layoutConfig := {| stickyIndices := [0; 9; 10]%nat;
                             generalRankIndex := Some 0%nat;
                             statusIndex := Some 1%nat;
                             companyIndex := 9;
                             tickerIndex := 10 |} |})
    end.

(** What a call returns from a given random source. *)
Definition run {A} (m : Random A) (g : RandomSource) : A := fst (m g).

(* ===================================================================== *)
(** ** Notions of the specification *)
(* ===================================================================== *)

(** The array [calculateRanks] receives, in data-row order. *)
Definition stocks_before_ranking (rawData : string) (mode : Mode) : Random (list StockData) :=
  match mode with
  | neto => neto_stocks (split_rows rawData)
  | standard => standard_stocks (split_rows rawData)
  end.

(** The six ranked metrics: key, rank field and declared direction. *)
Inductive Metric : Type :=
| PL | Deviation | DY | Margin | CAGR | Debt.

Definition metric_key (m : Metric) : NumericKey :=
  match m with
  | PL => key_plProjected | Deviation => key_plDeviation | DY => key_dy
  | Margin => key_marginSafety | CAGR => key_cagr | Debt => key_debtEbitda
  end.

Definition metric_rank (m : Metric) : RankKey :=
  match m with
  | PL => key_rankPL | Deviation => key_rankDeviation | DY => key_rankDY
  | Margin => key_rankMargin | CAGR => key_rankCAGR | Debt => key_rankDebt
  end.

Definition metric_order (m : Metric) : SortOrder :=
  match m with
  | PL | Deviation | Debt => ASC
  | DY | Margin | CAGR => DESC
  end.

Definition metric_value (m : Metric) (s : StockData) : number := get (metric_key m) s.
Definition metric_rank_of (m : Metric) (s : StockData) : Z := rank_of (metric_rank m) s.

(** [a] is strictly better than [b] in the given direction. *)
Definition better (order : SortOrder) (a b : number) : bool :=
  match order with
  | ASC => ltb a b
  | DESC => gtb a b
  end.

(** Two values tie in a ranking: equal numbers, or both missing. *)
Definition tie (a b : number) : Prop :=
  match a, b with
  | Fin x, Fin y => x = y
  | (PInf | NInf), (PInf | NInf) => True
  | _, _ => False
  end.

(** The place of a value in a ranking: finite values by their size in the
    direction of the sort, every infinite value after all of them. *)
Inductive weight : Type :=
| Weight (z : Z)
| Worst.

Definition weight_lt (u v : weight) : Prop :=
  match u, v with
  | Weight a, Weight b => a < b
  | Weight _, Worst => True
  | Worst, _ => False
  end.

Definition weight_of (order : SortOrder) (v : number) : weight :=
  match v with
  | Fin k => Weight (match order with ASC => k | DESC => - k end)
  | _ => Worst
  end.

Global Instance weight_eq_dec : EqDecision weight.
Proof. solve_decision. Defined.

(** [a] occurs in [l] at an earlier position than [b]. *)
Fixpoint before {A} (l : list A) (a b : A) : Prop :=
  match l with
  | [] => False
  | y :: l' => (a = y /\ b ∈ l') \/ before l' a b
  end.

(** The fields of a record that the ranking engine never writes. *)
Definition core (s : StockData)
    : string * cell * cell * cell * list number :=
  (id s, ticker s, company s, sector s,
   [plProjected s; plDeviation s; dy s; marginSafety s; cagr s; debtEbitda s;
    priceDiff s; currentPrice s; fairPrice s]).

(** The sort key of the default order. *)
Definition default_key (s : StockData) : number :=
  if strict_eq (priceDiff s) NInf then PInf else priceDiff s.

(** The integers [1..n], the ranks of [n] records. *)
Definition ranks_upto (n : nat) : list Z := seqZ 1 (Z.of_nat n).

(** The steps of [calculateRanks], named. *)
Definition rank_metric (m : Metric) (stocks : list StockData) : list StockData :=
  applyRank (metric_key m) (metric_rank m) (metric_order m) stocks.

Definition ranking_order : list Metric := [PL; Deviation; DY; Margin; CAGR; Debt].

Definition rank_metrics (ms : list Metric) (stocks : list StockData) : list StockData :=
  foldl (fun acc m => rank_metric m acc) stocks ms.

Definition rank_general (stocks : list StockData) : list StockData :=
  applyRank key_rankTotal key_rankGeneral ASC (sum_ranks <$> stocks).

Definition write_back_all (stocks : list StockData) : list StockData :=
  match stocks with
  | first :: _ =>
      if (9 <=? length (raw first))%nat then write_back <$> stocks else stocks
  | [] => stocks
  end.

(** No metric of the record is NaN. *)
Definition metrics_defined (s : StockData) : Prop :=
  forall m, metric_value m s <> NaN.

(** The metrics ranked before and after a given one. *)
Definition earlier (m : Metric) : list Metric :=
  match m with
  | PL => []
  | Deviation => [PL]
  | DY => [PL; Deviation]
  | Margin => [PL; Deviation; DY]
  | CAGR => [PL; Deviation; DY; Margin]
  | Debt => [PL; Deviation; DY; Margin; CAGR]
  end.

Definition later (m : Metric) : list Metric :=
  match m with
  | PL => [Deviation; DY; Margin; CAGR; Debt]
  | Deviation => [DY; Margin; CAGR; Debt]
  | DY => [Margin; CAGR; Debt]
  | Margin => [CAGR; Debt]
  | CAGR => [Debt]
  | Debt => []
  end.

(** The metric ranked immediately before [m]: its rank is the array
    order that [m]'s sort starts from. *)
Definition previous (m : Metric) : option Metric :=
  match m with
  | PL => None
  | Deviation => Some PL
  | DY => Some Deviation
  | Margin => Some DY
  | CAGR => Some Margin
  | Debt => Some CAGR
  end.

(* ===================================================================== *)
(** ** Sample sheets *)
(* ===================================================================== *)

(** [cells.join(sep)]: how a sheet is pasted as text. *)
Definition join (sep : ascii) (parts : list string) : string :=
  match parts with
  | [] => ""
  | p :: ps => foldl (fun acc q => acc +:+ String sep q) p ps
  end.

Definition sheet (rows : list (list string)) : string :=
  join "010" (join "009" <$> rows).

(** A generator that keeps returning 0.5. *)
Definition half_source : RandomSource := fun _ => of_decimal 5 (-1).

(** Three neto rows: P/L projected 10, missing, and 12. *)
Definition neto_sample : string :=
  sheet [ ["Empresa"; "Codigo"];
          ["Acme"; "ACM3"; "Setor"; ""; ""; ""; "10"];
          ["Beta"; "BET4"; "Setor"; ""; ""; ""; ""];
          ["Gama"; "GAM3"; "Setor"; ""; ""; ""; "12"] ].

(** A header and one data row made of three empty cells. *)
Definition blank_row_sample : string :=
  sheet [ ["Empresa"; "Codigo"]; [""; ""; ""] ].

(** A neto row quoted at zero with a ceiling price of 10. *)
Definition zero_price_sample : string :=
  sheet [ ["Empresa"; "Codigo"];
          ["Acme"; "ACM3"; "Setor"; ""; ""; ""; "10"; ""; ""; ""; ""; ""; ""; ""; "";
           "R$ 0,00"; "R$ 10,00"] ].

(** The number of line breaks of a text. *)
Fixpoint line_breaks (s : string) : nat :=
  match s with
  | EmptyString => 0
  | String c s' => (if Ascii.eqb c "010" then 1 else 0) + line_breaks s'
  end.

(** The price difference as the engine of neto mode computes it. *)
Definition price_difference (s : StockData) : number :=
  mul (div (sub (currentPrice s) (fairPrice s)) (fairPrice s)) (of_Z 100).

(** The ticker cell of every data row, as the mode reads it. *)
Definition ticker_cells (rawData : string) (mode : Mode) : list cell :=
  match mode with
  | neto =>
      (fun row => at_index (pad_row (length NETO_INVEST_HEADERS) row) 1)
        <$> tail (split_rows rawData)
  | standard =>
      (fun row => at_index (pad_row (length STANDARD_HEADERS) row) 10)
        <$> standard_rows (split_rows rawData)
  end.

(** A record and a result with the ids blanked. *)
Definition forget_id (s : StockData) : StockData :=
  let '(mkStockData _ r pl pd y ms cg de df tk co se cp fp r1 r2 r3 r4 r5 r6 rt rg) := s in
  mkStockData "" r pl pd y ms cg de df tk co se cp fp r1 r2 r3 r4 r5 r6 rt rg.

Definition forget_ids (o : outcome ProcessResult) : outcome ProcessResult :=
  match o with
  | Returns r =>
      Returns {| processed := forget_id <$> processed r;
                 headers := headers r;
                 initialHiddenColumns := initialHiddenColumns r;
                 layoutConfig := layoutConfig r |}
  | Throws e => Throws e
  end.

(** Numerals of the sheet: [<digits>(.<digits>)*,<digits>?%?]. *)
Fixpoint all_digits (s : string) : bool :=
  match s with
  | EmptyString => true
  | String c s' => isDigit c && all_digits s'
  end.

Fixpoint digit_values (s : string) : list Z :=
  match s with
  | EmptyString => []
  | String c s' => digit_value c :: digit_values s'
  end.

Fixpoint concat_groups (dot : string) (groups : list string) : string :=
  match groups with
  | [] => ""
  | g :: gs => dot +:+ g +:+ concat_groups dot gs
  end.


(** Its integer digits: the groups with the dots deleted. *)
Definition integer_digits (d0 : string) (groups : list string) : string :=
  d0 +:+ concat_groups "" groups.

(** The number the decimal numeral [int.frac] denotes, as a double. *)
Definition decimal_value (int frac : string) : number :=
  of_decimal (digits_value (digit_values (int +:+ frac)))
             (- Z.of_nat (String.length frac)).



(** Two neto rows quoted at 10, with ceiling prices Infinity and 20. *)
Definition infinite_ceiling_sample : string :=
  sheet [ ["Empresa"; "Codigo"];
          ["Acme"; "ACM3"; "Setor"; ""; ""; ""; "10"; ""; ""; ""; ""; ""; ""; ""; "";
           "R$ 10,00"; "Infinity"];
          ["Beta"; "BET4"; "Setor"; ""; ""; ""; "12"; ""; ""; ""; ""; ""; ""; ""; "";
           "R$ 10,00"; "R$ 20,00"] ].

(** A neto sheet whose data row has 30 cells. *)
Definition long_neto_sample : string :=
  sheet [ ["Empresa"; "Codigo"];
          ["Acme"; "ACM3"; "Setor"; "a"; "b"; "c"; "10"; "d"; "e"; "f";
           "g"; "h"; "i"; "j"; "k"; "l"; "m"; "n"; "o"; "p";
           "q"; "r"; "s"; "t"; "u"; "v"; "w"; "x"; "y"; "z"] ].

(** A simplified sheet (header Empresa) whose data row has one cell. *)
Definition short_simplified_sample : string :=
  sheet [ ["Empresa"; "Codigo"]; ["Acme"] ].

(** Non-decreasing in the default sort key. *)
Definition default_sorted (stocks : list StockData) : Prop :=
  StronglySorted (fun a b => leb (default_key a) (default_key b) = true) stocks.

(** Every cell of the row is a string. *)
Definition all_strings (row : list cell) : Prop := Forall (fun c => c <> None) row.

(** The positions of the display row that hold ranks. *)
Definition rank_columns : list nat := [0; 2; 3; 4; 5; 6; 7; 8]%nat.

(* ===================================================================== *)
(** ** Notions of the proofs *)
(* ===================================================================== *)

(** A comparator follows a weight on the elements of a list: it is
    positive exactly when its first argument weighs more. *)
Definition consistent_on {A} (cmp : A -> A -> number) (w : A -> weight) (l : list A) : Prop :=
  forall a b, a ∈ l -> b ∈ l ->
    (gtb (cmp a b) zero = true <-> weight_lt (w b) (w a)).

Definition weight_le {A} (w : A -> weight) (a b : A) : Prop :=
  ~ weight_lt (w b) (w a).

(** A view of the records that only the steps up to metric [m] change. *)
Definition settled_after {V} (m : Metric) (v : StockData -> V) : Prop :=
  (forall m' z s, m' ∈ later m -> v (set_rank (metric_rank m') z s) = v s) /\
  (forall z s, v (set_rank key_rankGeneral z s) = v s) /\
  (forall s, v (sum_ranks s) = v s) /\
  (forall s, v (write_back s) = v s).

Definition prev_rank (m : Metric) (s : StockData) : Z :=
  match previous m with
  | Some p => metric_rank_of p s
  | None => 0
  end.

Definition metric_weight (m : Metric) (s : StockData) : weight :=
  weight_of (metric_order m) (metric_value m s).

Definition metric_view (m : Metric) (s : StockData) : number * Z * Z :=
  (metric_value m s, prev_rank m s, metric_rank_of m s).

Definition general_view (s : StockData) : Z * Z * Z :=
  (rankTotal s, rankDebt s, rankGeneral s).

Definition price_view (s : StockData) : number * number * number :=
  (currentPrice s, fairPrice s, priceDiff s).

Definition sum_view (s : StockData) : list Z * Z :=
  ([rankPL s; rankDeviation s; rankDY s; rankMargin s; rankCAGR s; rankDebt s],
   rankTotal s).

Definition row_view (s : StockData) : (string * cell * cell * cell * list number) * list cell :=
  (core s, raw s).

(** Membership in a list written out, refuted by its elements. *)
Ltac absurd_elem H :=
  exfalso; clear -H;
  repeat (apply elem_of_cons in H as [H|H]; [discriminate|]);
  by apply elem_of_nil in H.

(** Case analysis on the eight bits of a character. *)
Ltac by_char c :=
  destruct c as [[] [] [] [] [] [] [] []]; try discriminate; try reflexivity.

(* ===================================================================== *)
(** ** The application shell ([App.tsx]) *)
(* ===================================================================== *)

(** [row.join(sep)] on a display row: an [undefined] element is printed
    as the empty string. *)
Definition array_join (sep : ascii) (row : list cell) : string :=
  join sep (default "" <$> row).

Module App.

Inductive View : Type := input | dashboard.

(** The five [useState] cells of the component. *)
Record State : Type := mkState {
  data : list StockData;
  headers : list string;
  initialHiddenCols : list nat;
  layoutConfig : option TableLayoutConfig;
  view : View
}.

Definition initial : State :=
  {| data := []; headers := []; initialHiddenCols := [];
     layoutConfig := None; view := input |}.

(** What a handler shows besides setting the state. *)
Inductive Effect : Type :=
| alert (message : string)
| console_error (message : string).

(** [handleProcess]: the state is set from the result, or left alone
    and an alert raised when [processStockData] throws. *)
Definition handleProcess (rawData : string) (mode : Mode) (st : State)
    : Random (State * list Effect) :=
  let* result := processStockData rawData mode in
  match result with
  | Returns (mkResult processed processedHeaders initialHiddenColumns layoutConfig) =>
      ret ({| data := processed;
              headers := processedHeaders;
              initialHiddenCols := initialHiddenColumns;
              layoutConfig := Some layoutConfig;
              view := dashboard |}, [])
  | Throws error =>
      ret (st,
           [alert "Erro ao processar dados. Verifique se o formato corresponde ao modo selecionado.";
            console_error error])
  end.

(** [handleCopy]: the text handed to the clipboard, none when there is
    no record.  (The alert that follows the clipboard's promise is not
    part of the embedding.) *)
Definition handleCopy (st : State) : option string :=
  match data st with
  | [] => None
  | _ =>
      let headerStr := join "009" (headers st) in
      let bodyStr := join "010" ((fun stock => array_join "009" (raw stock)) <$> data st) in
      Some (headerStr +:+ String "010" bodyStr)
  end.

(** [reset]: back to the input view; the headers are left as they are. *)
Definition reset (st : State) : State :=
  {| data := []; headers := headers st; initialHiddenCols := [];
     layoutConfig := None; view := input |}.

(** The two things a user can do to the shell, and a session of them. *)
Inductive Event : Type :=
| Process (rawData : string) (mode : Mode)
| Reset.

Definition step (e : Event) (st : State) : Random State :=
  match e with
  | Process rawData mode =>
      let* next := handleProcess rawData mode st in ret (fst next)
  | Reset => ret (reset st)
  end.

Fixpoint session (events : list Event) (st : State) : Random State :=
  match events with
  | [] => ret st
  | e :: events' => let* st' := step e st in session events' st'
  end.

End App.

(* ===================================================================== *)
(** ** The table ([components/StockTable.tsx]) *)
(* ===================================================================== *)

Module StockTable.

Inductive Direction : Type := asc | desc.

Record SortConfig : Type := mkSortConfig {
  key : nat;
  direction : Direction
}.

(** [a || b] where [a] is a stored width: a missing entry, zero and
    NaN are falsy. *)
Definition number_or (a : option number) (b : number) : number :=
  match a with
  | Some (Fin 0) | Some NaN | None => b
  | Some x => x
  end.

(** The layout effect: [setColWidths(prev => ({...prev, ...newWidths}))]. *)
Definition layout_widths (layoutConfig : option TableLayoutConfig)
    (prev : gmap nat number) : gmap nat number :=
  match layoutConfig with
  | None => prev
  | Some layoutConfig =>
      let newWidths : gmap nat number := ∅ in
      let newWidths :=
        match generalRankIndex layoutConfig with
        | Some i => <[i := of_Z 80]> newWidths      (* rank general *)
        | None => newWidths
        end in
      let newWidths := <[companyIndex layoutConfig := of_Z 220]> newWidths in
      let newWidths := <[tickerIndex layoutConfig := of_Z 100]> newWidths in
      newWidths ∪ prev
  end.

(** Column reordering: the sticky columns first. *)
Definition orderedColumnIndices (headers : list string)
    (layoutConfig : option TableLayoutConfig) : list nat :=
  let indices := seq 0 (length headers) in       (* headers.map((_, i) => i) *)
  match layoutConfig with
  | None => indices
  | Some layoutConfig =>
      let fixedIndices := stickyIndices layoutConfig in
      let otherIndices := filter (fun i => i ∉ fixedIndices) indices in
      fixedIndices ++ otherIndices
  end.

(** The width a sticky column counts for when none is stored. *)
Definition fallback_width (layoutConfig : TableLayoutConfig) (idx : nat) : number :=
  if bool_decide (idx = companyIndex layoutConfig) then of_Z 220
  else if bool_decide (Some idx = generalRankIndex layoutConfig) then of_Z 80
  else of_Z 100.

(** The loop of [getStickyLeft]: the widths of the sticky columns that
    come before [colIndex]. *)
Fixpoint sticky_offset (layoutConfig : TableLayoutConfig) (colWidths : gmap nat number)
    (colIndex : nat) (indices : list nat) (left : number) : number :=
  match indices with
  | [] => left
  | idx :: rest =>
      if bool_decide (idx = colIndex) then left
      else sticky_offset layoutConfig colWidths colIndex rest
             (add left (number_or (colWidths !! idx) (fallback_width layoutConfig idx)))
  end.

Definition getStickyLeft (layoutConfig : option TableLayoutConfig)
    (colWidths : gmap nat number) (colIndex : nat) : number :=
  match layoutConfig with
  | None => zero
  | Some layoutConfig =>
      if bool_decide (colIndex ∈ stickyIndices layoutConfig)
      then sticky_offset layoutConfig colWidths colIndex (stickyIndices layoutConfig) zero
      else zero
  end.

(** The width [getColumnStyles] gives a column. *)
Definition column_width (colWidths : gmap nat number) (i : nat) : number :=
  number_or (colWidths !! i) (of_Z 150).

(** [hay.includes(needle)]. *)
Fixpoint includes (needle hay : string) : bool :=
  startsWith needle hay ||
  match hay with
  | String _ hay' => includes needle hay'
  | EmptyString => false
  end.

(** The filter callback: every filter of the row has to match. *)
Definition row_matches (filters : gmap nat string) (item : StockData) : bool :=
  forallb
    (fun '(colIndex, filterValue) =>
       match filterValue with
       | EmptyString => true
       | _ =>
           let cellValue := toLowerCase (default "" (at_index (raw item) colIndex)) in
           includes (toLowerCase filterValue) cellValue
       end)
    (map_to_list filters).

Section ProcessedData.
(** [String.prototype.localeCompare] is left to the host. *)
Variable localeCompare : string -> string -> number.

(** The comparator of the column sort. *)
Definition compare_rows (sortConfig : SortConfig) (a b : StockData) : number :=
  let valAStr := at_index (raw a) (key sortConfig) in
  let valBStr := at_index (raw b) (key sortConfig) in
  let numA := parseBRNumber valAStr in
  let numB := parseBRNumber valBStr in
  let isNumA := strict_ne numA NInf in
  let isNumB := strict_ne numB NInf in
  if isNumA && isNumB then
    match direction sortConfig with
    | asc => sub numA numB
    | desc => sub numB numA
    end
  else
    let strA := default "" valAStr in
    let strB := default "" valBStr in
    match direction sortConfig with
    | asc => localeCompare strA strB
    | desc => localeCompare strB strA
    end.

(** Filter, then sort. *)
Definition processedData (data : list StockData) (sortConfig : option SortConfig)
    (filters : gmap nat string) : list StockData :=
  let result := data in
  (* 1. apply filters *)
  let result :=
    if (0 <? length (map_to_list filters))%nat
    then filter (fun item => row_matches filters item = true) result
    else result in
  (* 2. apply sorting *)
  match sortConfig with
  | Some sortConfig => array_sort (compare_rows sortConfig) result
  | None => result
  end.
End ProcessedData.

(** A click on a column header. *)
Definition requestSort (resizingCol : option nat) (key' : nat)
    (sortConfig : option SortConfig) : option SortConfig :=
  match resizingCol with
  | Some _ => sortConfig
  | None =>
      let direction' :=
        match sortConfig with
        | Some (mkSortConfig k asc) => if bool_decide (k = key') then desc else asc
        | _ => asc
        end in
      Some {| key := key'; direction := direction' |}
  end.

Definition handleFilterChange (colIndex : nat) (value : string)
    (prev : gmap nat string) : gmap nat string :=
  let newFilters := <[colIndex := value]> prev in
  match value with
  | EmptyString => delete colIndex newFilters
  | _ => newFilters
  end.

Definition clearFilters : gmap nat string := ∅.

(** Hiding and showing a column; a sticky one is left alone. *)
Definition toggleColumnVisibility (layoutConfig : option TableLayoutConfig)
    (index : nat) (prev : gset nat) : gset nat :=
  let sticky :=
    match layoutConfig with
    | Some layoutConfig => bool_decide (index ∈ stickyIndices layoutConfig)
    | None => false
    end in
  if sticky then prev
  else if bool_decide (index ∈ prev) then prev ∖ {[index]}
  else prev ∪ {[index]}.

(** [new Set(initialHiddenColumns)]. *)
Definition initial_hidden (initialHiddenColumns : list nat) : gset nat :=
  list_to_set initialHiddenColumns.

End StockTable.

(* ===================================================================== *)
(** ** The charts ([components/AnalysisCharts.tsx]) *)
(* ===================================================================== *)

Module AnalysisCharts.

Record Bar : Type := mkBar {
  name : cell;
  margin : number;
  price : number
}.

(** The bar of a record: a margin of -100 or less is drawn as 0. *)
Definition bar (d : StockData) : Bar :=
  {| name := ticker d;
     margin := if gtb (marginSafety d) (of_Z (-100)) then marginSafety d else zero;
     price := currentPrice d |}.

(** Top 5 by margin of safety. *)
Definition topMargin (data : list StockData) : list Bar :=
  bar <$> take 5 (array_sort (fun a b => sub (marginSafety b) (marginSafety a)) data).

End AnalysisCharts.

(* ===================================================================== *)
(** ** The assistant's selections ([components/AIInsights.tsx]) *)
(* ===================================================================== *)

Module AIInsights.

(** The records [handleChipAction] hands to the language model. *)
Definition by_rankGeneral (a b : StockData) : number :=
  sub (of_Z (rankGeneral a)) (of_Z (rankGeneral b)).

Definition topStocks (stocks : list StockData) : list StockData :=
  take 7 (array_sort by_rankGeneral stocks).


Definition riskyStocks (stocks : list StockData) : list StockData :=
  take 5 (array_sort (fun a b => sub (debtEbitda b) (debtEbitda a)) stocks).

Definition bestBuys (stocks : list StockData) : list StockData :=
  take 5
    (array_sort by_rankGeneral
       (filter
          (fun s => leb (of_Z (rankGeneral s)) (of_Z 20) && ltb (priceDiff s) zero = true)
          stocks)).

End AIInsights.

(* ===================================================================== *)
(** ** Notions of the properties of the dashboard *)
(* ===================================================================== *)

Global Instance number_eq_dec : EqDecision number.
Proof. solve_decision. Defined.

(** A comparator follows a strict order on the elements of a list: it is
    positive exactly when its second argument comes first. *)
Definition follows_on {A} (cmp : A -> A -> number) (lt : A -> A -> Prop) (l : list A) : Prop :=
  forall a b, a ∈ l -> b ∈ l -> (gtb (cmp a b) zero = true <-> lt b a).

(** Non-decreasing and non-increasing in a numeric field. *)
Definition ascending {A} (f : A -> number) (l : list A) : Prop :=
  StronglySorted (fun a b => leb (f a) (f b) = true) l.

Definition descending {A} (f : A -> number) (l : list A) : Prop :=
  StronglySorted (fun a b => leb (f b) (f a) = true) l.


(** The characters the parser deletes wherever they stand: the currency
    letters, the percent sign, white space and the thousands dot. *)
Definition is_mark (c : ascii) : bool := is_symbol c || Ascii.eqb "." c.

(** A numeral of the sheets: an optional sign, digits in groups, an
    optional decimal part after a comma, an optional percent sign. *)
Definition sheet_numeral (sign : string) (d0 : string) (groups : list string)
    (frac : option string) (pct : bool) : string :=
  sign +:+ d0 +:+ concat_groups "." groups
  +:+ (match frac with Some f => "," +:+ f | None => "" end)
  +:+ (if pct then "%" else "").

(** What holds of the shell between two events. *)
Definition shell_invariant (st : App.State) : Prop :=
  match App.view st with
  | App.dashboard =>
      App.data st <> [] /\
      is_Some (App.layoutConfig st) /\
      Forall (fun s => (length (App.headers st) <= length (raw s))%nat) (App.data st)
  | App.input =>
      App.data st = [] /\ App.layoutConfig st = None
  end.

(** The text has no occurrence of a character. *)
Fixpoint free_of (sep : ascii) (s : string) : bool :=
  match s with
  | EmptyString => true
  | String c s' => negb (Ascii.eqb c sep) && free_of sep s'
  end.

(** A cell that can stand in a pasted sheet: no tab and no line break. *)
Definition plain_cell (s : string) : Prop :=
  free_of "009" s = true /\ free_of "010" s = true.

(** A simplified sheet with a ticker, imported in standard mode, and the
    text copied from its table. *)
Definition linked_sample : string :=
  sheet [ ["Empresa"; "Codigo"]; ["Acme"; "ACM3"] ].

Definition linked_state : App.State :=
  run (App.session [App.Process linked_sample standard] App.initial) half_source.

Definition linked_copy : string := default "" (App.handleCopy linked_state).

(** The number the column sort reads from a cell of a row. *)
Definition cell_number (k : nat) (s : StockData) : number :=
  parseBRNumber (at_index (raw s) k).

(** The sort state after [n] clicks on the header of column [k], from a
    table that is not sorted. *)
Definition clicks_on (k n : nat) : option StockTable.SortConfig :=
  Nat.iter n (StockTable.requestSort None k) None.

Definition order_of (dir : StockTable.Direction) : SortOrder :=
  match dir with StockTable.asc => ASC | StockTable.desc => DESC end.

(** A width that [||] keeps: a number other than zero and NaN. *)
Definition kept_width (w : number) : Prop := w <> NaN /\ w <> zero.

(** The filters after a sequence of edits of the filter inputs. *)
Definition filters_after (edits : list (nat * string)) : gmap nat string :=
  foldl (fun filters '(colIndex, value) => StockTable.handleFilterChange colIndex value filters)
        StockTable.clearFilters edits.

(** The two rows of the sheet with an infinite ceiling price, as a table. *)
Definition table_rows : list StockData :=
  match run (processStockData infinite_ceiling_sample neto) half_source with
  | Returns r => processed r
  | Throws _ => []
  end.

(** A number printed with two decimals (the larger neighbour on a tie),
    a comma and a percent sign, as the parser reads it back: the nearest
    hundredths, and a missing value for the text of NaN. *)
Definition two_decimals (x : number) : number :=
  match x with
  | NaN => NInf
  | PInf => PInf
  | NInf => NInf
  | Fin k =>
      let n := (2 * 100 * Z.abs k + one_ulps) / (2 * one_ulps) in
      of_decimal (if k <? 0 then - n else n) (-2)
  end.

(** Below 10^21 in size, where [toFixed] prints digits and no exponent. *)
Definition below_1e21 (x : number) : bool :=
  match x with
  | Fin k => Z.abs k <? 10 ^ 21 * one_ulps
  | _ => true
  end.

(** A simplified row gets a computed price difference when it has a
    price and a ceiling price, the ceiling not zero. *)
Definition has_prices (s : StockData) : bool :=
  strict_ne (currentPrice s) NInf && strict_ne (fairPrice s) NInf
  && strict_ne (fairPrice s) zero.

(** The text of a price difference in the display row. *)
Definition difference_text (x : number) : string :=
  replace_first "." "," (toFixed2 x) +:+ "%".

(** A simplified sheet quoted at 16,18 with a ceiling price of 22,33. *)
Definition priced_simplified_sample : string :=
  sheet [ ["Empresa"; "Codigo"];
          ["Acme"; "ACM3"; "Setor"; ""; ""; ""; "10"; ""; ""; ""; ""; ""; ""; ""; "";
           "R$ 16,18"; "R$ 22,33"] ].

(* ===================================================================== *)
(** ** Rounding keeps the sign *)
(* ===================================================================== *)

Lemma div_half_even_lower a d : 0 < d -> a / d <= div_half_even a d.
Proof.
  intros Hd. unfold div_half_even.
  destruct (2 * (a mod d) ?= d); [destruct (Z.even (a / d))|..]; lia.
Qed.

Lemma round_pos_positive a d : 0 < d -> d <= a -> 0 < round_pos a d.
Proof.
  intros Hd Ha. unfold round_pos.
  set (q := a / d). set (e := Z.max 0 (Z.log2 q - 52)).
  assert (Hq : 1 <= q) by (apply Z.div_le_lower_bound; lia).
  assert (He0 : 0 <= e) by lia.
  assert (Hlog : 0 <= Z.log2 q) by apply Z.log2_nonneg.
  assert (Hpow : 0 < 2 ^ e) by (apply Z.pow_pos_nonneg; lia).
  assert (Hle : 2 ^ e <= q).
  { transitivity (2 ^ Z.log2 q).
    - apply Z.pow_le_mono_r; lia.
    - apply Z.log2_spec; lia. }
  assert (Hdq : d * q <= a) by (apply Z.mul_div_le; lia).
  assert (1 <= a / (d * 2 ^ e)).
  { apply Z.div_le_lower_bound; [lia|]. nia. }
  pose proof (div_half_even_lower a (d * 2 ^ e) ltac:(lia)).
  nia.
Qed.

Lemma div_half_even_zero d : 0 < d -> div_half_even 0 d = 0.
Proof.
  intros Hd. unfold div_half_even.
  rewrite Z.div_0_l, Zmod_0_l by lia.
  destruct (2 * 0 ?= d) eqn:E; [reflexivity..|].
  apply Z.compare_gt_iff in E. lia.
Qed.

Lemma round_pos_zero d : 0 < d -> round_pos 0 d = 0.
Proof.
  intros Hd. unfold round_pos.
  rewrite div_half_even_zero; [reflexivity|].
  apply Z.mul_pos_pos; [done|]. apply Z.pow_pos_nonneg; lia.
Qed.

(** The sign of a rounded integer is the sign of the integer. *)
Lemma rnd_pos n : 0 < n -> gtb (rnd n 1) zero = true.
Proof.
  intros Hn. unfold rnd.
  pose proof (round_pos_positive (Z.abs n) 1 ltac:(lia) ltac:(lia)) as Hm.
  destruct (overflow_ulps <=? _).
  - destruct (n <? 0) eqn:E; [lia|reflexivity].
  - unfold gtb, ltb, zero. apply Z.ltb_lt. nia.
Qed.

Lemma rnd_nonpos n : n <= 0 -> gtb (rnd n 1) zero = false.
Proof.
  intros Hn. unfold rnd.
  destruct (Z.eq_dec n 0) as [->|Hne].
  - rewrite round_pos_zero by lia. reflexivity.
  - pose proof (round_pos_positive (Z.abs n) 1 ltac:(lia) ltac:(lia)) as Hm.
    destruct (overflow_ulps <=? _).
    + destruct (n <? 0) eqn:E; [reflexivity|lia].
    + unfold gtb, ltb, zero. apply Z.ltb_ge. nia.
Qed.

Lemma rnd_gt_zero n : gtb (rnd n 1) zero = true <-> 0 < n.
Proof.
  split.
  - intros H. destruct (Z_lt_le_dec 0 n) as [|Hle]; [done|].
    rewrite rnd_nonpos in H by done. done.
  - apply rnd_pos.
Qed.

(* ===================================================================== *)
(** ** Sorting *)
(* ===================================================================== *)

Lemma weight_lt_irrefl u : ~ weight_lt u u.
Proof. destruct u; simpl; lia. Qed.

Lemma weight_lt_trans u v t : weight_lt u v -> weight_lt v t -> weight_lt u t.
Proof. destruct u, v, t; simpl; try lia; tauto. Qed.

Lemma weight_lt_asym u v : weight_lt u v -> ~ weight_lt v u.
Proof. destruct u, v; simpl; try lia; tauto. Qed.

Lemma weight_lt_total u v : weight_lt u v \/ u = v \/ weight_lt v u.
Proof.
  destruct u as [a|], v as [b|]; simpl; auto.
  destruct (Z.lt_trichotomy a b) as [?|[->|?]]; auto.
Qed.

Lemma weight_not_lt_trans u v t :
  ~ weight_lt v u -> ~ weight_lt t v -> ~ weight_lt t u.
Proof. destruct u, v, t; simpl; try lia; tauto. Qed.

Section Before.
Context {A : Type}.
Implicit Types (l : list A) (a b : A).

Lemma before_elem_of l a b : before l a b -> a ∈ l /\ b ∈ l.
Proof.
  induction l as [|y l IH]; simpl; [done|].
  intros [[-> Hb]|H].
  - split; [left | by right].
  - destruct (IH H). split; by right.
Qed.

Lemma before_lookup l i j a b :
  (i < j)%nat -> l !! i = Some a -> l !! j = Some b -> before l a b.
Proof.
  revert i j. induction l as [|y l IH]; intros i j Hij Hi Hj; [done|].
  destruct j as [|j]; [lia|]. simpl in Hj.
  destruct i as [|i]; simpl in Hi.
  - left. split; [congruence|]. by eapply list_elem_of_lookup_2.
  - right. apply (IH i j); [lia|done..].
Qed.

Lemma before_lookup_inv l a b :
  before l a b ->
  exists i j, (i < j)%nat /\ l !! i = Some a /\ l !! j = Some b.
Proof.
  induction l as [|y l IH]; simpl; [done|].
  intros [[-> Hb]|H].
  - apply list_elem_of_lookup in Hb as [j Hj].
    exists 0%nat, (S j). split; [lia|done].
  - destruct (IH H) as (i & j & ? & ? & ?).
    exists (S i), (S j). split; [lia|done].
Qed.

Lemma before_fmap {B} (f : A -> B) l a b :
  before l a b -> before (f <$> l) (f a) (f b).
Proof.
  induction l as [|y l IH]; simpl; [done|].
  intros [[-> Hb]|H]; [left|right; auto].
  split; [done|]. by apply list_elem_of_fmap_2.
Qed.

Lemma before_fmap_inv {B} (f : A -> B) l x y :
  before (f <$> l) x y ->
  exists a b, x = f a /\ y = f b /\ before l a b.
Proof.
  induction l as [|c l IH]; simpl; [done|].
  intros [[-> Hb]|H].
  - apply list_elem_of_fmap in Hb as (b & -> & Hb).
    exists c, b. auto.
  - destruct (IH H) as (a & b & -> & -> & ?). exists a, b. auto.
Qed.

Lemma StronglySorted_before (R : relation A) l a b :
  StronglySorted R l -> before l a b -> R a b.
Proof.
  induction 1 as [|y l Hs IH Hall]; simpl; [done|].
  intros [[-> Hb]|H]; [|auto].
  rewrite Forall_forall in Hall. by apply Hall.
Qed.
End Before.

Section SortFacts.
Context {A : Type} (cmp : A -> A -> number).
Implicit Types (l : list A) (a b x : A).

Lemma sort_insert_perm x l : sort_insert cmp x l ≡ₚ x :: l.
Proof.
  induction l as [|y l IH]; cbn [sort_insert]; [done|].
  destruct (gtb (cmp x y) zero); [|done].
  rewrite IH. apply perm_swap.
Qed.

Lemma array_sort_perm l : array_sort cmp l ≡ₚ l.
Proof.
  induction l as [|x l IH]; simpl; [done|].
  rewrite sort_insert_perm. by rewrite IH.
Qed.

Lemma array_sort_length l : length (array_sort cmp l) = length l.
Proof. by rewrite array_sort_perm. Qed.

Lemma array_sort_elem_of l a : a ∈ array_sort cmp l <-> a ∈ l.
Proof. by rewrite array_sort_perm. Qed.

(** Stability: an element overtakes another only when it compares
    strictly smaller. *)
Lemma sort_insert_before x l a b :
  before (sort_insert cmp x l) a b ->
  before (x :: l) a b \/ (b = x /\ a ∈ l /\ gtb (cmp x a) zero = true).
Proof.
  induction l as [|y l IH]; cbn [sort_insert before].
  - intros [[-> Hb]|[]]. by apply elem_of_nil in Hb.
  - destruct (gtb (cmp x y) zero) eqn:E; cbn [before]; [|auto].
    intros [[-> Hb]|H].
    + rewrite sort_insert_perm in Hb.
      apply elem_of_cons in Hb as [->|Hb].
      * right. split; [done|]. split; [left|done].
      * left. right. left. done.
    + destruct (IH H) as [[[-> Hb]|H']|(-> & Ha & Hgt)].
      * left. left. split; [done|]. by right.
      * left. right. by right.
      * right. split; [done|]. split; [by right|done].
Qed.

Lemma array_sort_before l a b :
  before (array_sort cmp l) a b ->
  before l a b \/ gtb (cmp b a) zero = true.
Proof.
  revert a b. induction l as [|x l IH]; intros a b.
  { intros []. }
  change (array_sort cmp (x :: l)) with (sort_insert cmp x (array_sort cmp l)).
  intros H. apply sort_insert_before in H. cbn [before] in *.
  destruct H as [[[-> Hb]|H]|(-> & Ha & Hgt)].
  - left. left. split; [done|]. by rewrite array_sort_elem_of in Hb.
  - destruct (IH _ _ H); auto.
  - by right.
Qed.

(** With a comparator that follows a weight, the result is sorted and
    every class of tied elements keeps its order. *)
Variable w : A -> weight.

Lemma consistent_on_cons x l :
  consistent_on cmp w (x :: l) -> consistent_on cmp w l.
Proof. intros H a b Ha Hb. apply H; by right. Qed.

Lemma sort_insert_sorted x l :
  (forall b, b ∈ l -> (gtb (cmp x b) zero = true <-> weight_lt (w b) (w x))) ->
  StronglySorted (weight_le w) l ->
  StronglySorted (weight_le w) (sort_insert cmp x l).
Proof.
  intros Hx Hs. induction Hs as [|y l Hs IH Hall]; cbn [sort_insert].
  - repeat constructor.
  - destruct (gtb (cmp x y) zero) eqn:E.
    + constructor.
      * apply IH. intros b Hb. apply Hx. by right.
      * rewrite sort_insert_perm. constructor; [|done].
        apply Hx in E; [|left]. by apply weight_lt_asym.
    + assert (Hxy : weight_le w x y).
      { intros Hlt. apply Hx in Hlt; [congruence|left]. }
      constructor; [by constructor|].
      constructor; [done|].
      eapply Forall_impl; [exact Hall|].
      intros z Hyz. unfold weight_le in *.
      eapply weight_not_lt_trans; eauto.
Qed.

Lemma array_sort_sorted l :
  consistent_on cmp w l -> StronglySorted (weight_le w) (array_sort cmp l).
Proof.
  induction l as [|x l IH]; intros Hc; simpl; [constructor|].
  apply sort_insert_sorted.
  - intros b Hb. apply Hc; [left|]. right. by rewrite array_sort_elem_of in Hb.
  - apply IH. by eapply consistent_on_cons.
Qed.

Lemma sort_insert_filter x l (c : weight) :
  (forall b, b ∈ l -> (gtb (cmp x b) zero = true <-> weight_lt (w b) (w x))) ->
  filter (fun a => w a = c) (sort_insert cmp x l) = filter (fun a => w a = c) (x :: l).
Proof.
  induction l as [|y l IH]; intros Hx; cbn [sort_insert]; [done|].
  destruct (gtb (cmp x y) zero) eqn:E; [|done].
  rewrite filter_cons, IH by (intros b Hb; apply Hx; by right).
  rewrite !filter_cons.
  apply Hx in E; [|left].
  destruct (decide (w y = c)) as [Hy|Hy], (decide (w x = c)) as [Hx'|Hx']; try done.
  rewrite Hy, Hx' in E. by apply weight_lt_irrefl in E.
Qed.

Lemma array_sort_filter l (c : weight) :
  consistent_on cmp w l ->
  filter (fun a => w a = c) (array_sort cmp l) = filter (fun a => w a = c) l.
Proof.
  induction l as [|x l IH]; intros Hc; simpl; [done|].
  rewrite sort_insert_filter.
  - rewrite !filter_cons, IH; [done|]. by eapply consistent_on_cons.
  - intros b Hb. apply Hc; [left|]. right. by rewrite array_sort_elem_of in Hb.
Qed.
End SortFacts.

(* ===================================================================== *)
(** ** The comparators follow the weights *)
(* ===================================================================== *)

Lemma sub_Fin x y : sub (Fin x) (Fin y) = rnd (x - y) 1.
Proof. reflexivity. Qed.

Lemma sub_gt_zero x y : gtb (sub (Fin x) (Fin y)) zero = true <-> y < x.
Proof. rewrite sub_Fin, rnd_gt_zero. lia. Qed.

Lemma gtb_PInf_zero : gtb PInf zero = true.
Proof. reflexivity. Qed.

Lemma gtb_NInf_zero : gtb NInf zero = false.
Proof. reflexivity. Qed.

Lemma gtb_NaN_zero : gtb NaN zero = false.
Proof. reflexivity. Qed.

Lemma rank_compare_gt key order a b :
  get key a <> NaN -> get key b <> NaN ->
  gtb (rank_compare key order a b) zero = true <->
  weight_lt (weight_of order (get key b)) (weight_of order (get key a)).
Proof.
  unfold rank_compare. intros Ha Hb.
  destruct (get key a) as [| | |x], (get key b) as [| | |y]; try done;
    destruct order; cbn [safe_value strict_eq orb weight_of weight_lt];
    rewrite ?sub_gt_zero; try lia;
    cbn [sub add opp];
    rewrite ?gtb_PInf_zero, ?gtb_NInf_zero, ?gtb_NaN_zero; intuition discriminate.
Qed.

Lemma default_key_weight s :
  weight_of ASC (default_key s) = weight_of ASC (priceDiff s).
Proof. unfold default_key. by destruct (priceDiff s). Qed.


(* ===================================================================== *)
(** ** One ranking step *)
(* ===================================================================== *)

Lemma rank_of_set_rank t z s : rank_of t (set_rank t z s) = z.
Proof. by destruct s, t. Qed.

Lemma rank_of_set_rank_ne t t' z s :
  t <> t' -> rank_of t' (set_rank t z s) = rank_of t' s.
Proof. by destruct s, t, t'. Qed.

Lemma get_set_rank key t z s : get key (set_rank t z s) = get key s.
Proof. by destruct s, key, t. Qed.

Lemma core_set_rank t z s : core (set_rank t z s) = core s.
Proof. by destruct s, t. Qed.

Section ApplyRank.
Variables (key : NumericKey) (t : RankKey) (order : SortOrder).
Variable l : list StockData.

Local Abbreviation sorted := (array_sort (rank_compare key order) l).
Local Abbreviation out := (applyRank key t order l).
Local Abbreviation w := (fun s => weight_of order (get key s)).

Lemma applyRank_lookup i A :
  out !! i = Some A <->
  exists a, sorted !! i = Some a /\ A = set_rank t (Z.of_nat i + 1) a.
Proof.
  unfold out, applyRank. rewrite list_lookup_imap_Some.
  split; intros (a & ? & ?); exists a; done.
Qed.

Lemma applyRank_length : length out = length l.
Proof. unfold out, applyRank. by rewrite length_imap, array_sort_length. Qed.

Lemma applyRank_rank_lookup i A :
  out !! i = Some A -> rank_of t A = Z.of_nat i + 1.
Proof.
  intros (a & _ & ->)%applyRank_lookup. apply rank_of_set_rank.
Qed.

Lemma applyRank_ranks : rank_of t <$> out = ranks_upto (length l).
Proof.
  apply list_eq. intros i. unfold ranks_upto.
  rewrite list_lookup_fmap.
  destruct (out !! i) as [A|] eqn:E; simpl.
  - rewrite (applyRank_rank_lookup i A E).
    symmetry. apply lookup_seqZ. split; [lia|].
    apply lookup_lt_Some in E. rewrite applyRank_length in E. lia.
  - symmetry. apply lookup_seqZ_ge.
    apply lookup_ge_None in E. rewrite applyRank_length in E. lia.
Qed.

Lemma applyRank_before A B : before out A B -> rank_of t A < rank_of t B.
Proof.
  intros (i & j & Hij & Hi & Hj)%before_lookup_inv.
  rewrite (applyRank_rank_lookup i A Hi), (applyRank_rank_lookup j B Hj). lia.
Qed.

Lemma applyRank_view_sorted {V} (v : StockData -> V) :
  (forall z s, v (set_rank t z s) = v s) -> v <$> out = v <$> sorted.
Proof.
  intros Hv. unfold out, applyRank. rewrite fmap_imap.
  rewrite <- imap_const. apply imap_ext. intros i x _. apply Hv.
Qed.

Lemma applyRank_view {V} (v : StockData -> V) :
  (forall z s, v (set_rank t z s) = v s) -> v <$> out ≡ₚ v <$> l.
Proof.
  intros Hv. rewrite applyRank_view_sorted by done.
  apply fmap_Permutation, array_sort_perm.
Qed.

Hypothesis Hdef : Forall (fun s => get key s <> NaN) l.

Lemma applyRank_consistent : consistent_on (rank_compare key order) w l.
Proof.
  intros a b Ha Hb. rewrite Forall_forall in Hdef.
  apply rank_compare_gt; auto.
Qed.

Lemma applyRank_directed A B :
  A ∈ out -> B ∈ out -> weight_lt (w A) (w B) -> rank_of t A < rank_of t B.
Proof.
  intros [i Hi]%list_elem_of_lookup [j Hj]%list_elem_of_lookup Hlt.
  rewrite (applyRank_rank_lookup i A Hi), (applyRank_rank_lookup j B Hj).
  apply applyRank_lookup in Hi as (a & Ha & ->).
  apply applyRank_lookup in Hj as (b & Hb & ->).
  cbn beta in Hlt. rewrite !get_set_rank in Hlt.
  destruct (Nat.lt_trichotomy i j) as [?|[->|Hji]]; [lia|..].
  - assert (a = b) as -> by congruence. by apply weight_lt_irrefl in Hlt.
  - pose proof (before_lookup _ _ _ _ _ Hji Hb Ha) as Hbef.
    pose proof (array_sort_sorted _ w l applyRank_consistent) as Hs.
    pose proof (StronglySorted_before _ _ _ _ Hs Hbef) as Hle.
    by destruct Hle.
Qed.

Lemma applyRank_tiebreak (prev : StockData -> Z) A B :
  (forall z s, prev (set_rank t z s) = prev s) ->
  (forall a b, before l a b -> prev a < prev b) ->
  A ∈ out -> B ∈ out ->
  ~ weight_lt (w B) (w A) -> prev A < prev B -> rank_of t A < rank_of t B.
Proof.
  intros Hprev Hinc [i Hi]%list_elem_of_lookup [j Hj]%list_elem_of_lookup Hle Hp.
  rewrite (applyRank_rank_lookup i A Hi), (applyRank_rank_lookup j B Hj).
  apply applyRank_lookup in Hi as (a & Ha & ->).
  apply applyRank_lookup in Hj as (b & Hb & ->).
  cbn beta in Hle. rewrite !get_set_rank in Hle. rewrite !Hprev in Hp.
  destruct (Nat.lt_trichotomy i j) as [?|[->|Hji]]; [lia|..].
  - assert (a = b) as -> by congruence. lia.
  - pose proof (before_lookup _ _ _ _ _ Hji Hb Ha) as Hbef.
    apply array_sort_before in Hbef as [Hbef|Hgt].
    + apply Hinc in Hbef. lia.
    + apply applyRank_consistent in Hgt.
      * done.
      * apply (array_sort_elem_of (rank_compare key order)). by eapply list_elem_of_lookup_2.
      * apply (array_sort_elem_of (rank_compare key order)). by eapply list_elem_of_lookup_2.
Qed.

(** Every class of tied records keeps the order it had in [l]. *)
Lemma applyRank_stable (c : weight) :
  filter (fun v => weight_of order (get key v) = c) sorted
  = filter (fun v => weight_of order (get key v) = c) l.
Proof. apply (array_sort_filter _ w), applyRank_consistent. Qed.
End ApplyRank.

(* ===================================================================== *)
(** ** What later steps leave untouched *)
(* ===================================================================== *)

(** *** Views: what a later step leaves untouched *)

Lemma view_elem_of {V} (v : StockData -> V) l l' A :
  v <$> l ≡ₚ v <$> l' -> A ∈ l -> exists A', A' ∈ l' /\ v A' = v A.
Proof.
  intros Hp HA.
  assert (Hin : v A ∈ v <$> l') by (rewrite <- Hp; by apply list_elem_of_fmap_2).
  apply list_elem_of_fmap in Hin as (A' & ? & ?). eauto.
Qed.

Lemma view_Forall {V} (v : StockData -> V) (P : V -> Prop) l l' :
  v <$> l ≡ₚ v <$> l' -> Forall (fun s => P (v s)) l' -> Forall (fun s => P (v s)) l.
Proof.
  intros Hp Hl. rewrite Forall_forall in *. intros A HA.
  destruct (view_elem_of v l l' A Hp HA) as (A' & HA' & <-). auto.
Qed.

Lemma rank_metric_view {V} (v : StockData -> V) m l :
  (forall z s, v (set_rank (metric_rank m) z s) = v s) ->
  v <$> rank_metric m l ≡ₚ v <$> l.
Proof. apply applyRank_view. Qed.

Lemma rank_metrics_view {V} (v : StockData -> V) ms l :
  (forall m z s, m ∈ ms -> v (set_rank (metric_rank m) z s) = v s) ->
  v <$> rank_metrics ms l ≡ₚ v <$> l.
Proof.
  revert l. induction ms as [|m ms IH]; intros l Hv; [done|].
  cbn [rank_metrics foldl]. fold (rank_metrics ms (rank_metric m l)).
  rewrite IH by (intros; apply Hv; by right).
  apply rank_metric_view. intros. apply Hv. left.
Qed.

Lemma rank_general_view {V} (v : StockData -> V) l :
  (forall z s, v (set_rank key_rankGeneral z s) = v s) ->
  (forall s, v (sum_ranks s) = v s) ->
  v <$> rank_general l ≡ₚ v <$> l.
Proof.
  intros Hg Hs. unfold rank_general. rewrite applyRank_view by done.
  rewrite <- list_fmap_compose. by erewrite list_fmap_ext; [|intros; apply Hs].
Qed.

Lemma write_back_all_view {V} (v : StockData -> V) l :
  (forall s, v (write_back s) = v s) -> v <$> write_back_all l = v <$> l.
Proof.
  intros Hw. unfold write_back_all. destruct l as [|first l]; [done|].
  destruct (9 <=? _)%nat; [|done].
  rewrite <- list_fmap_compose. apply list_fmap_ext. intros; apply Hw.
Qed.

Lemma calculateRanks_steps l :
  calculateRanks l
  = array_sort default_compare
      (write_back_all (rank_general (rank_metrics ranking_order l))).
Proof. reflexivity. Qed.

Lemma ranking_order_split m : ranking_order = earlier m ++ m :: later m.
Proof. by destruct m. Qed.

Lemma rank_metrics_app ms1 ms2 l :
  rank_metrics (ms1 ++ ms2) l = rank_metrics ms2 (rank_metrics ms1 l).
Proof. apply foldl_app. Qed.

Lemma earlier_previous m p : previous m = Some p -> earlier m = earlier p ++ [p].
Proof. destruct m; intros [= <-]; reflexivity. Qed.

Lemma calculateRanks_view {V} (v : StockData -> V) m l :
  settled_after m v ->
  v <$> calculateRanks l ≡ₚ v <$> rank_metrics (earlier m ++ [m]) l.
Proof.
  intros (Hl & Hg & Hs & Hw).
  rewrite calculateRanks_steps, array_sort_perm.
  rewrite write_back_all_view, rank_general_view by done.
  rewrite (ranking_order_split m), (cons_middle m), app_assoc, rank_metrics_app.
  by apply rank_metrics_view.
Qed.

Lemma calculateRanks_view_general {V} (v : StockData -> V) l :
  (forall s, v (write_back s) = v s) ->
  v <$> calculateRanks l ≡ₚ v <$> rank_general (rank_metrics ranking_order l).
Proof.
  intros Hw. rewrite calculateRanks_steps, array_sort_perm.
  by rewrite write_back_all_view.
Qed.

Lemma calculateRanks_view_all {V} (v : StockData -> V) l :
  (forall t z s, v (set_rank t z s) = v s) ->
  (forall s, v (sum_ranks s) = v s) ->
  (forall s, v (write_back s) = v s) ->
  v <$> calculateRanks l ≡ₚ v <$> l.
Proof.
  intros Ht Hs Hw. rewrite calculateRanks_view_general by done.
  rewrite rank_general_view by done.
  apply rank_metrics_view. intros; apply Ht.
Qed.

Lemma calculateRanks_length l : length (calculateRanks l) = length l.
Proof.
  pose proof (calculateRanks_view_all (fun _ => tt) l) as H.
  apply Permutation_length in H; [|done..].
  by rewrite !length_fmap in H.
Qed.

(* ===================================================================== *)
(** ** The six metric rankings *)
(* ===================================================================== *)

Lemma write_back_fields s :
  core (write_back s) = core s /\
  (forall t, rank_of t (write_back s) = rank_of t s) /\
  rankTotal (write_back s) = rankTotal s.
Proof.
  unfold write_back. destruct (30 <=? _)%nat; [|done].
  destruct s. repeat split.
Qed.

Lemma sum_ranks_fields s :
  core (sum_ranks s) = core s /\
  (forall t, rank_of t (sum_ranks s) = rank_of t s) /\
  raw (sum_ranks s) = raw s.
Proof. destruct s. repeat split. Qed.

Lemma get_sum_ranks m s : metric_value m (sum_ranks s) = metric_value m s.
Proof. by destruct s, m. Qed.

Lemma get_write_back key s : get key (write_back s) = get key s.
Proof.
  unfold write_back. destruct (30 <=? _)%nat; [|done]. by destruct s, key.
Qed.

Lemma metric_view_settled m : settled_after m (metric_view m).
Proof.
  unfold settled_after, metric_view, prev_rank, metric_value, metric_rank_of.
  repeat split.
  - intros m' z s H. rewrite get_set_rank.
    destruct m, m'; try absurd_elem H; by destruct s.
  - intros z s. rewrite get_set_rank. destruct m; by destruct s.
  - intros s. pose proof (get_sum_ranks m s) as Hg. unfold metric_value in Hg.
    rewrite Hg. destruct (sum_ranks_fields s) as (_ & Hr & _).
    rewrite Hr. by destruct (previous m); rewrite ?Hr.
  - intros s. rewrite get_write_back. destruct (write_back_fields s) as (_ & Hr & _).
    rewrite Hr. by destruct (previous m); rewrite ?Hr.
Qed.

Lemma metrics_defined_input m ms l :
  Forall metrics_defined l ->
  Forall (fun s => get (metric_key m) s <> NaN) (rank_metrics ms l).
Proof.
  intros Hl.
  apply (view_Forall (get (metric_key m)) (fun x => x <> NaN) _ l).
  - apply rank_metrics_view. intros. apply get_set_rank.
  - eapply Forall_impl; [exact Hl|]. intros s Hs. apply Hs.
Qed.

Lemma rank_metrics_length ms l : length (rank_metrics ms l) = length l.
Proof.
  pose proof (rank_metrics_view (fun _ => tt) ms l ltac:(done)) as H.
  apply Permutation_length in H. by rewrite !length_fmap in H.
Qed.

Lemma rank_metrics_snoc ms m l :
  rank_metrics (ms ++ [m]) l = rank_metric m (rank_metrics ms l).
Proof. by rewrite rank_metrics_app. Qed.

Lemma previous_rank_ne m p : previous m = Some p -> metric_rank m <> metric_rank p.
Proof. destruct m; intros [= <-]; discriminate. Qed.

(** What [calculateRanks] guarantees for each of the six metrics. *)
Lemma calculateRanks_metric m l :
  Forall metrics_defined l ->
  metric_rank_of m <$> calculateRanks l ≡ₚ ranks_upto (length l) /\
  (forall A B, A ∈ calculateRanks l -> B ∈ calculateRanks l ->
     weight_lt (metric_weight m A) (metric_weight m B) ->
     metric_rank_of m A < metric_rank_of m B) /\
  (forall p A B, previous m = Some p ->
     A ∈ calculateRanks l -> B ∈ calculateRanks l ->
     ~ weight_lt (metric_weight m B) (metric_weight m A) ->
     metric_rank_of p A < metric_rank_of p B ->
     metric_rank_of m A < metric_rank_of m B).
Proof.
  intros Hl.
  pose proof (calculateRanks_view (metric_view m) m l (metric_view_settled m)) as Hview.
  rewrite rank_metrics_snoc in Hview.
  set (l_in := rank_metrics (earlier m) l) in *.
  assert (Hdef : Forall (fun s => get (metric_key m) s <> NaN) l_in)
    by by apply metrics_defined_input.
  split; [|split].
  - assert (Hr : metric_rank_of m <$> calculateRanks l
                 ≡ₚ metric_rank_of m <$> rank_metric m l_in).
    { apply (fmap_Permutation snd) in Hview.
      by rewrite <- !list_fmap_compose in Hview. }
    rewrite Hr. unfold rank_metric, metric_rank_of.
    rewrite applyRank_ranks. unfold l_in. by rewrite rank_metrics_length.
  - intros A B HA HB Hlt.
    destruct (view_elem_of _ _ _ A Hview HA) as (A' & HA' & EA).
    destruct (view_elem_of _ _ _ B Hview HB) as (B' & HB' & EB).
    injection EA as EA1 EA2 EA3. injection EB as EB1 EB2 EB3.
    unfold metric_weight in Hlt. rewrite <- EA1, <- EB1 in Hlt.
    rewrite <- EA3, <- EB3.
    by apply (applyRank_directed (metric_key m) (metric_rank m) (metric_order m) l_in Hdef).
  - intros p A B Hp HA HB Hle Hprev.
    destruct (view_elem_of _ _ _ A Hview HA) as (A' & HA' & EA).
    destruct (view_elem_of _ _ _ B Hview HB) as (B' & HB' & EB).
    injection EA as EA1 EA2 EA3. injection EB as EB1 EB2 EB3.
    unfold prev_rank in EA2, EB2. rewrite Hp in EA2, EB2.
    unfold metric_weight in Hle. rewrite <- EA1, <- EB1 in Hle.
    rewrite <- EA2, <- EB2 in Hprev. rewrite <- EA3, <- EB3.
    apply (applyRank_tiebreak (metric_key m) (metric_rank m) (metric_order m) l_in Hdef (metric_rank_of p)); try done.
    + intros z s. apply rank_of_set_rank_ne. by apply previous_rank_ne.
    + intros a b. unfold l_in. rewrite (earlier_previous m p Hp), rank_metrics_snoc.
      apply applyRank_before.
Qed.

(* ===================================================================== *)
(** ** The general rank, the first ranking and the default order *)
(* ===================================================================== *)

Lemma rnd_not_NaN n d : rnd n d <> NaN.
Proof. unfold rnd. destruct (_ <=? _); [destruct (_ <? _)|]; done. Qed.

Lemma of_decimal_not_NaN m e : of_decimal m e <> NaN.
Proof. unfold of_decimal. destruct (_ <=? _); apply rnd_not_NaN. Qed.

Lemma of_Z_not_NaN n : of_Z n <> NaN.
Proof. apply of_decimal_not_NaN. Qed.

(** The general rank: a permutation, ties of the total broken by the
    order the debt ranking left. *)
Lemma calculateRanks_general l :
  rankGeneral <$> calculateRanks l ≡ₚ ranks_upto (length l) /\
  (forall A B, A ∈ calculateRanks l -> B ∈ calculateRanks l ->
     rankTotal A = rankTotal B -> rankDebt A < rankDebt B ->
     rankGeneral A < rankGeneral B).
Proof.
  assert (Hview : general_view <$> calculateRanks l
                  ≡ₚ general_view <$> rank_general (rank_metrics ranking_order l)).
  { apply calculateRanks_view_general. intros s. unfold general_view.
    destruct (write_back_fields s) as (_ & Hr & ->).
    pose proof (Hr key_rankDebt) as H1. pose proof (Hr key_rankGeneral) as H2.
    cbn [rank_of] in H1, H2. by rewrite H1, H2. }
  unfold rank_general in Hview.
  set (l_in := sum_ranks <$> rank_metrics ranking_order l) in *.
  assert (Hdef : Forall (fun s => get key_rankTotal s <> NaN) l_in).
  { apply Forall_forall. intros s _. apply of_Z_not_NaN. }
  split.
  - assert (Hr : rankGeneral <$> calculateRanks l
                 ≡ₚ rank_of key_rankGeneral <$> applyRank key_rankTotal key_rankGeneral ASC l_in).
    { apply (fmap_Permutation snd) in Hview.
      by rewrite <- !list_fmap_compose in Hview. }
    rewrite Hr, applyRank_ranks. unfold l_in.
    by rewrite length_fmap, rank_metrics_length.
  - intros A B HA HB Htot Hdebt.
    destruct (view_elem_of _ _ _ A Hview HA) as (A' & HA' & EA).
    destruct (view_elem_of _ _ _ B Hview HB) as (B' & HB' & EB).
    injection EA as EA1 EA2 EA3. injection EB as EB1 EB2 EB3.
    rewrite <- EA3, <- EB3.
    apply (applyRank_tiebreak key_rankTotal key_rankGeneral ASC l_in Hdef rankDebt);
      try done.
    + intros z s. by destruct s.
    + intros a b (a0 & b0 & -> & -> & Hbef)%before_fmap_inv.
      destruct (sum_ranks_fields a0) as (_ & Ha & _).
      destruct (sum_ranks_fields b0) as (_ & Hb & _).
      specialize (Ha key_rankDebt). specialize (Hb key_rankDebt).
      cbn [rank_of] in Ha, Hb. rewrite Ha, Hb.
      revert Hbef. change ranking_order with (earlier Debt ++ [Debt]).
      rewrite rank_metrics_snoc. apply (applyRank_before _ key_rankDebt).
    + cbn [get]. rewrite EA1, EB1, Htot. apply weight_lt_irrefl.
    + lia.
Qed.

Lemma filter_core (P : StockData -> Prop) `{!forall s, Decision (P s)}
    (l1 l2 : list StockData) :
  (forall s s', core s = core s' -> P s -> P s') ->
  core <$> l1 = core <$> l2 ->
  core <$> filter P l1 = core <$> filter P l2.
Proof.
  intros HP. revert l2. induction l1 as [|a l1 IH]; intros [|b l2] E; try done.
  assert (Eab : core a = core b).
  { apply (f_equal head) in E. cbn [head fmap list_fmap] in E. congruence. }
  apply (f_equal tail) in E. cbn [tail fmap list_fmap] in E.
  rewrite !filter_cons.
  destruct (decide (P a)) as [Ha|Ha], (decide (P b)) as [Hb|Hb].
  - cbn. by rewrite Eab, (IH l2).
  - destruct Hb. eauto.
  - destruct Ha. eauto.
  - by apply IH.
Qed.

(** The first ranking: the records in the order of [rankPL] are the
    input array stably sorted, each class of tied records in the order
    of the input. *)
Lemma calculateRanks_first_stable l :
  Forall metrics_defined l ->
  exists l1,
    l1 ≡ₚ calculateRanks l /\
    rankPL <$> l1 = ranks_upto (length l) /\
    forall c : weight,
      core <$> filter (fun s => metric_weight PL s = c) l1
      = core <$> filter (fun s => metric_weight PL s = c) l.
Proof.
  intros Hl.
  set (v := fun s => (core s, rankPL s)).
  assert (Hs : settled_after PL v).
  { unfold v. repeat split.
    - intros m' z s H. rewrite core_set_rank.
      destruct m'; try absurd_elem H; by destruct s.
    - intros z s. rewrite core_set_rank. by destruct s.
    - intros s. by destruct s.
    - intros s. destruct (write_back_fields s) as (-> & Hr & _).
      pose proof (Hr key_rankPL) as H1. cbn [rank_of] in H1. by rewrite H1. }
  pose proof (calculateRanks_view v PL l Hs) as Hview.
  change (rank_metrics (earlier PL ++ [PL]) l) with (rank_metric PL l) in Hview.
  symmetry in Hview.
  apply Permutation_map_inv in Hview as (l1 & E & Hp).
  exists l1. split; [by symmetry|].
  assert (Hdef : Forall (fun s => get key_plProjected s <> NaN) l).
  { eapply Forall_impl; [exact Hl|]. intros s Hs'. apply (Hs' PL). }
  split.
  - transitivity (snd <$> (v <$> l1)); [by rewrite <- list_fmap_compose|].
    change (v <$> l1) with (map v l1). rewrite <- E.
    rewrite <- list_fmap_compose.
    apply (applyRank_ranks key_plProjected key_rankPL ASC l).
  - intros c.
    pose proof (applyRank_stable key_plProjected ASC l Hdef c) as Hst.
    change (filter (fun s => metric_weight PL s = c)
              (array_sort (rank_compare key_plProjected ASC) l)
            = filter (fun s => metric_weight PL s = c) l) in Hst.
    rewrite <- Hst.
    apply filter_core.
    + intros s s' Ecore. unfold metric_weight, metric_value. cbn [get metric_key].
      unfold core in Ecore. by injection Ecore as _ _ _ _ ->.
    + transitivity (fst <$> (v <$> l1)); [by rewrite <- list_fmap_compose|].
      change (v <$> l1) with (map v l1). rewrite <- E.
      rewrite <- list_fmap_compose.
      apply (applyRank_view_sorted key_plProjected key_rankPL ASC l core).
      intros. apply core_set_rank.
Qed.

Lemma StronglySorted_Forall_impl {A} (R R' : relation A) (P : A -> Prop) l :
  (forall a b, P a -> P b -> R a b -> R' a b) ->
  Forall P l -> StronglySorted R l -> StronglySorted R' l.
Proof.
  intros HR HP Hs. induction Hs as [|a l Hs IH Hall]; [constructor|].
  apply Forall_cons in HP as [Ha HP].
  constructor; [auto|].
  rewrite Forall_forall in *. intros b Hb. apply HR; auto.
Qed.



(* ===================================================================== *)
(** ** From the text to the ranked records *)
(* ===================================================================== *)

Lemma parseBRNumber_not_NaN str : parseBRNumber str <> NaN.
Proof.
  unfold parseBRNumber. destruct str as [[|c s]|]; try done.
  by destruct (parseFloat _).
Qed.

Lemma run_bind {A B} (m : Random A) (f : A -> Random B) g :
  run (bind m f) g = run (f (run m g)) (snd (m g)).
Proof. unfold run, bind. by destruct (m g). Qed.

Lemma run_ret {A} (a : A) g : run (ret a) g = a.
Proof. reflexivity. Qed.

Lemma array_mapM_cons {A B} (f : A -> Random B) a l g :
  run (array_mapM f (a :: l)) g
  = run (f a) g :: run (array_mapM f l) (snd (f a g)).
Proof.
  cbn [array_mapM]. rewrite run_bind, run_bind. reflexivity.
Qed.

Lemma array_mapM_Forall {A B} (f : A -> Random B) (P : B -> Prop) l g :
  (forall a g', a ∈ l -> P (run (f a) g')) -> Forall P (run (array_mapM f l) g).
Proof.
  revert g. induction l as [|a l IH]; intros g HP.
  - constructor.
  - rewrite array_mapM_cons. constructor.
    + apply HP. left.
    + apply IH. intros. apply HP. by right.
Qed.

Lemma array_mapM_length {A B} (f : A -> Random B) l g :
  length (run (array_mapM f l) g) = length l.
Proof.
  revert g. induction l as [|a l IH]; intros g; [done|].
  rewrite array_mapM_cons. cbn. by rewrite IH.
Qed.


Lemma neto_stock_run row g :
  exists i, run (neto_stock row) g =
    let safeRow := pad_row (length NETO_INVEST_HEADERS) row in
    {| id := i; raw := safeRow;
       ticker := at_index safeRow 1; company := at_index safeRow 0;
       sector := at_index safeRow 2;
       plProjected := parseBRNumber (at_index safeRow 6);
       plDeviation := parseBRNumber (at_index safeRow 8);
       dy := parseBRNumber (at_index safeRow 14);
       marginSafety := parseBRNumber (at_index safeRow 17);
       cagr := parseBRNumber (at_index safeRow 9);
       debtEbitda := parseBRNumber (at_index safeRow 10);
       currentPrice := parseBRNumber (at_index safeRow 15);
       fairPrice := parseBRNumber (at_index safeRow 16);
       priceDiff := zero;
       rankPL := 0; rankDeviation := 0; rankDY := 0; rankMargin := 0;
       rankCAGR := 0; rankDebt := 0; rankTotal := 0; rankGeneral := 0 |}.
Proof.
  unfold neto_stock. eexists. rewrite run_bind. reflexivity.
Qed.

Lemma standard_stock_run row g :
  exists i, run (standard_stock row) g =
    let safeRow := pad_row (length STANDARD_HEADERS) row in
    {| id := i; raw := safeRow;
       ticker := at_index safeRow 10; company := at_index safeRow 9;
       sector := at_index safeRow 11;
       plProjected := parseBRNumber (at_index safeRow 15);
       plDeviation := parseBRNumber (at_index safeRow 17);
       dy := parseBRNumber (at_index safeRow 23);
       marginSafety := parseBRNumber (at_index safeRow 26);
       cagr := parseBRNumber (at_index safeRow 18);
       debtEbitda := parseBRNumber (at_index safeRow 19);
       currentPrice := parseBRNumber (at_index safeRow 24);
       fairPrice := parseBRNumber (at_index safeRow 25);
       priceDiff := parseBRNumber (at_index safeRow 28);
       rankPL := 0; rankDeviation := 0; rankDY := 0; rankMargin := 0;
       rankCAGR := 0; rankDebt := 0; rankTotal := 0; rankGeneral := 0 |}.
Proof.
  unfold standard_stock. eexists. rewrite run_bind. reflexivity.
Qed.

Lemma neto_priceDiff_metric m s :
  metric_value m (neto_priceDiff s) = metric_value m s.
Proof.
  unfold neto_priceDiff. destruct (_ && _); [|done]. by destruct s, m.
Qed.

Lemma neto_stock_defined row g : metrics_defined (run (neto_stock row) g).
Proof.
  destruct (neto_stock_run row g) as [i ->].
  intros m. destruct m; apply parseBRNumber_not_NaN.
Qed.

Lemma standard_stock_defined row g : metrics_defined (run (standard_stock row) g).
Proof.
  destruct (standard_stock_run row g) as [i ->].
  intros m. destruct m; apply parseBRNumber_not_NaN.
Qed.

Lemma neto_stocks_run rows g :
  run (neto_stocks rows) g = neto_priceDiff <$> run (array_mapM neto_stock (tail rows)) g.
Proof. unfold neto_stocks. by rewrite run_bind. Qed.

Lemma stocks_before_ranking_defined rawData mode g :
  Forall metrics_defined (run (stocks_before_ranking rawData mode) g).
Proof.
  destruct mode; cbn [stocks_before_ranking].
  - apply array_mapM_Forall. intros. apply standard_stock_defined.
  - rewrite neto_stocks_run. apply Forall_fmap.
    apply array_mapM_Forall. intros a g' _ m. cbn.
    rewrite neto_priceDiff_metric. apply neto_stock_defined.
Qed.

Lemma standard_rows_length rows : length (standard_rows rows) = length (tail rows).
Proof.
  unfold standard_rows. destruct (is_simplified _); [|done]. by rewrite length_fmap.
Qed.

Lemma tail_length {A} (l : list A) : length (tail l) = (length l - 1)%nat.
Proof. destruct l; cbn; lia. Qed.

Lemma stocks_before_ranking_length rawData mode g :
  length (run (stocks_before_ranking rawData mode) g)
  = (length (split_rows rawData) - 1)%nat.
Proof.
  destruct mode; cbn [stocks_before_ranking].
  - unfold standard_stocks. rewrite array_mapM_length, standard_rows_length.
    by rewrite tail_length.
  - rewrite neto_stocks_run, length_fmap, array_mapM_length. by rewrite tail_length.
Qed.

(** A call either throws, on fewer than two rows, or returns the ranked
    records with the headers and layout of the mode. *)
Lemma processStockData_run rawData mode g :
  run (processStockData rawData mode) g =
  if (length (split_rows rawData) <? 2)%nat then Throws "Dados insuficientes."
  else Returns {|
    processed := calculateRanks (run (stocks_before_ranking rawData mode) g);
    headers := match mode with neto => NETO_INVEST_HEADERS | standard => STANDARD_HEADERS end;
    initialHiddenColumns :=
      match mode with
      | neto => []
      | standard =>
          if is_simplified (default [] (head (split_rows rawData))) then [1; 27]%nat else []
      end;
    layoutConfig :=
      match mode with
      | neto => {| stickyIndices := [0; 1]%nat; companyIndex := 0; tickerIndex := 1;
                   statusIndex := None; generalRankIndex := None |}
      | standard => {| stickyIndices := [0; 9; 10]%nat; generalRankIndex := Some 0%nat;
                       statusIndex := Some 1%nat; companyIndex := 9; tickerIndex := 10 |}
      end |}.
Proof.
  unfold processStockData. destruct (_ <? _)%nat; [done|].
  destruct mode; rewrite run_bind; reflexivity.
Qed.

Lemma processStockData_returns rawData mode g r :
  run (processStockData rawData mode) g = Returns r ->
  (2 <= length (split_rows rawData))%nat /\
  processed r = calculateRanks (run (stocks_before_ranking rawData mode) g).
Proof.
  rewrite processStockData_run.
  destruct (_ <? _)%nat eqn:E; [done|]. intros [= <-].
  apply Nat.ltb_ge in E. done.
Qed.

(* ===================================================================== *)
(** ** Rank permutation, direction and missing values *)
(* ===================================================================== *)

Lemma tie_weight order a b : tie a b -> weight_of order a = weight_of order b.
Proof. destruct a, b; cbn; try done. by intros ->. Qed.

Lemma better_weight order a b :
  is_finite a = true -> is_finite b = true -> better order a b = true ->
  weight_lt (weight_of order a) (weight_of order b).
Proof.
  destruct a as [| | |x], b as [| | |y]; try done. intros _ _.
  destruct order; cbn; unfold gtb, ltb; intros H%Z.ltb_lt; lia.
Qed.

Lemma missing_weight order a b :
  is_infinite a = true -> is_finite b = true ->
  weight_lt (weight_of order b) (weight_of order a).
Proof. by destruct a, b. Qed.

(** C1. Every call that returns gives one record per data row, N >= 1 of
    them, with each of the six metric ranks and the general rank a
    permutation of 1..N, and ties follow the array order before the sort:
    the rank of the metric ranked just before (the debt rank for the
    general rank), and for the first metric the order of the data rows,
    class by class of tied records. *)
Theorem C1_ranks_are_permutations rawData mode g r :
  run (processStockData rawData mode) g = Returns r ->
  let N := length (processed r) in
  (1 <= N)%nat /\ S N = length (split_rows rawData) /\
  (forall m, metric_rank_of m <$> processed r ≡ₚ ranks_upto N) /\
  rankGeneral <$> processed r ≡ₚ ranks_upto N /\
  (forall m p A B,
     previous m = Some p -> A ∈ processed r -> B ∈ processed r ->
     tie (metric_value m A) (metric_value m B) ->
     metric_rank_of p A < metric_rank_of p B ->
     metric_rank_of m A < metric_rank_of m B) /\
  (forall A B,
     A ∈ processed r -> B ∈ processed r ->
     rankTotal A = rankTotal B -> rankDebt A < rankDebt B ->
     rankGeneral A < rankGeneral B) /\
  (exists byPL,
     byPL ≡ₚ processed r /\ rankPL <$> byPL = ranks_upto N /\
     forall c : weight,
       core <$> filter (fun s => weight_of ASC (plProjected s) = c) byPL
       = core <$> filter (fun s => weight_of ASC (plProjected s) = c)
                   (run (stocks_before_ranking rawData mode) g)).
Proof.
  intros [Hrows Hproc]%processStockData_returns. cbv zeta.
  set (stocks := run (stocks_before_ranking rawData mode) g) in *.
  assert (Hdef : Forall metrics_defined stocks)
    by apply stocks_before_ranking_defined.
  assert (Hlen : length (processed r) = length stocks)
    by (rewrite Hproc; apply calculateRanks_length).
  rewrite Hlen, Hproc.
  split; [|split; [|split; [|split; [|split; [|split]]]]].
  - unfold stocks. rewrite stocks_before_ranking_length. lia.
  - unfold stocks. rewrite stocks_before_ranking_length. lia.
  - intros m. by apply calculateRanks_metric.
  - apply calculateRanks_general.
  - intros m p A B Hp HA HB Htie Hprev.
    destruct (calculateRanks_metric m stocks Hdef) as (_ & _ & Hties).
    apply (Hties p A B Hp HA HB); [|done].
    unfold metric_weight. rewrite (tie_weight _ _ _ Htie). apply weight_lt_irrefl.
  - apply calculateRanks_general.
  - apply (calculateRanks_first_stable stocks Hdef).
Qed.

Lemma C1_ranks_are_permutations_witness :
  exists r,
    run (processStockData neto_sample neto) half_source = Returns r /\
    length (processed r) = 3%nat /\
    rankPL <$> processed r ≡ₚ ranks_upto 3 /\
    rankGeneral <$> processed r ≡ₚ ranks_upto 3.
Proof.
  eexists. split; [vm_compute; reflexivity|].
  split; [reflexivity|].
  pose proof (C1_ranks_are_permutations neto_sample neto half_source _
                ltac:(vm_compute; reflexivity)) as H.
  cbv zeta in H. destruct H as (_ & _ & Hm & Hg & _).
  split; [exact (Hm PL)|exact Hg].
Defined.

(** C2. Of two records with finite values for a metric, the one whose
    value is strictly better in the metric's direction (smaller for P/L
    projected, P/L deviation and debt/EBITDA; larger for dividend yield,
    margin of safety and CAGR) has the smaller rank for that metric. *)
Theorem C2_direction_correct rawData mode g r m A B :
  run (processStockData rawData mode) g = Returns r ->
  A ∈ processed r -> B ∈ processed r ->
  is_finite (metric_value m A) = true ->
  is_finite (metric_value m B) = true ->
  better (metric_order m) (metric_value m A) (metric_value m B) = true ->
  metric_rank_of m A < metric_rank_of m B.
Proof.
  intros [_ Hproc]%processStockData_returns HA HB HfA HfB Hbetter.
  rewrite Hproc in HA, HB.
  pose proof (stocks_before_ranking_defined rawData mode g) as Hdef.
  destruct (calculateRanks_metric m _ Hdef) as (_ & Hdir & _).
  apply Hdir; [done..|]. by apply better_weight.
Qed.

Lemma C2_direction_correct_witness :
  exists r A B,
    run (processStockData neto_sample neto) half_source = Returns r /\
    processed r !! 0%nat = Some A /\ processed r !! 1%nat = Some B /\
    metric_value PL A = of_Z 10 /\ metric_value PL B = of_Z 12 /\
    metric_rank_of PL A < metric_rank_of PL B.
Proof.
  eexists _, _, _.
  split; [vm_compute; reflexivity|].
  split; [vm_compute; reflexivity|].
  split; [vm_compute; reflexivity|].
  split; [vm_compute; reflexivity|].
  split; [vm_compute; reflexivity|].
  eapply (C2_direction_correct neto_sample neto half_source).
  - vm_compute; reflexivity.
  - apply list_elem_of_lookup_2 with 0%nat. reflexivity.
  - apply list_elem_of_lookup_2 with 1%nat. reflexivity.
  - reflexivity.
  - reflexivity.
  - vm_compute; reflexivity.
Defined.

(** C3. A record whose value for a metric is missing (an infinite
    value) has a larger rank for that metric than every record with a
    finite value, whatever the direction of the metric. *)
Theorem C3_missing_ranks_worst rawData mode g r m A B :
  run (processStockData rawData mode) g = Returns r ->
  A ∈ processed r -> B ∈ processed r ->
  is_infinite (metric_value m A) = true ->
  is_finite (metric_value m B) = true ->
  metric_rank_of m B < metric_rank_of m A.
Proof.
  intros [_ Hproc]%processStockData_returns HA HB HiA HfB.
  rewrite Hproc in HA, HB.
  pose proof (stocks_before_ranking_defined rawData mode g) as Hdef.
  destruct (calculateRanks_metric m _ Hdef) as (_ & Hdir & _).
  apply Hdir; [done..|]. by apply missing_weight.
Qed.

Lemma C3_missing_ranks_worst_witness :
  exists r A B,
    run (processStockData neto_sample neto) half_source = Returns r /\
    processed r !! 2%nat = Some A /\ processed r !! 0%nat = Some B /\
    metric_value DY A = NInf /\ metric_value PL A = NInf /\
    metric_value PL B = of_Z 10 /\
    metric_rank_of PL B < metric_rank_of PL A.
Proof.
  eexists _, _, _.
  split; [vm_compute; reflexivity|].
  split; [vm_compute; reflexivity|].
  split; [vm_compute; reflexivity|].
  split; [vm_compute; reflexivity|].
  split; [vm_compute; reflexivity|].
  split; [vm_compute; reflexivity|].
  eapply (C3_missing_ranks_worst neto_sample neto half_source).
  - vm_compute; reflexivity.
  - apply list_elem_of_lookup_2 with 2%nat. reflexivity.
  - apply list_elem_of_lookup_2 with 0%nat. reflexivity.
  - reflexivity.
  - reflexivity.
Defined.

(* ===================================================================== *)
(** ** Malformed input and the price difference of neto mode *)
(* ===================================================================== *)

Lemma split_length s : length (split "010" s) = S (line_breaks s).
Proof.
  induction s as [|c s IH]; [done|]. cbn [split line_breaks].
  destruct (Ascii.eqb c "010"); cbn [length]; [by rewrite IH|].
  destruct (split "010" s); cbn in *; lia.
Qed.

Lemma split_rows_length rawData :
  length (split_rows rawData) = S (line_breaks (trim rawData)).
Proof. unfold split_rows. by rewrite length_fmap, split_length. Qed.

(** C5 (amended). A call throws "Dados insuficientes." exactly when the
    text, once its leading and trailing white space is trimmed, has no
    line break left, and returns a result exactly when it has one; the
    mode plays no part. *)
Theorem C5_malformed_input rawData mode g :
  (run (processStockData rawData mode) g = Throws "Dados insuficientes."
   <-> line_breaks (trim rawData) = 0%nat) /\
  ((exists r, run (processStockData rawData mode) g = Returns r)
   <-> line_breaks (trim rawData) <> 0%nat).
Proof.
  rewrite processStockData_run, split_rows_length.
  destruct (line_breaks (trim rawData)) as [|n]; cbn [Nat.ltb Nat.leb].
  - split; [done|]. split; [by intros [r ?]|done].
  - split; [done|]. split; [done|]. intros _. eauto.
Qed.

(** The claim as stated fails: a header followed by a row of three empty
    cells is a text of two lines, and the call throws. *)
Lemma C5_counterexample :
  length (split "010" blank_row_sample) = 2%nat /\
  run (processStockData blank_row_sample standard) half_source
    = Throws "Dados insuficientes." /\
  run (processStockData blank_row_sample neto) half_source
    = Throws "Dados insuficientes.".
Proof.
  split; [|split].
  - vm_compute. reflexivity.
  - vm_compute. reflexivity.
  - vm_compute. reflexivity.
Qed.

(** *** Price difference of neto mode *)

Lemma price_view_calculateRanks l :
  price_view <$> calculateRanks l ≡ₚ price_view <$> l.
Proof.
  apply calculateRanks_view_all.
  - intros t z s. by destruct s, t.
  - intros s. by destruct s.
  - intros s. unfold write_back. destruct (30 <=? _)%nat; by destruct s.
Qed.

(** C7 (amended). In neto mode the price difference of every record is
    (currentPrice - fairPrice) / fairPrice * 100 when the current price
    and the ceiling price are both strictly positive, and zero in every
    other case. *)
Theorem C7_neto_price_difference rawData g r s :
  run (processStockData rawData neto) g = Returns r ->
  s ∈ processed r ->
  priceDiff s =
    if gtb (currentPrice s) zero && gtb (fairPrice s) zero
    then price_difference s else zero.
Proof.
  intros [_ Hproc]%processStockData_returns Hs. rewrite Hproc in Hs.
  destruct (view_elem_of price_view _ _ s (price_view_calculateRanks _) Hs)
    as (s' & Hs' & E).
  injection E as E1 E2 E3.
  unfold price_difference. rewrite <- E1, <- E2, <- E3.
  cbn [stocks_before_ranking] in Hs'. rewrite neto_stocks_run in Hs'.
  apply list_elem_of_fmap in Hs' as (s0 & -> & Hs0).
  assert (H0 : priceDiff s0 = zero).
  { pose proof (array_mapM_Forall neto_stock (fun s => priceDiff s = zero)
                  (tail (split_rows rawData)) g) as HF.
    rewrite Forall_forall in HF. apply HF; [|done].
    intros row g' _. by destruct (neto_stock_run row g') as [i ->]. }
  unfold neto_priceDiff.
  destruct (gtb (currentPrice s0) zero && gtb (fairPrice s0) zero) eqn:E.
  - destruct s0. cbn in *. by rewrite E.
  - by rewrite E.
Qed.

Lemma C7_neto_price_difference_witness :
  exists r s,
    run (processStockData zero_price_sample neto) half_source = Returns r /\
    processed r !! 0%nat = Some s /\
    priceDiff s = zero.
Proof.
  eexists _, _.
  split; [vm_compute; reflexivity|].
  split; [vm_compute; reflexivity|].
  erewrite (C7_neto_price_difference zero_price_sample half_source).
  - vm_compute; reflexivity.
  - vm_compute; reflexivity.
  - apply list_elem_of_lookup_2 with 0%nat. reflexivity.
Defined.

(** The claim as stated fails: with a current price of zero (present and
    not the missing sentinel) and a positive ceiling price, the price
    difference stays zero instead of (0 - 10) / 10 * 100. *)
Lemma C7_counterexample :
  exists r s,
    run (processStockData zero_price_sample neto) half_source = Returns r /\
    s ∈ processed r /\
    strict_ne (currentPrice s) NInf = true /\
    strict_ne (fairPrice s) NInf = true /\
    gtb (fairPrice s) zero = true /\
    price_difference s = of_Z (-100) /\
    priceDiff s = zero /\
    priceDiff s <> price_difference s.
Proof.
  eexists _, _.
  split; [vm_compute; reflexivity|].
  split; [apply list_elem_of_lookup_2 with 0%nat; reflexivity|].
  split; [reflexivity|]. split; [reflexivity|]. split; [reflexivity|].
  split; [vm_compute; reflexivity|].
  split; [vm_compute; reflexivity|].
  vm_compute. discriminate.
Qed.

(* ===================================================================== *)
(** ** Determinism *)
(* ===================================================================== *)

(** *** The random source reaches the ids only *)

Lemma array_sort_fmap {A B} (f : A -> B) (cmp : B -> B -> number) l :
  array_sort cmp (f <$> l) = f <$> array_sort (fun a b => cmp (f a) (f b)) l.
Proof.
  induction l as [|x l IH]; [done|].
  cbn [fmap list_fmap array_sort foldr].
  change (foldr (sort_insert cmp) [] (f <$> l)) with (array_sort cmp (f <$> l)).
  change (foldr (sort_insert (fun a b => cmp (f a) (f b))) [] l)
    with (array_sort (fun a b => cmp (f a) (f b)) l).
  rewrite IH. generalize (array_sort (fun a b => cmp (f a) (f b)) l).
  intros l'. induction l' as [|y l' IH']; [done|].
  cbn [fmap list_fmap sort_insert].
  destruct (gtb (cmp (f x) (f y)) zero); [|done].
  cbn [fmap list_fmap]. f_equal. apply IH'.
Qed.

Lemma array_sort_ext {A} (cmp cmp' : A -> A -> number) l :
  (forall a b, cmp a b = cmp' a b) -> array_sort cmp l = array_sort cmp' l.
Proof.
  intros E. induction l as [|x l IH]; [done|].
  cbn [array_sort foldr].
  change (foldr (sort_insert cmp) [] l) with (array_sort cmp l).
  change (foldr (sort_insert cmp') [] l) with (array_sort cmp' l).
  rewrite IH. generalize (array_sort cmp' l). intros l'.
  induction l' as [|y l' IH']; [done|].
  cbn [sort_insert]. rewrite E, IH'. done.
Qed.

Lemma applyRank_forget_id key t order l :
  applyRank key t order (forget_id <$> l) = forget_id <$> applyRank key t order l.
Proof.
  unfold applyRank. rewrite array_sort_fmap.
  rewrite (array_sort_ext _ (rank_compare key order)).
  - rewrite imap_fmap, fmap_imap. apply imap_ext.
    intros i s _. cbn. by destruct s, t.
  - intros a b. unfold rank_compare. by destruct a, b, key.
Qed.

Lemma rank_metrics_forget_id ms l :
  rank_metrics ms (forget_id <$> l) = forget_id <$> rank_metrics ms l.
Proof.
  revert l. induction ms as [|m ms IH]; intros l; [done|].
  cbn [rank_metrics foldl]. fold (rank_metrics ms (rank_metric m l)).
  fold (rank_metrics ms (rank_metric m (forget_id <$> l))).
  unfold rank_metric at 1. rewrite applyRank_forget_id. apply IH.
Qed.

Lemma calculateRanks_forget_id l :
  calculateRanks (forget_id <$> l) = forget_id <$> calculateRanks l.
Proof.
  rewrite !calculateRanks_steps, rank_metrics_forget_id.
  set (l6 := rank_metrics ranking_order l).
  assert (Hg : rank_general (forget_id <$> l6) = forget_id <$> rank_general l6).
  { unfold rank_general. rewrite <- applyRank_forget_id. f_equal.
    rewrite <- !list_fmap_compose. apply list_fmap_ext. intros _ s _. by destruct s. }
  rewrite Hg. set (l7 := rank_general l6).
  assert (Hw : write_back_all (forget_id <$> l7) = forget_id <$> write_back_all l7).
  { unfold write_back_all. destruct l7 as [|first l7]; [done|].
    cbn [fmap list_fmap].
    replace (raw (forget_id first)) with (raw first) by by destruct first.
    destruct (9 <=? _)%nat; [|done].
    change (write_back <$> (forget_id <$> first :: l7)
            = forget_id <$> (write_back <$> first :: l7)).
    rewrite <- !list_fmap_compose. apply list_fmap_ext. intros _ s _.
    cbn. unfold write_back.
    replace (raw (forget_id s)) with (raw s) by by destruct s.
    destruct (30 <=? _)%nat; by destruct s. }
  rewrite Hw, array_sort_fmap. f_equal.
  apply array_sort_ext. intros a b. unfold default_compare. by destruct a, b.
Qed.

Lemma forget_id_neto_priceDiff s :
  forget_id (neto_priceDiff s) = neto_priceDiff (forget_id s).
Proof.
  unfold neto_priceDiff.
  replace (currentPrice (forget_id s)) with (currentPrice s) by by destruct s.
  replace (fairPrice (forget_id s)) with (fairPrice s) by by destruct s.
  destruct (_ && _); by destruct s.
Qed.

Lemma array_mapM_forget {A} (f : A -> Random StockData) l g1 g2 :
  (forall a g g', forget_id (run (f a) g) = forget_id (run (f a) g')) ->
  forget_id <$> run (array_mapM f l) g1 = forget_id <$> run (array_mapM f l) g2.
Proof.
  intros Hf. revert g1 g2. induction l as [|a l IH]; intros g1 g2; [done|].
  rewrite !array_mapM_cons. cbn [fmap list_fmap].
  f_equal; [apply Hf|apply IH].
Qed.

Lemma neto_stock_forget row g g' :
  forget_id (run (neto_stock row) g) = forget_id (run (neto_stock row) g').
Proof.
  destruct (neto_stock_run row g) as [i ->].
  destruct (neto_stock_run row g') as [i' ->]. reflexivity.
Qed.

Lemma standard_stock_forget row g g' :
  forget_id (run (standard_stock row) g) = forget_id (run (standard_stock row) g').
Proof.
  destruct (standard_stock_run row g) as [i ->].
  destruct (standard_stock_run row g') as [i' ->]. reflexivity.
Qed.

Lemma stocks_before_ranking_forget rawData mode g1 g2 :
  forget_id <$> run (stocks_before_ranking rawData mode) g1
  = forget_id <$> run (stocks_before_ranking rawData mode) g2.
Proof.
  destruct mode; cbn [stocks_before_ranking].
  - apply array_mapM_forget, standard_stock_forget.
  - rewrite !neto_stocks_run, <- !list_fmap_compose.
    rewrite !(list_fmap_ext (forget_id ∘ neto_priceDiff) (neto_priceDiff ∘ forget_id))
      by (intros; apply forget_id_neto_priceDiff).
    rewrite !list_fmap_compose. f_equal.
    apply array_mapM_forget, neto_stock_forget.
Qed.

(** *** With every ticker present nothing is drawn *)

Lemma array_mapM_pure {A B} (f : A -> Random B) l g1 g2 :
  (forall a, a ∈ l -> forall g g', run (f a) g = run (f a) g') ->
  run (array_mapM f l) g1 = run (array_mapM f l) g2.
Proof.
  revert g1 g2. induction l as [|a l IH]; intros g1 g2 Hf; [done|].
  rewrite !array_mapM_cons. f_equal.
  - apply Hf. left.
  - apply IH. intros. apply Hf. by right.
Qed.

Lemma id_of_truthy tk g g' :
  truthy tk = true -> run (id_of tk) g = run (id_of tk) g'.
Proof. by destruct tk as [[|c t]|]. Qed.

Lemma neto_stock_pure row g g' :
  truthy (at_index (pad_row (length NETO_INVEST_HEADERS) row) 1) = true ->
  run (neto_stock row) g = run (neto_stock row) g'.
Proof.
  intros H. unfold neto_stock. rewrite !run_bind, (id_of_truthy _ g g' H).
  reflexivity.
Qed.

Lemma standard_stock_pure row g g' :
  truthy (at_index (pad_row (length STANDARD_HEADERS) row) 10) = true ->
  run (standard_stock row) g = run (standard_stock row) g'.
Proof.
  intros H. unfold standard_stock. rewrite !run_bind, (id_of_truthy _ g g' H).
  reflexivity.
Qed.

Lemma stocks_before_ranking_pure rawData mode g1 g2 :
  Forall (fun c => truthy c = true) (ticker_cells rawData mode) ->
  run (stocks_before_ranking rawData mode) g1
  = run (stocks_before_ranking rawData mode) g2.
Proof.
  intros H. rewrite Forall_forall in H.
  destruct mode; cbn [stocks_before_ranking ticker_cells] in *.
  - apply array_mapM_pure. intros row Hrow g g'.
    apply standard_stock_pure, H.
    by apply (list_elem_of_fmap_2
      (fun row => at_index (pad_row (length STANDARD_HEADERS) row) 10)).
  - rewrite !neto_stocks_run. f_equal.
    apply array_mapM_pure. intros row Hrow g g'.
    apply neto_stock_pure, H.
    by apply (list_elem_of_fmap_2
      (fun row => at_index (pad_row (length NETO_INVEST_HEADERS) row) 1)).
Qed.

(** C10. When every data row has a non-empty ticker cell, two runs on
    the same text and mode return the same bundle whatever the random
    generator yields; and in every case the generator reaches nothing but
    the ids: with the ids blanked, any two runs agree. *)
Theorem C10_deterministic rawData mode g1 g2 :
  (Forall (fun c => truthy c = true) (ticker_cells rawData mode) ->
   run (processStockData rawData mode) g1 = run (processStockData rawData mode) g2) /\
  forget_ids (run (processStockData rawData mode) g1)
  = forget_ids (run (processStockData rawData mode) g2).
Proof.
  split.
  - intros H. rewrite !processStockData_run.
    by rewrite (stocks_before_ranking_pure rawData mode g1 g2 H).
  - rewrite !processStockData_run. destruct (_ <? _)%nat; [done|].
    cbn [forget_ids processed headers initialHiddenColumns layoutConfig].
    rewrite <- !calculateRanks_forget_id.
    by rewrite (stocks_before_ranking_forget rawData mode g1 g2).
Qed.

Lemma C10_deterministic_witness :
  Forall (fun c => truthy c = true) (ticker_cells neto_sample neto) /\
  run (processStockData neto_sample neto) half_source
  = run (processStockData neto_sample neto) (fun _ => zero).
Proof.
  assert (H : Forall (fun c => truthy c = true) (ticker_cells neto_sample neto)).
  { vm_compute. repeat constructor. }
  split; [exact H|].
  exact (proj1 (C10_deterministic neto_sample neto half_source (fun _ => zero)) H).
Defined.

(* ===================================================================== *)
(** ** The parser on numerals *)
(* ===================================================================== *)

(** *** The parser on numerals *)

Lemma digit_not_symbol c : isDigit c = true -> is_symbol c = false.
Proof. by_char c. Qed.

Lemma digit_not_dot c : isDigit c = true -> Ascii.eqb "." c = false.
Proof. by_char c. Qed.

Lemma digit_not_comma c : isDigit c = true -> Ascii.eqb c "," = false.
Proof. by_char c. Qed.

Lemma digit_not_space c : isDigit c = true -> isWhiteSpace c = false.
Proof. by_char c. Qed.

Lemma app_cons c (s1 s2 : string) : String c s1 +:+ s2 = String c (s1 +:+ s2).
Proof. reflexivity. Qed.

Lemma app_empty_l (s : string) : "" +:+ s = s.
Proof. reflexivity. Qed.

Lemma app_assoc_string (s1 s2 s3 : string) : (s1 +:+ s2) +:+ s3 = s1 +:+ s2 +:+ s3.
Proof.
  induction s1 as [|c s1 IH]; [done|]. by rewrite !app_cons, IH.
Qed.

Lemma app_empty_r (s : string) : s +:+ "" = s.
Proof. induction s as [|c s IH]; [done|]. by rewrite app_cons, IH. Qed.

Lemma remove_all_app cls (s1 s2 : string) :
  remove_all cls (s1 +:+ s2) = remove_all cls s1 +:+ remove_all cls s2.
Proof.
  induction s1 as [|c s1 IH]; [done|]. rewrite app_cons. cbn [remove_all].
  destruct (cls c); [done|]. by rewrite app_cons, IH.
Qed.

Lemma remove_all_digits cls s :
  (forall c, isDigit c = true -> cls c = false) ->
  all_digits s = true -> remove_all cls s = s.
Proof.
  intros Hcls. induction s as [|c s IH]; [done|]. cbn [all_digits remove_all].
  intros [Hc Hs]%andb_true_iff. by rewrite (Hcls c Hc), IH.
Qed.

Lemma all_digits_app s1 s2 :
  all_digits (s1 +:+ s2) = all_digits s1 && all_digits s2.
Proof.
  induction s1 as [|c s1 IH]; [done|]. rewrite app_cons. cbn [all_digits].
  by rewrite IH, andb_assoc.
Qed.

Lemma all_digits_groups groups :
  Forall (fun g => all_digits g = true) groups ->
  all_digits (concat_groups "" groups) = true.
Proof.
  induction 1 as [|g gs Hg _ IH]; [done|]. cbn [concat_groups].
  change ("" +:+ g +:+ concat_groups "" gs) with (g +:+ concat_groups "" gs).
  by rewrite all_digits_app, Hg, IH.
Qed.



Lemma replace_first_digits s1 s2 :
  all_digits s1 = true ->
  replace_first "," "." (s1 +:+ s2) = s1 +:+ replace_first "," "." s2.
Proof.
  induction s1 as [|c s1 IH]; [done|]. cbn [all_digits].
  intros [Hc Hs]%andb_true_iff. rewrite !app_cons. cbn [replace_first].
  by rewrite (digit_not_comma c Hc), IH.
Qed.

Lemma span_digits_app s1 s2 :
  all_digits s1 = true ->
  match s2 with String c _ => isDigit c = false | EmptyString => True end ->
  span_digits (s1 +:+ s2) = (digit_values s1, s2).
Proof.
  intros Hs1 Hs2. induction s1 as [|c s1 IH].
  - rewrite app_empty_l. destruct s2 as [|c s2]; [done|].
    cbn [span_digits digit_values]. by rewrite Hs2.
  - cbn [all_digits] in Hs1. apply andb_true_iff in Hs1 as [Hc Hs1].
    rewrite app_cons. cbn [span_digits digit_values]. by rewrite Hc, IH.
Qed.

Lemma digit_values_app s1 s2 :
  digit_values (s1 +:+ s2) = digit_values s1 ++ digit_values s2.
Proof.
  induction s1 as [|c s1 IH]; [done|]. rewrite app_cons. cbn [digit_values].
  by rewrite IH.
Qed.

Lemma digit_values_length s : length (digit_values s) = String.length s.
Proof. induction s as [|c s IH]; cbn; [done|]. by rewrite IH. Qed.

Lemma of_decimal_isNaN m e : isNaN (of_decimal m e) = false.
Proof. pose proof (of_decimal_not_NaN m e). by destruct (of_decimal m e). Qed.

Lemma parseFloat_numeral c int frac :
  isDigit c = true -> all_digits int = true -> all_digits frac = true ->
  parseFloat (String c int +:+ "." +:+ frac) = decimal_value (String c int) frac.
Proof.
  intros Hc Hint Hfrac. unfold parseFloat.
  rewrite app_cons. cbn [trimStart]. rewrite (digit_not_space c Hc).
  assert (Hsign :
    match String c (int +:+ "." +:+ frac) with
    | String "-" r => (true, r)
    | String "+" r => (false, r)
    | _ => (false, String c (int +:+ "." +:+ frac))
    end = (false, String c (int +:+ "." +:+ frac))).
  { revert Hc. clear. by_char c. }
  rewrite Hsign.
  assert (Hinf : startsWith "Infinity" (String c (int +:+ "." +:+ frac)) = false).
  { revert Hc. clear. by_char c. }
  rewrite Hinf.
  change (String c (int +:+ "." +:+ frac)) with (String c int +:+ "." +:+ frac).
  rewrite (span_digits_app (String c int) ("." +:+ frac));
    [|by cbn [all_digits]; rewrite Hc|done].
  rewrite app_cons, app_empty_l.
  rewrite <- (app_empty_r frac) at 1.
  rewrite (span_digits_app frac "") by done.
  cbn [digit_values exponent_part]. unfold decimal_value.
  rewrite digit_values_app, digit_values_length. cbn [digit_values].
  reflexivity.
Qed.


(* ===================================================================== *)
(** ** Numerals within the range of a double *)
(* ===================================================================== *)

(** *** Numerals within the range of a double *)










Lemma string_length_app (s1 s2 : string) :
  String.length (s1 +:+ s2) = (String.length s1 + String.length s2)%nat.
Proof. induction s1 as [|c s1 IH]; [done|]. rewrite app_cons. cbn. by rewrite IH. Qed.



(* ===================================================================== *)
(** ** Texts without a numeral, and the parser theorem *)
(* ===================================================================== *)

(** *** Texts without a numeral *)












(* ===================================================================== *)
(** ** Where the code departs from its specification *)
(* ===================================================================== *)

(** C6 (the code departs from the claim). In neto mode a ceiling price
    that parses to plus infinity passes the guard [fairPrice > 0] and
    makes the price difference NaN, which the default sort cannot order:
    on this sheet the two returned records are non-decreasing in neither
    order. *)
Theorem C6_default_order_broken_by_NaN :
  exists r a b,
    run (processStockData infinite_ceiling_sample neto) half_source = Returns r /\
    processed r = [a; b] /\
    fairPrice a = PInf /\ priceDiff a = NaN /\ priceDiff b = of_Z (-50) /\
    leb (default_key a) (default_key b) = false /\
    leb (default_key b) (default_key a) = false /\
    ~ default_sorted (processed r).
Proof.
  eexists _, _, _.
  split; [vm_compute; reflexivity|].
  split; [reflexivity|].
  split; [reflexivity|].
  split; [reflexivity|].
  split; [vm_compute; reflexivity|].
  split; [reflexivity|].
  split; [reflexivity|].
  intros H. apply StronglySorted_inv in H as [_ H].
  apply Forall_cons in H as [H _]. discriminate H.
Qed.

(** C8 (the code departs from the claim). The write-back tells the
    standard layout by the length of the row alone, so a neto row of 30
    cells or more is overwritten: here the company, sector and the next
    six cells of the display row are replaced by ranks. *)
Theorem C8_long_neto_row_overwritten :
  exists r s,
    run (processStockData long_neto_sample neto) half_source = Returns r /\
    processed r = [s] /\
    company s = Some "Acme" /\
    length (raw s) = 30%nat /\
    take 9 (raw s)
    = [Some "1"; Some "ACM3"; Some "1"; Some "1"; Some "1"; Some "1";
       Some "1"; Some "1"; Some "6"].
Proof.
  eexists _, _.
  split; [vm_compute; reflexivity|].
  repeat split.
Qed.

(** C9 (the code departs from the claim). The remap of a simplified
    sheet copies cells the short row does not have: the display row has
    its 33 cells, but the ticker and ten more of them are [undefined],
    not strings. *)
Theorem C9_short_simplified_row_has_undefined_cells :
  exists r s,
    run (processStockData short_simplified_sample standard) half_source = Returns r /\
    processed r = [s] /\
    length (raw s) = 33%nat /\
    raw s !! 10%nat = Some None /\
    ticker s = None /\
    ~ all_strings (raw s).
Proof.
  eexists _, _.
  split; [vm_compute; reflexivity|].
  split; [reflexivity|]. split; [reflexivity|].
  split; [reflexivity|]. split; [reflexivity|].
  unfold all_strings. rewrite Forall_forall. intros H.
  apply (H None); [|done].
  apply list_elem_of_lookup_2 with 10%nat. reflexivity.
Qed.

(* ===================================================================== *)
(** ** The default order outside the NaN case, and the rank total *)
(* ===================================================================== *)

(** *** The default order outside the NaN case *)






(** *** The total is the sum of the six ranks *)

Theorem rank_total_is_sum rawData mode g r s :
  run (processStockData rawData mode) g = Returns r ->
  s ∈ processed r ->
  rankTotal s
  = rankPL s + rankDeviation s + rankDY s + rankMargin s + rankCAGR s + rankDebt s.
Proof.
  intros [_ Hproc]%processStockData_returns Hs. rewrite Hproc in Hs.
  set (l := run (stocks_before_ranking rawData mode) g) in *.
  assert (Hview : sum_view <$> calculateRanks l
                  ≡ₚ sum_view <$> (sum_ranks <$> rank_metrics ranking_order l)).
  { rewrite calculateRanks_view_general.
    - unfold rank_general. apply applyRank_view. intros z s'. by destruct s'.
    - intros s'. unfold write_back. destruct (30 <=? _)%nat; by destruct s'. }
  destruct (view_elem_of sum_view _ _ s Hview Hs) as (s' & Hs' & E).
  apply list_elem_of_fmap in Hs' as (s0 & -> & _).
  injection E as E1 E2 E3 E4 E5 E6 E7.
  rewrite <- E1, <- E2, <- E3, <- E4, <- E5, <- E6, <- E7. by destruct s0.
Qed.

Lemma rank_total_is_sum_witness :
  exists r s,
    run (processStockData neto_sample neto) half_source = Returns r /\
    processed r !! 1%nat = Some s /\
    rankTotal s
    = rankPL s + rankDeviation s + rankDY s + rankMargin s + rankCAGR s + rankDebt s.
Proof.
  eexists _, _.
  split; [vm_compute; reflexivity|].
  split; [vm_compute; reflexivity|].
  eapply (rank_total_is_sum neto_sample neto half_source).
  - vm_compute; reflexivity.
  - apply list_elem_of_lookup_2 with 1%nat. reflexivity.
Defined.

(* ===================================================================== *)
(** ** The display rows *)
(* ===================================================================== *)

(** *** Where a returned record comes from *)

Lemma row_view_ranked l :
  row_view <$> rank_general (rank_metrics ranking_order l) ≡ₚ row_view <$> l.
Proof.
  rewrite rank_general_view.
  - apply rank_metrics_view. intros m z s _. by destruct s, m.
  - intros z s. by destruct s.
  - intros s. by destruct s.
Qed.

Lemma calculateRanks_origin l s :
  Forall (fun s => (9 <= length (raw s))%nat) l ->
  s ∈ calculateRanks l ->
  exists s0 s1,
    s0 ∈ l /\ core s1 = core s0 /\ raw s1 = raw s0 /\ s = write_back s1.
Proof.
  intros Hlen. rewrite calculateRanks_steps, array_sort_elem_of.
  set (l8 := rank_general (rank_metrics ranking_order l)).
  pose proof (row_view_ranked l) as Hview. fold l8 in Hview.
  assert (Hl8 : Forall (fun s => (9 <= length (raw s))%nat) l8).
  { apply (view_Forall row_view (fun v => (9 <= length (snd v))%nat) l8 l Hview).
    exact Hlen. }
  unfold write_back_all. destruct l8 as [|first l8'] eqn:E; [by intros ?%elem_of_nil|].
  pose proof (Forall_inv Hl8) as Hfirst. cbn beta in Hfirst.
  apply Nat.leb_le in Hfirst. rewrite Hfirst.
  intros (s1 & -> & Hs1)%list_elem_of_fmap.
  destruct (view_elem_of row_view _ _ s1 Hview Hs1) as (s0 & Hs0 & Ev).
  pose proof (f_equal fst Ev) as Ec. pose proof (f_equal snd Ev) as Er.
  cbn [row_view fst snd] in Ec, Er. exists s0, s1. done.
Qed.

Lemma write_back_short s : (length (raw s) < 30)%nat -> write_back s = s.
Proof.
  intros H. unfold write_back. apply Nat.leb_gt in H. by rewrite H.
Qed.

Lemma write_back_long s :
  (30 <= length (raw s))%nat ->
  raw (write_back s) !! 0%nat = Some (rank_text (rankGeneral s)) /\
  raw (write_back s) !! 2%nat = Some (rank_text (rankPL s)) /\
  raw (write_back s) !! 3%nat = Some (rank_text (rankDeviation s)) /\
  raw (write_back s) !! 4%nat = Some (rank_text (rankDY s)) /\
  raw (write_back s) !! 5%nat = Some (rank_text (rankMargin s)) /\
  raw (write_back s) !! 6%nat = Some (rank_text (rankCAGR s)) /\
  raw (write_back s) !! 7%nat = Some (rank_text (rankDebt s)) /\
  raw (write_back s) !! 8%nat = Some (rank_text (rankTotal s)) /\
  length (raw (write_back s)) = length (raw s) /\
  (forall i, i ∉ rank_columns -> raw (write_back s) !! i = raw s !! i).
Proof.
  intros H. unfold write_back. pose proof H as Hb. apply Nat.leb_le in Hb. rewrite Hb.
  assert (Hraw : forall v, raw (set_raw v s) = v) by (intros; by destruct s).
  rewrite !Hraw.
  repeat split;
    try (rewrite ?list_lookup_insert_ne by lia;
         apply list_lookup_insert_eq; rewrite ?length_insert; lia).
  - by rewrite !length_insert.
  - intros i Hi. unfold rank_columns in Hi.
    rewrite !elem_of_cons, elem_of_nil in Hi.
    rewrite !list_lookup_insert_ne by lia. done.
Qed.

Lemma write_back_all_strings s :
  all_strings (raw s) -> all_strings (raw (write_back s)).
Proof.
  unfold write_back, all_strings. destruct (30 <=? _)%nat; [|done].
  intros H. replace (raw (set_raw _ s)) with
    (<[8%nat := rank_text (rankTotal s)]>
      (<[7%nat := rank_text (rankDebt s)]>
      (<[6%nat := rank_text (rankCAGR s)]>
      (<[5%nat := rank_text (rankMargin s)]>
      (<[4%nat := rank_text (rankDY s)]>
      (<[3%nat := rank_text (rankDeviation s)]>
      (<[2%nat := rank_text (rankPL s)]>
      (<[0%nat := rank_text (rankGeneral s)]> (raw s))))))))) by by destruct s.
  repeat (apply Forall_insert; [|done]). done.
Qed.

Lemma pad_row_length n row : (n <= length (pad_row n row))%nat.
Proof. unfold pad_row. rewrite length_app, length_replicate. lia. Qed.

Lemma pad_row_all_strings n row : all_strings row -> all_strings (pad_row n row).
Proof.
  intros H. unfold pad_row, all_strings. apply Forall_app. split; [done|].
  by apply Forall_replicate.
Qed.

Lemma split_rows_all_strings rawData :
  Forall all_strings (split_rows rawData).
Proof.
  unfold split_rows. apply Forall_fmap, Forall_forall. intros row _. cbn.
  apply Forall_fmap, Forall_forall. by intros c _.
Qed.

Lemma Forall_tail {A} (P : A -> Prop) l : Forall P l -> Forall P (tail l).
Proof. destruct 1; [constructor|done]. Qed.

(** *** The display row of standard mode *)

Lemma standard_stocks_rows rawData g s0 :
  s0 ∈ run (stocks_before_ranking rawData standard) g ->
  exists row,
    row ∈ standard_rows (split_rows rawData) /\
    raw s0 = pad_row (length STANDARD_HEADERS) row.
Proof.
  cbn [stocks_before_ranking]. unfold standard_stocks.
  generalize (standard_rows (split_rows rawData)). intros rows. revert g.
  induction rows as [|row rows IH]; intros g.
  - by intros ?%elem_of_nil.
  - rewrite array_mapM_cons. intros [->|H]%elem_of_cons.
    + exists row. split; [left|]. by destruct (standard_stock_run row g) as [i ->].
    + destruct (IH _ H) as (row' & ? & ?). exists row'. split; [by right|done].
Qed.

Lemma neto_stocks_rows rawData g s0 :
  s0 ∈ run (stocks_before_ranking rawData neto) g ->
  exists row,
    row ∈ tail (split_rows rawData) /\
    raw s0 = pad_row (length NETO_INVEST_HEADERS) row.
Proof.
  cbn [stocks_before_ranking]. rewrite neto_stocks_run.
  intros (s1 & -> & Hs1)%list_elem_of_fmap.
  assert (Hraw : raw (neto_priceDiff s1) = raw s1).
  { unfold neto_priceDiff. destruct (_ && _); by destruct s1. }
  rewrite Hraw. revert Hs1.
  generalize (tail (split_rows rawData)). intros rows. revert g.
  induction rows as [|row rows IH]; intros g.
  - by intros ?%elem_of_nil.
  - rewrite array_mapM_cons. intros [->|H]%elem_of_cons.
    + exists row. split; [left|]. by destruct (neto_stock_run row g) as [i ->].
    + destruct (IH _ H) as (row' & ? & ?). exists row'. split; [by right|done].
Qed.

Lemma stocks_before_ranking_long rawData mode g :
  Forall (fun s => (9 <= length (raw s))%nat)
    (run (stocks_before_ranking rawData mode) g).
Proof.
  apply Forall_forall. intros s0 Hs0. destruct mode.
  - destruct (standard_stocks_rows _ _ _ Hs0) as (row & _ & ->).
    pose proof (pad_row_length (length STANDARD_HEADERS) row). cbn in *. lia.
  - destruct (neto_stocks_rows _ _ _ Hs0) as (row & _ & ->).
    pose proof (pad_row_length (length NETO_INVEST_HEADERS) row). cbn in *. lia.
Qed.

(** In standard mode every display row carries the ranks at positions
    0 and 2..8, in the order general, P/L, deviation, dividend yield,
    margin, CAGR, debt, total, and is the padded data row everywhere
    else (the status at position 1 included). *)
Theorem standard_write_back rawData g r s :
  run (processStockData rawData standard) g = Returns r ->
  s ∈ processed r ->
  take 9 (raw s)
  = [rank_text (rankGeneral s); at_index (raw s) 1; rank_text (rankPL s);
     rank_text (rankDeviation s); rank_text (rankDY s); rank_text (rankMargin s);
     rank_text (rankCAGR s); rank_text (rankDebt s); rank_text (rankTotal s)] /\
  exists row,
    row ∈ standard_rows (split_rows rawData) /\
    length (raw s) = length (pad_row (length STANDARD_HEADERS) row) /\
    forall i, i ∉ rank_columns ->
      raw s !! i = pad_row (length STANDARD_HEADERS) row !! i.
Proof.
  intros [_ Hproc]%processStockData_returns Hs. rewrite Hproc in Hs.
  destruct (calculateRanks_origin _ s (stocks_before_ranking_long _ _ _) Hs)
    as (s0 & s1 & Hs0 & _ & Hraw & ->).
  destruct (standard_stocks_rows _ _ _ Hs0) as (row & Hrow & Hpad).
  assert (Hlong : (30 <= length (raw s1))%nat).
  { rewrite Hraw, Hpad. pose proof (pad_row_length (length STANDARD_HEADERS) row).
    cbn in *. lia. }
  destruct (write_back_long s1 Hlong)
    as (H0 & H2 & H3 & H4 & H5 & H6 & H7 & H8 & Hlen & Hframe).
  destruct (write_back_fields s1) as (_ & Hr & Ht).
  split.
  - pose proof (Hr key_rankGeneral) as R0. pose proof (Hr key_rankPL) as R2.
    pose proof (Hr key_rankDeviation) as R3. pose proof (Hr key_rankDY) as R4.
    pose proof (Hr key_rankMargin) as R5. pose proof (Hr key_rankCAGR) as R6.
    pose proof (Hr key_rankDebt) as R7. cbn [rank_of] in *.
    rewrite R0, R2, R3, R4, R5, R6, R7, Ht. unfold at_index.
    remember (raw (write_back s1)) as rw eqn:Erw. clear Erw.
    destruct rw as [|c0 [|c1 [|c2 [|c3 [|c4 [|c5 [|c6 [|c7 [|c8 rest]]]]]]]]];
      cbn [length] in Hlen; try lia.
    cbn [lookup list_lookup] in *. cbn [firstn].
    change (take 0 rest) with (@nil cell). congruence.
  - exists row. split; [done|]. rewrite <- Hpad, <- Hraw. split; [done|]. exact Hframe.
Qed.

Lemma standard_write_back_witness :
  exists r s,
    run (processStockData short_simplified_sample standard) half_source = Returns r /\
    processed r !! 0%nat = Some s /\
    take 9 (raw s)
    = [rank_text (rankGeneral s); at_index (raw s) 1; rank_text (rankPL s);
       rank_text (rankDeviation s); rank_text (rankDY s); rank_text (rankMargin s);
       rank_text (rankCAGR s); rank_text (rankDebt s); rank_text (rankTotal s)].
Proof.
  eexists _, _.
  split; [vm_compute; reflexivity|].
  split; [vm_compute; reflexivity|].
  eapply (standard_write_back short_simplified_sample half_source).
  - vm_compute; reflexivity.
  - apply list_elem_of_lookup_2 with 0%nat. reflexivity.
Defined.

(** In neto mode, and in standard mode on a sheet that is not the
    simplified one, every display row has at least as many cells as the
    mode has headers and every cell is a string; a neto row of fewer than
    30 cells is the padded data row, untouched by the ranking. *)
Theorem display_rows_are_padded rawData mode g r s :
  run (processStockData rawData mode) g = Returns r ->
  s ∈ processed r ->
  (length (headers r) <= length (raw s))%nat /\
  (mode = neto \/ is_simplified (default [] (head (split_rows rawData))) = false ->
   all_strings (raw s)) /\
  (mode = neto -> (length (raw s) < 30)%nat ->
   exists row, row ∈ tail (split_rows rawData) /\
     raw s = pad_row (length NETO_INVEST_HEADERS) row).
Proof.
  intros Hrun Hs. pose proof Hrun as [_ Hproc]%processStockData_returns.
  assert (Hh : headers r = match mode with
                           | neto => NETO_INVEST_HEADERS
                           | standard => STANDARD_HEADERS end).
  { rewrite processStockData_run in Hrun. destruct (_ <? _)%nat; [done|].
    by injection Hrun as <-. }
  rewrite Hproc in Hs.
  destruct (calculateRanks_origin _ s (stocks_before_ranking_long _ _ _) Hs)
    as (s0 & s1 & Hs0 & _ & Hraw & ->).
  assert (Hlen : length (raw (write_back s1)) = length (raw s1)).
  { destruct (le_lt_dec 30 (length (raw s1))) as [Hl|Hl].
    - by destruct (write_back_long s1 Hl) as (_ & _ & _ & _ & _ & _ & _ & _ & ? & _).
    - by rewrite write_back_short. }
  pose proof (split_rows_all_strings rawData) as Hrows.
  rewrite Hh, Hlen, Hraw. destruct mode.
  - destruct (standard_stocks_rows _ _ _ Hs0) as (row & Hrow & Hpad).
    rewrite Hpad. split; [apply pad_row_length|]. split; [|done].
    intros [?|Hsimple]; [done|]. apply write_back_all_strings.
    rewrite Hraw, Hpad. apply pad_row_all_strings.
    unfold standard_rows in Hrow. rewrite Hsimple in Hrow.
    apply Forall_tail in Hrows. rewrite Forall_forall in Hrows. auto.
  - destruct (neto_stocks_rows _ _ _ Hs0) as (row & Hrow & Hpad).
    apply Forall_tail in Hrows. rewrite Forall_forall in Hrows.
    rewrite Hpad. split; [apply pad_row_length|]. split.
    + intros _. apply write_back_all_strings. rewrite Hraw, Hpad.
      apply pad_row_all_strings. auto.
    + intros _ Hshort. exists row. split; [done|].
      rewrite write_back_short by (rewrite Hraw, Hpad; done). by rewrite Hraw.
Qed.

Lemma display_rows_are_padded_witness :
  exists r s,
    run (processStockData neto_sample neto) half_source = Returns r /\
    processed r !! 0%nat = Some s /\
    (21 <= length (raw s))%nat /\ all_strings (raw s).
Proof.
  eexists _, _.
  split; [vm_compute; reflexivity|].
  split; [vm_compute; reflexivity|].
  destruct (display_rows_are_padded neto_sample neto half_source _ _
              ltac:(vm_compute; reflexivity)
              ltac:(apply list_elem_of_lookup_2 with 0%nat; reflexivity))
    as (H1 & H2 & _).
  split; [exact H1|]. apply H2. by left.
Defined.

(* ===================================================================== *)
(** ** Integers carried as doubles *)
(* ===================================================================== *)

(** An integer below 2^53 is a double, exactly. *)
Lemma round_pos_exact n :
  0 <= n < 2 ^ 53 -> round_pos (n * one_ulps) 1 = n * one_ulps.
Proof.
  intros [Hn0 Hn]. destruct (Z.eq_dec n 0) as [->|Hne].
  { rewrite Z.mul_0_l. apply round_pos_zero. lia. }
  unfold round_pos. rewrite Z.div_1_r, Z.mul_1_l.
  unfold one_ulps. rewrite Z.log2_mul_pow2 by lia.
  assert (Hl0 : 0 <= Z.log2 n) by apply Z.log2_nonneg.
  assert (Hl : Z.log2 n < 53) by (apply Z.log2_lt_pow2; lia).
  set (e := Z.max 0 (1074 + Z.log2 n - 52)).
  assert (He : 0 <= e <= 1074) by lia.
  assert (Hpow : 0 < 2 ^ e) by (apply Z.pow_pos_nonneg; lia).
  assert (Hsplit : n * 2 ^ 1074 = n * 2 ^ (1074 - e) * 2 ^ e).
  { rewrite <- Z.mul_assoc, <- Z.pow_add_r by lia. do 2 f_equal. lia. }
  rewrite Hsplit. unfold div_half_even.
  rewrite Z_div_mult, Z_mod_mult by lia.
  destruct (2 * 0 ?= 2 ^ e) eqn:E; [|reflexivity|].
  - apply Z.compare_eq_iff in E. lia.
  - apply Z.compare_gt_iff in E. lia.
Qed.

Lemma of_Z_exact n : Z.abs n < 2 ^ 53 -> of_Z n = Fin (n * one_ulps).
Proof.
  intros Hn. unfold of_Z, of_decimal.
  change (0 <=? 0) with true. cbv iota.
  change (10 ^ 0) with 1. rewrite Z.mul_1_r. unfold rnd.
  assert (HU : 0 < one_ulps) by (unfold one_ulps; apply Z.pow_pos_nonneg; lia).
  rewrite Z.abs_mul, (Z.abs_eq one_ulps) by lia.
  rewrite round_pos_exact by lia.
  assert (Hlt : Z.abs n * one_ulps < overflow_ulps).
  { unfold one_ulps, overflow_ulps.
    apply Z.lt_le_trans with (2 ^ 53 * 2 ^ 1074).
    - apply Z.mul_lt_mono_pos_r; [apply Z.pow_pos_nonneg|]; lia.
    - rewrite <- Z.pow_add_r by lia. apply Z.pow_le_mono_r; lia. }
  destruct (overflow_ulps <=? Z.abs n * one_ulps) eqn:E;
    [apply Z.leb_le in E; lia|].
  f_equal. rewrite Z.sgn_mul, (Z.sgn_pos one_ulps) by lia.
  rewrite Z.mul_1_r, Z.mul_assoc. f_equal. lia.
Qed.

Lemma one_ulps_pos : 0 < one_ulps.
Proof. unfold one_ulps. apply Z.pow_pos_nonneg; lia. Qed.

(** Comparisons of integers below 2^53 carried as doubles. *)
Lemma sub_of_Z_gt a b :
  Z.abs a < 2 ^ 53 -> Z.abs b < 2 ^ 53 ->
  gtb (sub (of_Z a) (of_Z b)) zero = true <-> b < a.
Proof.
  intros Ha Hb. rewrite !of_Z_exact by done. rewrite sub_gt_zero.
  pose proof one_ulps_pos. nia.
Qed.

Lemma leb_of_Z a b :
  Z.abs a < 2 ^ 53 -> Z.abs b < 2 ^ 53 ->
  leb (of_Z a) (of_Z b) = true <-> a <= b.
Proof.
  intros Ha Hb. rewrite !of_Z_exact by done. cbn [leb].
  rewrite Z.leb_le. pose proof one_ulps_pos. nia.
Qed.

Lemma weight_of_Z_lt a b :
  Z.abs a < 2 ^ 53 -> Z.abs b < 2 ^ 53 ->
  weight_lt (weight_of ASC (of_Z a)) (weight_of ASC (of_Z b)) <-> a < b.
Proof.
  intros Ha Hb. rewrite !of_Z_exact by done. cbn [weight_of weight_lt].
  pose proof one_ulps_pos. nia.
Qed.

(** The sign of a difference of two numbers, neither of them NaN. *)
Lemma sub_gt_ltb x y :
  x <> NaN -> y <> NaN -> gtb (sub y x) zero = ltb x y.
Proof.
  intros Hx Hy. destruct x as [| | |a], y as [| | |b]; try done.
  cbn [ltb]. destruct (a <? b) eqn:E.
  - apply sub_gt_zero. by apply Z.ltb_lt.
  - apply not_true_is_false. rewrite sub_gt_zero. apply Z.ltb_ge in E. lia.
Qed.

Lemma ltb_irrefl x : ltb x x = false.
Proof. destruct x; try done. cbn. apply Z.ltb_irrefl. Qed.

Lemma ltb_asym x y : ltb x y = true -> ltb y x = false.
Proof.
  destruct x as [| | |a], y as [| | |b]; try done. cbn.
  rewrite Z.ltb_lt, Z.ltb_ge. lia.
Qed.

(** [not (y < x)] is transitive on numbers that are not NaN. *)
Lemma ltb_cotrans x y z :
  y <> NaN -> ltb y x = false -> ltb z y = false -> ltb z x = false.
Proof.
  destruct x as [| | |a], y as [| | |b], z as [| | |c]; try done; cbn.
  rewrite !Z.ltb_ge. lia.
Qed.

Lemma ltb_leb x y : x <> NaN -> y <> NaN -> ltb y x = false -> leb x y = true.
Proof.
  destruct x as [| | |a], y as [| | |b]; try done; cbn.
  rewrite Z.ltb_ge, Z.leb_le. lia.
Qed.

(* ===================================================================== *)
(** ** Sorting by an order *)
(* ===================================================================== *)

(** Sorting with a comparator that follows a strict order whose negation
    is transitive, on the elements of a kind [P]. *)
Section SortByOrder.
Context {A : Type} (cmp : A -> A -> number) (lt : A -> A -> Prop) (P : A -> Prop).
Implicit Types (l : list A) (a b x : A).

Hypothesis lt_asym : forall a b, P a -> P b -> lt a b -> ~ lt b a.
Hypothesis lt_cotrans :
  forall a b c, P a -> P b -> P c -> ~ lt b a -> ~ lt c b -> ~ lt c a.

Lemma follows_on_cons x l : follows_on cmp lt (x :: l) -> follows_on cmp lt l.
Proof. intros H a b Ha Hb. apply H; by right. Qed.

Lemma sort_insert_ordered x l :
  P x -> Forall P l ->
  (forall b, b ∈ l -> (gtb (cmp x b) zero = true <-> lt b x)) ->
  StronglySorted (fun a b => ~ lt b a) l ->
  StronglySorted (fun a b => ~ lt b a) (sort_insert cmp x l).
Proof.
  intros HPx HP Hx Hs. induction Hs as [|y l Hs IH Hall]; cbn [sort_insert].
  - repeat constructor.
  - apply Forall_cons in HP as [HPy HP].
    destruct (gtb (cmp x y) zero) eqn:E.
    + constructor.
      * apply IH; [done|]. intros b Hb. apply Hx. by right.
      * rewrite sort_insert_perm. constructor; [|done].
        apply Hx in E; [|left]. by apply lt_asym.
    + assert (Hxy : ~ lt y x).
      { intros Hlt. apply Hx in Hlt; [congruence|left]. }
      constructor; [by constructor|].
      constructor; [done|].
      rewrite Forall_forall in Hall, HP. apply Forall_forall.
      intros z Hz. cbn beta. eapply (lt_cotrans x y z); auto.
Qed.

Lemma array_sort_ordered l :
  Forall P l -> follows_on cmp lt l ->
  StronglySorted (fun a b => ~ lt b a) (array_sort cmp l).
Proof.
  induction l as [|x l IH]; intros HP Hc; simpl; [constructor|].
  apply Forall_cons in HP as [HPx HP].
  apply sort_insert_ordered.
  - done.
  - by rewrite array_sort_perm.
  - intros b Hb. apply Hc; [left|]. right. by rewrite array_sort_elem_of in Hb.
  - apply IH; [done|]. by eapply follows_on_cons.
Qed.

End SortByOrder.

(** What a sorted list keeps in front is in order before what it leaves. *)
Lemma StronglySorted_take_drop {A} (R : relation A) n l a b :
  StronglySorted R l -> a ∈ take n l -> b ∈ drop n l -> R a b.
Proof.
  intros Hs Ha Hb. rewrite <- (take_drop n l) in Hs.
  by eapply StronglySorted_app_1_elem_of.
Qed.

Lemma StronglySorted_take {A} (R : relation A) n l :
  StronglySorted R l -> StronglySorted R (take n l).
Proof.
  intros Hs. rewrite <- (take_drop n l) in Hs.
  by eapply StronglySorted_app_1_l.
Qed.

(** The ranks [1..n] in order. *)
Lemma seqZ_sorted m n : StronglySorted Z.le (seqZ m n).
Proof.
  destruct (Z_le_gt_dec n 0) as [H|H]; [rewrite seqZ_nil by done; constructor|].
  rewrite <- (Z2Nat.id n) by lia. generalize (Z.to_nat n) as k. clear. intros k.
  revert m. induction k as [|k IH]; intros m.
  - rewrite seqZ_nil by lia. constructor.
  - rewrite seqZ_cons by lia. constructor.
    + replace (Z.pred (Z.of_nat (S k))) with (Z.of_nat k) by lia. apply IH.
    + apply Forall_seqZ. lia.
Qed.

Lemma take_seqZ k m n : take k (seqZ m (Z.of_nat n)) = seqZ m (Z.of_nat (min k n)).
Proof.
  unfold seqZ. rewrite !Nat2Z.id, <- fmap_take. f_equal.
  rewrite take_seq. done.
Qed.

Lemma take_ranks_upto k n : take k (ranks_upto n) = ranks_upto (min k n).
Proof. apply take_seqZ. Qed.

(** A list in non-decreasing order that holds the ranks [1..n] is [1..n]. *)
Lemma sorted_ranks l n :
  StronglySorted Z.le l -> l ≡ₚ ranks_upto n -> l = ranks_upto n.
Proof.
  intros Hs Hp. apply (StronglySorted_unique Z.le); [done|apply seqZ_sorted|done].
Qed.

(* ===================================================================== *)
(** ** The general rank and the total *)
(* ===================================================================== *)

(** *** The ranks of a record, within bounds *)

Lemma calculateRanks_total l s :
  s ∈ calculateRanks l ->
  rankTotal s
  = rankPL s + rankDeviation s + rankDY s + rankMargin s + rankCAGR s + rankDebt s.
Proof.
  intros Hs.
  assert (Hview : sum_view <$> calculateRanks l
                  ≡ₚ sum_view <$> (sum_ranks <$> rank_metrics ranking_order l)).
  { rewrite calculateRanks_view_general.
    - unfold rank_general. apply applyRank_view. intros z s'. by destruct s'.
    - intros s'. unfold write_back. destruct (30 <=? _)%nat; by destruct s'. }
  destruct (view_elem_of sum_view _ _ s Hview Hs) as (s' & Hs' & E).
  apply list_elem_of_fmap in Hs' as (s0 & -> & _).
  injection E as E1 E2 E3 E4 E5 E6 E7.
  rewrite <- E1, <- E2, <- E3, <- E4, <- E5, <- E6, <- E7. by destruct s0.
Qed.

Lemma elem_of_ranks_upto k n : k ∈ ranks_upto n <-> 1 <= k <= Z.of_nat n.
Proof. unfold ranks_upto. rewrite elem_of_seqZ. lia. Qed.

Lemma calculateRanks_rank_range m l s :
  Forall metrics_defined l -> s ∈ calculateRanks l ->
  1 <= metric_rank_of m s <= Z.of_nat (length l).
Proof.
  intros Hl Hs. destruct (calculateRanks_metric m l Hl) as (Hp & _).
  apply elem_of_ranks_upto. rewrite <- Hp. by apply list_elem_of_fmap_2.
Qed.

Lemma calculateRanks_general_range l s :
  s ∈ calculateRanks l -> 1 <= rankGeneral s <= Z.of_nat (length l).
Proof.
  intros Hs. destruct (calculateRanks_general l) as (Hp & _).
  apply elem_of_ranks_upto. rewrite <- Hp. by apply list_elem_of_fmap_2.
Qed.

Lemma calculateRanks_total_range l s :
  Forall metrics_defined l -> s ∈ calculateRanks l ->
  6 <= rankTotal s <= 6 * Z.of_nat (length l).
Proof.
  intros Hl Hs. rewrite (calculateRanks_total l s Hs).
  pose proof (calculateRanks_rank_range PL l s Hl Hs).
  pose proof (calculateRanks_rank_range Deviation l s Hl Hs).
  pose proof (calculateRanks_rank_range DY l s Hl Hs).
  pose proof (calculateRanks_rank_range Margin l s Hl Hs).
  pose proof (calculateRanks_rank_range CAGR l s Hl Hs).
  pose proof (calculateRanks_rank_range Debt l s Hl Hs).
  unfold metric_rank_of in *. cbn [metric_rank rank_of] in *. lia.
Qed.

(** The general rank follows the weight of the total. *)
Lemma calculateRanks_general_directed l A B :
  A ∈ calculateRanks l -> B ∈ calculateRanks l ->
  weight_lt (weight_of ASC (of_Z (rankTotal A))) (weight_of ASC (of_Z (rankTotal B))) ->
  rankGeneral A < rankGeneral B.
Proof.
  intros HA HB Hlt.
  assert (Hview : general_view <$> calculateRanks l
                  ≡ₚ general_view <$> rank_general (rank_metrics ranking_order l)).
  { apply calculateRanks_view_general. intros s. unfold general_view.
    destruct (write_back_fields s) as (_ & Hr & ->).
    pose proof (Hr key_rankDebt) as H1. pose proof (Hr key_rankGeneral) as H2.
    cbn [rank_of] in H1, H2. by rewrite H1, H2. }
  unfold rank_general in Hview.
  set (l_in := sum_ranks <$> rank_metrics ranking_order l) in *.
  assert (Hdef : Forall (fun s => get key_rankTotal s <> NaN) l_in).
  { apply Forall_forall. intros s _. apply of_Z_not_NaN. }
  destruct (view_elem_of _ _ _ A Hview HA) as (A' & HA' & EA).
  destruct (view_elem_of _ _ _ B Hview HB) as (B' & HB' & EB).
  injection EA as EA1 EA2 EA3. injection EB as EB1 EB2 EB3.
  rewrite <- EA3, <- EB3.
  apply (applyRank_directed key_rankTotal key_rankGeneral ASC l_in Hdef A' B'); try done.
  cbn [get]. by rewrite EA1, EB1.
Qed.

(** *** The general rank orders the records by their total *)

(** For every returned result of fewer than 2^53 / 6 records, the total
    of a record lies between 6 and 6 N, a strictly smaller total gives a
    strictly smaller general rank, and so a smaller general rank never
    goes with a larger total. *)
Theorem general_rank_follows_total rawData mode g r A B :
  run (processStockData rawData mode) g = Returns r ->
  6 * Z.of_nat (length (processed r)) < 2 ^ 53 ->
  A ∈ processed r -> B ∈ processed r ->
  6 <= rankTotal A <= 6 * Z.of_nat (length (processed r)) /\
  (rankTotal A < rankTotal B -> rankGeneral A < rankGeneral B) /\
  (rankGeneral A < rankGeneral B -> rankTotal A <= rankTotal B).
Proof.
  intros [_ Hproc]%processStockData_returns. rewrite Hproc.
  set (l := run (stocks_before_ranking rawData mode) g).
  rewrite calculateRanks_length. intros Hn HA HB.
  pose proof (stocks_before_ranking_defined rawData mode g) as Hdef. fold l in Hdef.
  pose proof (calculateRanks_total_range l A Hdef HA) as RA.
  pose proof (calculateRanks_total_range l B Hdef HB) as RB.
  assert (Hdir : forall X Y, X ∈ calculateRanks l -> Y ∈ calculateRanks l ->
            6 <= rankTotal X <= 6 * Z.of_nat (length l) ->
            6 <= rankTotal Y <= 6 * Z.of_nat (length l) ->
            rankTotal X < rankTotal Y -> rankGeneral X < rankGeneral Y).
  { intros X Y HX HY RX RY Hlt. apply (calculateRanks_general_directed l); try done.
    apply weight_of_Z_lt; lia. }
  split; [done|]. split; [by apply Hdir|].
  intros Hg. destruct (Z_le_gt_dec (rankTotal A) (rankTotal B)) as [|Hgt]; [done|].
  pose proof (Hdir B A HB HA RB RA ltac:(lia)). lia.
Qed.

Lemma general_rank_follows_total_witness :
  exists r A B,
    run (processStockData neto_sample neto) half_source = Returns r /\
    processed r !! 0%nat = Some A /\ processed r !! 2%nat = Some B /\
    rankTotal A < rankTotal B /\ rankGeneral A < rankGeneral B.
Proof.
  eexists _, _, _.
  split; [vm_compute; reflexivity|].
  split; [vm_compute; reflexivity|].
  split; [vm_compute; reflexivity|].
  assert (Hlt : forall x y : Z, (x ?= y) = Lt -> x < y) by (intros; by apply Z.compare_lt_iff).
  match goal with |- ?P /\ _ => assert (H : P) by (apply Hlt; vm_compute; reflexivity) end.
  split; [exact H|].
  refine (proj1 (proj2 (general_rank_follows_total neto_sample neto half_source _ _ _ _ _ _ _)) H).
  - vm_compute; reflexivity.
  - vm_compute; reflexivity.
  - apply list_elem_of_lookup_2 with 0%nat. reflexivity.
  - apply list_elem_of_lookup_2 with 2%nat. reflexivity.
Defined.

(* ===================================================================== *)
(** ** The parsed fields *)
(* ===================================================================== *)

(** *** What the ranking leaves of a record *)

Lemma core_calculateRanks l : core <$> calculateRanks l ≡ₚ core <$> l.
Proof.
  apply calculateRanks_view_all.
  - intros t z s. apply core_set_rank.
  - intros s. by destruct (sum_ranks_fields s) as (-> & _).
  - intros s. by destruct (write_back_fields s) as (-> & _).
Qed.

Lemma calculateRanks_core l s :
  s ∈ calculateRanks l -> exists s0, s0 ∈ l /\ core s0 = core s.
Proof. apply (view_elem_of core), core_calculateRanks. Qed.




(** A property of every record handed to the ranking engine that holds
    of what each row gives, whatever the generator returns. *)
Lemma stocks_before_ranking_Forall (P : StockData -> Prop) rawData mode g :
  match mode with
  | neto => forall row g', P (neto_priceDiff (run (neto_stock row) g'))
  | standard => forall row g', P (run (standard_stock row) g')
  end ->
  Forall P (run (stocks_before_ranking rawData mode) g).
Proof.
  destruct mode; intros H; cbn [stocks_before_ranking].
  - apply array_mapM_Forall. auto.
  - rewrite neto_stocks_run. apply Forall_fmap.
    apply (array_mapM_Forall neto_stock (fun s => P (neto_priceDiff s))). auto.
Qed.

(** *** No parsed field is NaN *)

Lemma neto_price_formula rawData g s :
  s ∈ run (stocks_before_ranking rawData neto) g ->
  priceDiff s =
    if gtb (currentPrice s) zero && gtb (fairPrice s) zero
    then price_difference s else zero.
Proof.
  revert s. apply Forall_forall.
  apply (stocks_before_ranking_Forall _ rawData neto g).
  intros row g'. destruct (neto_stock_run row g') as [i ->].
  unfold neto_priceDiff, price_difference. cbn [currentPrice fairPrice priceDiff].
  destruct (gtb _ zero && gtb _ zero) eqn:E; cbn [set_priceDiff currentPrice fairPrice priceDiff].
  - by rewrite E.
  - by rewrite E.
Qed.

Lemma hundred_exact : of_Z 100 = Fin (100 * one_ulps).
Proof. apply of_Z_exact. lia. Qed.

Lemma mul_hundred_NaN x : mul x (of_Z 100) = NaN <-> x = NaN.
Proof.
  rewrite hundred_exact. pose proof one_ulps_pos as HU.
  assert (E : (100 * one_ulps =? 0) = false) by (apply Z.eqb_neq; lia).
  assert (E' : (100 * one_ulps <? 0) = false) by (apply Z.ltb_ge; lia).
  destruct x as [| | |a]; cbn [mul]; rewrite ?E, ?E'; try done.
  split; [|done]. intros H. by apply rnd_not_NaN in H.
Qed.

(** The price difference of neto mode is NaN for an infinite ceiling
    price only. *)
Lemma price_difference_NaN s :
  currentPrice s <> NaN -> fairPrice s <> NaN ->
  gtb (currentPrice s) zero = true -> gtb (fairPrice s) zero = true ->
  (price_difference s = NaN <-> fairPrice s = PInf).
Proof.
  unfold price_difference. rewrite mul_hundred_NaN.
  destruct (currentPrice s) as [| | |c], (fairPrice s) as [| | |f]; try done.
  - intros _ _ _ Hf. assert (0 < f) by (by apply Z.ltb_lt in Hf).
    cbn [sub opp add div].
    replace (f <? 0) with false by (symmetry; apply Z.ltb_ge; lia). done.
  - intros _ _ _ Hf. assert (0 < f) by (by apply Z.ltb_lt in Hf).
    rewrite sub_Fin. pose proof (rnd_not_NaN (c - f) 1) as Hx.
    destruct (rnd (c - f) 1) as [| | |a]; [done|..]; cbn [div].
    + replace (f <? 0) with false by (symmetry; apply Z.ltb_ge; lia). done.
    + replace (f <? 0) with false by (symmetry; apply Z.ltb_ge; lia). done.
    + replace (f =? 0) with false by (symmetry; apply Z.eqb_neq; lia).
      split; [|done]. intros H'. by apply rnd_not_NaN in H'.
Qed.

(** Every parsed field of a returned record is a number or an infinity,
    never NaN.  So is the price difference of standard mode, which comes
    from the parser; the computed price difference of neto mode is NaN
    exactly when the current price is positive and the ceiling price is
    +Infinity. *)
Theorem parsed_fields_are_never_NaN rawData mode g r s :
  run (processStockData rawData mode) g = Returns r ->
  s ∈ processed r ->
  Forall (fun v => v <> NaN)
    [plProjected s; plDeviation s; dy s; marginSafety s; cagr s; debtEbitda s;
     currentPrice s; fairPrice s] /\
  match mode with
  | standard => priceDiff s <> NaN
  | neto => priceDiff s = NaN <->
            gtb (currentPrice s) zero = true /\ fairPrice s = PInf
  end.
Proof.
  intros [_ Hproc]%processStockData_returns Hs. rewrite Hproc in Hs.
  destruct (calculateRanks_core _ s Hs) as (s0 & Hs0 & Ecore).
  unfold core in Ecore.
  injection Ecore as _ _ _ _ E1 E2 E3 E4 E5 E6 E7 E8 E9.
  rewrite <- E1, <- E2, <- E3, <- E4, <- E5, <- E6, <- E7, <- E8, <- E9.
  assert (Hall : Forall (fun s0 =>
            Forall (fun v => v <> NaN)
              [plProjected s0; plDeviation s0; dy s0; marginSafety s0; cagr s0;
               debtEbitda s0; currentPrice s0; fairPrice s0])
            (run (stocks_before_ranking rawData mode) g)).
  { apply stocks_before_ranking_Forall. destruct mode.
    - intros row g'. destruct (standard_stock_run row g') as [i ->].
      cbn [plProjected plDeviation dy marginSafety cagr debtEbitda currentPrice fairPrice].
      repeat constructor; apply parseBRNumber_not_NaN.
    - intros row g'. destruct (neto_stock_run row g') as [i ->].
      unfold neto_priceDiff. destruct (_ && _);
        cbn [set_priceDiff plProjected plDeviation dy marginSafety cagr debtEbitda
             currentPrice fairPrice];
        repeat constructor; apply parseBRNumber_not_NaN. }
  rewrite Forall_forall in Hall. pose proof (Hall s0 Hs0) as Hf.
  split; [done|]. destruct mode.
  - assert (HP : Forall (fun s0 => priceDiff s0 <> NaN)
                   (run (stocks_before_ranking rawData standard) g)).
    { apply (stocks_before_ranking_Forall _ rawData standard g).
      intros row g'. destruct (standard_stock_run row g') as [i ->].
      apply parseBRNumber_not_NaN. }
    rewrite Forall_forall in HP. by apply HP.
  - rewrite (neto_price_formula rawData g s0 Hs0).
    apply Forall_cons in Hf as [_ Hf]. apply Forall_cons in Hf as [_ Hf].
    apply Forall_cons in Hf as [_ Hf]. apply Forall_cons in Hf as [_ Hf].
    apply Forall_cons in Hf as [_ Hf]. apply Forall_cons in Hf as [_ Hf].
    apply Forall_cons in Hf as [Hc Hf]. apply Forall_cons in Hf as [Hfp _].
    destruct (gtb (currentPrice s0) zero) eqn:Ec; cbn [andb].
    + destruct (gtb (fairPrice s0) zero) eqn:Ef.
      * rewrite (price_difference_NaN s0 Hc Hfp Ec Ef). tauto.
      * split; [done|]. intros [_ HP]. rewrite HP in Ef. done.
    + split; [done|]. intros [? _]. done.
Qed.

Lemma parsed_fields_are_never_NaN_witness :
  exists r s,
    run (processStockData infinite_ceiling_sample neto) half_source = Returns r /\
    processed r !! 0%nat = Some s /\
    fairPrice s = PInf /\ priceDiff s = NaN /\ currentPrice s <> NaN.
Proof.
  eexists _, _.
  split; [vm_compute; reflexivity|].
  split; [vm_compute; reflexivity|].
  split; [vm_compute; reflexivity|].
  destruct (parsed_fields_are_never_NaN infinite_ceiling_sample neto half_source _ _
              ltac:(vm_compute; reflexivity)
              ltac:(apply list_elem_of_lookup_2 with 0%nat; reflexivity))
    as (Hf & Hn).
  split.
  - apply Hn. split; vm_compute; reflexivity.
  - apply Forall_cons in Hf as [_ Hf]. apply Forall_cons in Hf as [_ Hf].
    apply Forall_cons in Hf as [_ Hf]. apply Forall_cons in Hf as [_ Hf].
    apply Forall_cons in Hf as [_ Hf]. apply Forall_cons in Hf as [_ Hf].
    apply Forall_cons in Hf as [Hc _]. exact Hc.
Defined.

(* ===================================================================== *)
(** ** The ticker column and the id *)
(* ===================================================================== *)

(** *** The record and its display row agree on the ticker *)

Lemma write_back_frame s i :
  i ∉ rank_columns -> at_index (raw (write_back s)) i = at_index (raw s) i.
Proof.
  intros Hi. unfold at_index.
  destruct (le_lt_dec 30 (length (raw s))) as [Hl|Hl].
  - destruct (write_back_long s Hl) as (_ & _ & _ & _ & _ & _ & _ & _ & _ & Hf).
    by rewrite Hf.
  - by rewrite write_back_short.
Qed.

Lemma write_back_length s : length (raw (write_back s)) = length (raw s).
Proof.
  destruct (le_lt_dec 30 (length (raw s))) as [Hl|Hl].
  - by destruct (write_back_long s Hl) as (_ & _ & _ & _ & _ & _ & _ & _ & ? & _).
  - by rewrite write_back_short.
Qed.



(* ===================================================================== *)
(** ** More of the parser *)
(* ===================================================================== *)

(** *** The parser deletes its marks wherever they stand *)

Lemma remove_all_twice (p q : ascii -> bool) s :
  remove_all q (remove_all p s) = remove_all (fun c => p c || q c) s.
Proof.
  induction s as [|c s IH]; [done|]. cbn [remove_all].
  destruct (p c); cbn [orb remove_all]; [done|].
  destruct (q c); by rewrite IH.
Qed.

Lemma remove_all_idem (p : ascii -> bool) s :
  remove_all p (remove_all p s) = remove_all p s.
Proof.
  induction s as [|c s IH]; [done|]. cbn [remove_all].
  destruct (p c) eqn:E; cbn [remove_all]; [done|]. by rewrite E, IH.
Qed.

Lemma remove_all_weaker (p q : ascii -> bool) s :
  (forall c, q c = true -> p c = true) ->
  remove_all q (remove_all p s) = remove_all p s.
Proof.
  intros H. induction s as [|c s IH]; [done|]. cbn [remove_all].
  destruct (p c) eqn:E; cbn [remove_all]; [done|].
  destruct (q c) eqn:E'; [|by rewrite IH].
  apply H in E'. congruence.
Qed.

Lemma parseFloat_empty : parseFloat "" = NaN.
Proof. reflexivity. Qed.

Lemma parseBRNumber_clean s :
  parseBRNumber (Some s)
  = let num := parseFloat (replace_first "," "." (remove_all is_mark s)) in
    if isNaN num then NInf else num.
Proof.
  unfold parseBRNumber. destruct s as [|c s]; [done|].
  by rewrite remove_all_twice.
Qed.

(** The currency letters, percent signs, white space and dots of a text
    never change what the parser reads from it: a text parses as the
    text with all of them deleted, and inserting one of them anywhere
    changes nothing.  In particular a dot is never a decimal point. *)
Theorem parser_ignores_marks :
  (forall s, parseBRNumber (Some s) = parseBRNumber (Some (remove_all is_mark s))) /\
  (forall a c b, is_mark c = true ->
     parseBRNumber (Some (a +:+ String c b)) = parseBRNumber (Some (a +:+ b))).
Proof.
  assert (H : forall s, parseBRNumber (Some s) = parseBRNumber (Some (remove_all is_mark s))).
  { intros s. by rewrite !parseBRNumber_clean, remove_all_idem. }
  split; [exact H|].
  intros a c b Hc. rewrite (H (a +:+ String c b)), (H (a +:+ b)).
  rewrite !remove_all_app. cbn [remove_all]. by rewrite Hc.
Qed.

(** *** Signed numerals and numerals without a decimal part *)

Lemma rnd_opp n d : 0 < d -> rnd (- n) d = opp (rnd n d).
Proof.
  intros Hd. unfold rnd. rewrite Z.abs_opp.
  destruct (Z.eq_dec n 0) as [->|Hn].
  { cbn [Z.opp Z.abs]. rewrite round_pos_zero by done.
    replace (overflow_ulps <=? 0) with false; [done|].
    symmetry. apply Z.leb_gt. unfold overflow_ulps. apply Z.pow_pos_nonneg; lia. }
  destruct (overflow_ulps <=? _).
  - destruct (Z.ltb_spec n 0), (Z.ltb_spec (- n) 0); try done; lia.
  - cbn [opp]. f_equal. rewrite Z.sgn_opp. apply Z.mul_opp_l.
Qed.

Lemma of_decimal_opp m e : of_decimal (- m) e = opp (of_decimal m e).
Proof.
  unfold of_decimal. destruct (Z.leb_spec 0 e).
  - rewrite <- rnd_opp by lia. f_equal. ring.
  - rewrite <- rnd_opp by (apply Z.pow_pos_nonneg; lia). f_equal. ring.
Qed.

Lemma digit_sign c t :
  isDigit c = true ->
  match String c t with
  | String "-" r => (true, r)
  | String "+" r => (false, r)
  | _ => (false, String c t)
  end = (false, String c t).
Proof. revert c. intros c. by_char c. Qed.

Lemma parseFloat_minus c t :
  isDigit c = true -> parseFloat (String "-" (String c t)) = opp (parseFloat (String c t)).
Proof.
  intros Hc. unfold parseFloat.
  change (trimStart (String "-" (String c t))) with (String "-" (String c t)).
  cbn [trimStart]. rewrite (digit_not_space c Hc), (digit_sign c t Hc).
  cbv iota beta.
  destruct (startsWith "Infinity" (String c t)); [done|].
  destruct (span_digits (String c t)) as [ip r1].
  destruct (match r1 with String "." r => span_digits r | _ => ([], r1) end) as [fp r2].
  destruct ip, fp; try done; apply of_decimal_opp.
Qed.

Lemma parseFloat_plus c t :
  isDigit c = true -> parseFloat (String "+" (String c t)) = parseFloat (String c t).
Proof.
  intros Hc. unfold parseFloat.
  change (trimStart (String "+" (String c t))) with (String "+" (String c t)).
  cbn [trimStart]. rewrite (digit_not_space c Hc), (digit_sign c t Hc).
  reflexivity.
Qed.

Lemma parseFloat_integer c int :
  isDigit c = true -> all_digits int = true ->
  parseFloat (String c int) = decimal_value (String c int) "".
Proof.
  intros Hc Hint. unfold parseFloat.
  cbn [trimStart]. rewrite (digit_not_space c Hc), (digit_sign c int Hc).
  assert (Hinf : startsWith "Infinity" (String c int) = false).
  { revert Hc. clear. by_char c. }
  rewrite Hinf.
  rewrite <- (app_empty_r (String c int)) at 1.
  rewrite (span_digits_app (String c int) "");
    [|by cbn [all_digits]; rewrite Hc|done].
  cbv iota beta. unfold decimal_value.
  rewrite app_nil_r, app_empty_r. cbn [exponent_part String.length length].
  destruct (digit_values (String c int)) eqn:E; [done|]. reflexivity.
Qed.

Lemma digit_not_mark c : isDigit c = true -> is_mark c = false.
Proof.
  intros Hc. unfold is_mark. rewrite (digit_not_symbol c Hc), (digit_not_dot c Hc). done.
Qed.

Lemma remove_marks_groups groups :
  Forall (fun g => all_digits g = true) groups ->
  remove_all is_mark (concat_groups "." groups) = concat_groups "" groups.
Proof.
  induction 1 as [|g gs Hg _ IH]; [done|]. cbn [concat_groups].
  rewrite app_cons, app_empty_l. cbn [remove_all].
  change (is_mark ".") with true. cbv iota.
  rewrite remove_all_app, IH, (remove_all_digits is_mark g digit_not_mark Hg).
  by rewrite app_empty_l.
Qed.

Lemma decimal_value_not_NaN int frac : isNaN (decimal_value int frac) = false.
Proof. apply of_decimal_isNaN. Qed.

Lemma opp_isNaN x : isNaN (opp x) = isNaN x.
Proof. by destruct x. Qed.

Lemma parseBRNumber_sheet_numeral sign d0 groups frac pct :
  sign ∈ [""; "-"; "+"] ->
  all_digits d0 = true -> d0 <> "" ->
  Forall (fun g => all_digits g = true) groups ->
  all_digits (default "" frac) = true ->
  parseBRNumber (Some (sheet_numeral sign d0 groups frac pct))
  = if bool_decide (sign = "-")
    then opp (decimal_value (integer_digits d0 groups) (default "" frac))
    else decimal_value (integer_digits d0 groups) (default "" frac).
Proof.
  intros Hsign Hd0 Hne Hg Hfrac.
  destruct d0 as [|c d0]; [done|]. clear Hne.
  cbn [all_digits] in Hd0. apply andb_true_iff in Hd0 as [Hc Hd0].
  assert (Hcd : all_digits (String c d0) = true) by (cbn; by rewrite Hc).
  set (int := integer_digits (String c d0) groups).
  assert (Hint : int = String c (d0 +:+ concat_groups "" groups)) by done.
  assert (Hid : all_digits (d0 +:+ concat_groups "" groups) = true).
  { by rewrite all_digits_app, Hd0, all_digits_groups. }
  set (tail := match frac with Some f => "." +:+ f | None => "" end).
  assert (Hclean : replace_first "," "." (remove_all is_mark (sheet_numeral sign (String c d0) groups frac pct))
                   = sign +:+ int +:+ tail).
  { unfold sheet_numeral. rewrite !remove_all_app.
    rewrite (remove_all_digits is_mark (String c d0) digit_not_mark Hcd).
    rewrite remove_marks_groups by done.
    replace (remove_all is_mark (if pct then "%" else "")) with "" by by destruct pct.
    rewrite app_empty_r.
    replace (remove_all is_mark sign) with sign.
    2:{ apply elem_of_cons in Hsign as [->|Hsign]; [done|].
        apply elem_of_cons in Hsign as [->|Hsign]; [done|].
        apply elem_of_cons in Hsign as [->|Hsign]; [done|].
        by apply elem_of_nil in Hsign. }
    assert (Hbody : replace_first "," "."
              (String c d0 +:+ concat_groups "" groups +:+
               remove_all is_mark (match frac with Some f => "," +:+ f | None => "" end))
              = int +:+ tail).
    { rewrite replace_first_digits by done.
      rewrite replace_first_digits by by apply all_digits_groups.
      rewrite Hint, app_cons, <- app_assoc_string. do 2 f_equal.
      unfold tail. destruct frac as [f|]; [|done].
      rewrite app_cons, app_empty_l. cbn [remove_all].
      change (is_mark ",") with false. cbv iota. cbn [replace_first].
      change (Ascii.eqb "," ",") with true. cbv iota.
      rewrite (remove_all_digits is_mark f digit_not_mark Hfrac).
      reflexivity. }
    apply elem_of_cons in Hsign as [->|Hsign]; [by rewrite !app_empty_l|].
    apply elem_of_cons in Hsign as [->|Hsign].
    { rewrite (app_cons "-" ""), app_empty_l. cbn [replace_first].
      change (Ascii.eqb "-" ",") with false. cbv iota. by rewrite Hbody. }
    apply elem_of_cons in Hsign as [->|Hsign]; [|by apply elem_of_nil in Hsign].
    rewrite (app_cons "+" ""), app_empty_l. cbn [replace_first].
    change (Ascii.eqb "+" ",") with false. cbv iota. by rewrite Hbody. }
  rewrite parseBRNumber_clean, Hclean. cbv zeta.
  assert (Hbody : parseFloat (int +:+ tail)
                  = decimal_value int (default "" frac)).
  { unfold tail. destruct frac as [f|].
    - rewrite Hint. apply parseFloat_numeral; done.
    - rewrite app_empty_r, Hint. by apply parseFloat_integer. }
  assert (Hshape : int +:+ tail = String c ((d0 +:+ concat_groups "" groups) +:+ tail)).
  { by rewrite Hint, app_cons. }
  apply elem_of_cons in Hsign as [->|Hsign].
  { rewrite app_empty_l, Hbody, decimal_value_not_NaN.
    by rewrite bool_decide_eq_false_2. }
  apply elem_of_cons in Hsign as [->|Hsign].
  { rewrite app_cons, app_empty_l, Hshape, parseFloat_minus by done.
    rewrite <- Hshape, Hbody, opp_isNaN, decimal_value_not_NaN.
    by rewrite bool_decide_eq_true_2. }
  apply elem_of_cons in Hsign as [->|Hsign]; [|by apply elem_of_nil in Hsign].
  rewrite app_cons, app_empty_l, Hshape, parseFloat_plus by done.
  rewrite <- Hshape, Hbody, decimal_value_not_NaN.
  by rewrite bool_decide_eq_false_2.
Qed.

(** The parser on the numerals of the sheets: with an optional sign, with
    or without a decimal part, with or without a percent sign, the
    result is the double nearest to the decimal the digits denote,
    negated after a minus sign. *)
Theorem parser_on_sheet_numerals sign d0 groups frac pct :
  sign ∈ [""; "-"; "+"] ->
  all_digits d0 = true -> d0 <> "" ->
  Forall (fun g => all_digits g = true) groups ->
  all_digits (default "" frac) = true ->
  parseBRNumber (Some (sheet_numeral sign d0 groups frac pct))
  = if bool_decide (sign = "-")
    then opp (decimal_value (integer_digits d0 groups) (default "" frac))
    else decimal_value (integer_digits d0 groups) (default "" frac).
Proof. apply parseBRNumber_sheet_numeral. Qed.

Lemma parser_on_sheet_numerals_witness :
  parseBRNumber (Some (sheet_numeral "-" "21" [] (Some "30") true))
  = opp (decimal_value "21" "30") /\
  sheet_numeral "-" "21" [] (Some "30") true = "-21,30%".
Proof.
  split; [|reflexivity].
  rewrite (parser_on_sheet_numerals "-" "21" [] (Some "30") true);
    [|repeat constructor|reflexivity|discriminate|constructor|reflexivity].
  rewrite bool_decide_eq_true_2 by reflexivity. reflexivity.
Defined.

(* ===================================================================== *)
(** ** The application shell *)
(* ===================================================================== *)

(** *** The shell of the application *)

Lemma returned_rows_long rawData mode g s :
  s ∈ calculateRanks (run (stocks_before_ranking rawData mode) g) ->
  (length (match mode with neto => NETO_INVEST_HEADERS | standard => STANDARD_HEADERS end)
   <= length (raw s))%nat.
Proof.
  intros Hs.
  destruct (calculateRanks_origin _ s (stocks_before_ranking_long _ _ _) Hs)
    as (s0 & s1 & Hs0 & _ & Hraw & ->).
  rewrite write_back_length, Hraw. destruct mode.
  - destruct (standard_stocks_rows _ _ _ Hs0) as (row & _ & ->). apply pad_row_length.
  - destruct (neto_stocks_rows _ _ _ Hs0) as (row & _ & ->). apply pad_row_length.
Qed.

Lemma handleProcess_run rawData mode st g :
  run (App.handleProcess rawData mode st) g =
  match run (processStockData rawData mode) g with
  | Returns r =>
      ({| App.data := processed r; App.headers := headers r;
          App.initialHiddenCols := initialHiddenColumns r;
          App.layoutConfig := Some (layoutConfig r); App.view := App.dashboard |}, [])
  | Throws error =>
      (st, [App.alert "Erro ao processar dados. Verifique se o formato corresponde ao modo selecionado.";
            App.console_error error])
  end.
Proof.
  unfold App.handleProcess. rewrite run_bind.
  destruct (run (processStockData rawData mode) g) as [[p h i l]|e]; by rewrite run_ret.
Qed.

Lemma processed_nonempty rawData mode g r :
  run (processStockData rawData mode) g = Returns r -> processed r <> [].
Proof.
  intros [Hlen Hproc]%processStockData_returns. rewrite Hproc.
  intros E. apply (f_equal length) in E.
  rewrite calculateRanks_length, stocks_before_ranking_length in E. cbn in E. lia.
Qed.

Lemma step_invariant e st g :
  shell_invariant st -> shell_invariant (run (App.step e st) g).
Proof.
  intros Hinv. destruct e as [rawData mode|]; cbn [App.step].
  - rewrite run_bind, run_ret, handleProcess_run.
    destruct (run (processStockData rawData mode) g) as [r|e] eqn:E; [|done].
    cbn [fst]. unfold shell_invariant. cbn [App.view App.data App.layoutConfig App.headers].
    split; [by eapply processed_nonempty|]. split; [done|].
    pose proof E as [_ Hproc]%processStockData_returns.
    assert (Hh : headers r = match mode with
                             | neto => NETO_INVEST_HEADERS
                             | standard => STANDARD_HEADERS end).
    { rewrite processStockData_run in E. destruct (_ <? _)%nat; [done|].
      by injection E as <-. }
    rewrite Hh, Hproc. apply Forall_forall. intros s. apply returned_rows_long.
  - by rewrite run_ret.
Qed.

Lemma session_invariant events st g :
  shell_invariant st -> shell_invariant (run (App.session events st) g).
Proof.
  revert st g. induction events as [|e events IH]; intros st g Hinv; cbn [App.session].
  - by rewrite run_ret.
  - rewrite run_bind. apply IH. by apply step_invariant.
Qed.

(** Whatever the user pastes, processes and resets, the dashboard is on
    screen exactly while there are records: in the dashboard view there
    is at least one record, the layout is set, every display row has a
    cell for every header and the table can be copied; in the input view
    there is no record, no layout and nothing to copy. *)
Theorem dashboard_shows_records events g :
  match App.view (run (App.session events App.initial) g) with
  | App.dashboard =>
      App.data (run (App.session events App.initial) g) <> [] /\
      is_Some (App.layoutConfig (run (App.session events App.initial) g)) /\
      Forall (fun s => (length (App.headers (run (App.session events App.initial) g))
                        <= length (raw s))%nat)
        (App.data (run (App.session events App.initial) g)) /\
      is_Some (App.handleCopy (run (App.session events App.initial) g))
  | App.input =>
      App.data (run (App.session events App.initial) g) = [] /\
      App.layoutConfig (run (App.session events App.initial) g) = None /\
      App.handleCopy (run (App.session events App.initial) g) = None
  end.
Proof.
  pose proof (session_invariant events App.initial g ltac:(done)) as Hinv.
  unfold shell_invariant in Hinv. unfold App.handleCopy.
  destruct (App.view _).
  - destruct Hinv as (Hd & Hl). by rewrite Hd.
  - destruct Hinv as (Hd & Hl & Hr). repeat split; try done.
    destruct (App.data _); [done|]. by eexists.
Qed.

(** An import fails exactly on a text that is a single line once
    trimmed: the state is left as it was and the alert is raised;
    otherwise the result becomes the state, the dashboard is shown and
    nothing is raised. *)
Theorem import_failure_is_reported rawData mode st g :
  (line_breaks (trim rawData) = 0%nat ->
   run (App.handleProcess rawData mode st) g
   = (st, [App.alert "Erro ao processar dados. Verifique se o formato corresponde ao modo selecionado.";
           App.console_error "Dados insuficientes."])) /\
  (line_breaks (trim rawData) <> 0%nat ->
   exists st',
     run (App.handleProcess rawData mode st) g = (st', []) /\
     App.view st' = App.dashboard /\
     length (App.data st') = line_breaks (trim rawData)).
Proof.
  rewrite handleProcess_run, processStockData_run, split_rows_length.
  split; intros H.
  - rewrite H. done.
  - destruct (S (line_breaks (trim rawData)) <? 2)%nat eqn:E.
    { apply Nat.ltb_lt in E. lia. }
    eexists. split; [reflexivity|]. split; [done|].
    cbn [App.data processed].
    rewrite calculateRanks_length, stocks_before_ranking_length, split_rows_length. lia.
Qed.

(** *** Copying the table and pasting it back *)

Lemma join_foldl_app sep (a b : string) ps :
  foldl (fun acc q => acc +:+ String sep q) (a +:+ b) ps
  = a +:+ foldl (fun acc q => acc +:+ String sep q) b ps.
Proof.
  revert b. induction ps as [|q ps IH]; intros b; [done|].
  cbn [foldl]. by rewrite app_assoc_string, IH.
Qed.

Lemma join_cons sep p q ps :
  join sep (p :: q :: ps) = p +:+ String sep (join sep (q :: ps)).
Proof.
  unfold join. cbn [foldl]. rewrite join_foldl_app. f_equal.
  change (String sep q) with (String sep "" +:+ q).
  by rewrite join_foldl_app.
Qed.

Lemma split_free sep s : free_of sep s = true -> split sep s = [s].
Proof.
  induction s as [|c s IH]; [done|]. cbn [free_of split].
  intros [Hc Hs]%andb_true_iff. apply negb_true_iff in Hc. rewrite Hc.
  by rewrite IH.
Qed.

Lemma split_app_sep sep p rest :
  free_of sep p = true ->
  split sep (p +:+ String sep rest) = p :: split sep rest.
Proof.
  induction p as [|c p IH].
  - intros _. rewrite app_empty_l. cbn [split]. by rewrite Ascii.eqb_refl.
  - cbn [free_of]. intros [Hc Hp]%andb_true_iff. apply negb_true_iff in Hc.
    rewrite app_cons. cbn [split]. by rewrite Hc, IH.
Qed.

Lemma split_join sep l :
  l <> [] -> Forall (fun p => free_of sep p = true) l -> split sep (join sep l) = l.
Proof.
  intros Hne Hl. induction Hl as [|p l Hp Hl IH]; [done|].
  destruct l as [|q l].
  - by apply split_free.
  - rewrite join_cons, split_app_sep by done. f_equal. by apply IH.
Qed.

Lemma free_of_app sep a b :
  free_of sep (a +:+ b) = free_of sep a && free_of sep b.
Proof.
  induction a as [|c a IH]; [done|]. rewrite app_cons. cbn [free_of].
  by rewrite IH, andb_assoc.
Qed.

(** A joined row has none of a character that its cells and the
    separator do not have. *)
Lemma free_of_join sep c l :
  Ascii.eqb sep c = false ->
  Forall (fun p => free_of c p = true) l -> free_of c (join sep l) = true.
Proof.
  intros Hsep Hl. induction Hl as [|p l Hp Hl IH]; [done|].
  destruct l as [|q l]; [done|].
  rewrite join_cons, free_of_app, Hp. cbn [free_of andb].
  by rewrite Hsep, IH.
Qed.

(** The text [handleCopy] hands to the clipboard splits back into the
    header row and the display rows ([undefined] cells as empty
    strings), whenever no cell holds a tab or a line break and trimming
    leaves the text alone; a second import of it, in either mode, does
    not throw and gives as many records. *)
Theorem copied_table_splits_back st text :
  App.handleCopy st = Some text ->
  App.headers st <> [] ->
  Forall plain_cell (App.headers st) ->
  Forall (fun s => raw s <> [] /\ Forall (fun c => plain_cell (default "" c)) (raw s))
    (App.data st) ->
  trim text = text ->
  split_rows text
  = (Some <$> App.headers st)
    :: ((fun s => (fun c => Some (default "" c)) <$> raw s) <$> App.data st) /\
  forall mode g, exists r,
    run (processStockData text mode) g = Returns r /\
    length (processed r) = length (App.data st).
Proof.
  unfold App.handleCopy. intros Hcopy Hh Hhp Hrows Htrim.
  destruct (App.data st) as [|s0 rest] eqn:Edata; [done|].
  rewrite <- Edata in *. injection Hcopy as <-.
  assert (Hsplit : split_rows
            (join "009" (App.headers st)
             +:+ String "010" (join "010" ((fun stock => array_join "009" (raw stock)) <$> App.data st)))
            = (Some <$> App.headers st)
              :: ((fun s => (fun c => Some (default "" c)) <$> raw s) <$> App.data st)).
  { unfold split_rows. rewrite Htrim.
    rewrite split_app_sep.
    2:{ apply free_of_join; [done|]. eapply Forall_impl; [exact Hhp|]. by intros h [_ ?]. }
    rewrite split_join.
    2:{ rewrite Edata. done. }
    2:{ apply Forall_fmap. eapply Forall_impl; [exact Hrows|].
        intros s [_ Hs]. cbn beta. unfold array_join.
        apply free_of_join; [done|]. apply Forall_fmap.
        eapply Forall_impl; [exact Hs|]. by intros c [_ ?]. }
    cbn [fmap list_fmap]. f_equal.
    - f_equal. apply split_join; [done|].
      eapply Forall_impl; [exact Hhp|]. by intros h [? _].
    - rewrite <- list_fmap_compose. apply Forall_fmap_ext_1.
      eapply Forall_impl; [exact Hrows|]. intros s [Hne Hs]. cbn beta.
      unfold compose, array_join. rewrite split_join.
      + by rewrite <- list_fmap_compose.
      + intros E. apply fmap_nil_inv in E. done.
      + apply Forall_fmap. eapply Forall_impl; [exact Hs|]. by intros c [? _]. }
  split; [exact Hsplit|].
  intros mode g. rewrite processStockData_run, Hsplit.
  assert (Hlen : (0 < length (App.data st))%nat) by (rewrite Edata; cbn; lia).
  cbn [length]. rewrite length_fmap.
  destruct (S (length (App.data st)) <? 2)%nat eqn:E; [apply Nat.ltb_lt in E; lia|].
  eexists. split; [reflexivity|]. cbn [processed].
  rewrite calculateRanks_length, stocks_before_ranking_length, Hsplit.
  cbn [length]. rewrite length_fmap. lia.
Qed.

Lemma copied_table_splits_back_witness :
  App.handleCopy linked_state = Some linked_copy /\
  length (split_rows linked_copy) = 2%nat.
Proof.
  assert (Hc : App.handleCopy linked_state = Some linked_copy) by (vm_compute; reflexivity).
  split; [exact Hc|].
  rewrite (proj1 (copied_table_splits_back linked_state linked_copy Hc
                    ltac:(vm_compute; discriminate)
                    ltac:(vm_compute; repeat constructor)
                    ltac:(vm_compute; repeat constructor; discriminate)
                    ltac:(vm_compute; reflexivity))).
  vm_compute; reflexivity.
Defined.

(* ===================================================================== *)
(** ** The columns of the table *)
(* ===================================================================== *)

(** *** The columns of the table *)

Lemma returned_layout rawData mode g r :
  run (processStockData rawData mode) g = Returns r ->
  headers r = match mode with neto => NETO_INVEST_HEADERS | standard => STANDARD_HEADERS end /\
  layoutConfig r
  = match mode with
    | neto => {| stickyIndices := [0; 1]%nat; companyIndex := 0; tickerIndex := 1;
                 statusIndex := None; generalRankIndex := None |}
    | standard => {| stickyIndices := [0; 9; 10]%nat; generalRankIndex := Some 0%nat;
                     statusIndex := Some 1%nat; companyIndex := 9; tickerIndex := 10 |}
    end /\
  initialHiddenColumns r
  = match mode with
    | neto => []
    | standard =>
        if is_simplified (default [] (head (split_rows rawData))) then [1; 27]%nat else []
    end.
Proof.
  intros Hrun. rewrite processStockData_run in Hrun.
  destruct (_ <? _)%nat; [done|]. by injection Hrun as <-.
Qed.

Lemma ordered_columns headers l :
  NoDup (stickyIndices l) ->
  Forall (fun i => (i < length headers)%nat) (stickyIndices l) ->
  StockTable.orderedColumnIndices headers (Some l) ≡ₚ seq 0 (length headers).
Proof.
  intros Hnd Hlt. unfold StockTable.orderedColumnIndices.
  rewrite <- (filter_app_complement (fun i => i ∈ stickyIndices l) (seq 0 (length headers))) at 2.
  apply Permutation_app_tail.
  apply NoDup_Permutation; [done|apply NoDup_filter, NoDup_seq|].
  intros i. rewrite list_elem_of_filter, elem_of_seq.
  rewrite Forall_forall in Hlt. split; [|tauto].
  intros Hi. specialize (Hlt i Hi). split; [done|lia].
Qed.

(** The table renders every column once, the sticky ones first: the
    column order is a permutation of the header positions that starts
    with the sticky columns, for every layout whose sticky columns are
    distinct header positions, and so for every result of
    [processStockData]. *)
Theorem every_column_is_rendered_once :
  (forall headers l,
     NoDup (stickyIndices l) ->
     Forall (fun i => (i < length headers)%nat) (stickyIndices l) ->
     StockTable.orderedColumnIndices headers (Some l) ≡ₚ seq 0 (length headers) /\
     take (length (stickyIndices l)) (StockTable.orderedColumnIndices headers (Some l))
     = stickyIndices l) /\
  (forall rawData mode g r,
     run (processStockData rawData mode) g = Returns r ->
     StockTable.orderedColumnIndices (headers r) (Some (layoutConfig r))
     ≡ₚ seq 0 (length (headers r))).
Proof.
  split.
  - intros headers l Hnd Hlt. split; [by apply ordered_columns|].
    unfold StockTable.orderedColumnIndices. by rewrite take_app_length.
  - intros rawData mode g r (Hh & Hl & _)%returned_layout.
    apply ordered_columns; rewrite ?Hh, ?Hl; destruct mode; cbn [stickyIndices].
    + by apply (bool_decide_unpack _).
    + by apply (bool_decide_unpack _).
    + repeat constructor; cbn; lia.
    + repeat constructor; cbn; lia.
Qed.

(** *** Hiding columns *)

Lemma toggle_keeps_sticky l i h :
  (forall j, j ∈ stickyIndices l -> j ∉ h) ->
  forall j, j ∈ stickyIndices l -> j ∉ StockTable.toggleColumnVisibility (Some l) i h.
Proof.
  intros Hh j Hj. unfold StockTable.toggleColumnVisibility.
  destruct (bool_decide (i ∈ stickyIndices l)) eqn:E; [by apply Hh|].
  apply bool_decide_eq_false in E.
  specialize (Hh j Hj).
  destruct (bool_decide (i ∈ h)).
  - intros [H _]%elem_of_difference. done.
  - intros [H|H]%elem_of_union; [done|].
    apply elem_of_singleton in H. by subst.
Qed.

Lemma toggles_keep_sticky l clicks h :
  (forall j, j ∈ stickyIndices l -> j ∉ h) ->
  forall j, j ∈ stickyIndices l ->
    j ∉ foldl (fun hidden i => StockTable.toggleColumnVisibility (Some l) i hidden) h clicks.
Proof.
  revert h. induction clicks as [|i clicks IH]; intros h Hh; cbn [foldl]; [done|].
  apply IH. by apply toggle_keeps_sticky.
Qed.

(** A sticky column is never hidden: hiding and showing leaves a set of
    hidden columns free of sticky ones that way, a second click on a
    column that is not sticky undoes the first, and the columns a
    result of [processStockData] hides at the start are not sticky, so
    no sequence of clicks on its table hides a sticky column. *)
Theorem sticky_columns_stay_visible :
  (forall l clicks hidden,
     (forall j, j ∈ stickyIndices l -> j ∉ hidden) ->
     forall j, j ∈ stickyIndices l ->
       j ∉ foldl (fun h i => StockTable.toggleColumnVisibility (Some l) i h) hidden clicks) /\
  (forall l i hidden,
     i ∉ stickyIndices l ->
     StockTable.toggleColumnVisibility (Some l) i
       (StockTable.toggleColumnVisibility (Some l) i hidden) = hidden) /\
  (forall rawData mode g r clicks,
     run (processStockData rawData mode) g = Returns r ->
     forall j, j ∈ stickyIndices (layoutConfig r) ->
       j ∉ foldl (fun h i => StockTable.toggleColumnVisibility (Some (layoutConfig r)) i h)
             (StockTable.initial_hidden (initialHiddenColumns r)) clicks).
Proof.
  split; [exact toggles_keep_sticky|]. split.
  - intros l i hidden Hi. unfold StockTable.toggleColumnVisibility.
    rewrite (bool_decide_eq_false_2 _ Hi).
    destruct (bool_decide (i ∈ hidden)) eqn:E.
    + apply bool_decide_eq_true in E.
      rewrite bool_decide_eq_false_2.
      2:{ intros [_ H]%elem_of_difference. apply H. by apply elem_of_singleton. }
      apply set_eq. intros x.
      rewrite elem_of_union, elem_of_difference, elem_of_singleton.
      destruct (decide (x = i)) as [->|]; tauto.
    + apply bool_decide_eq_false in E.
      rewrite bool_decide_eq_true_2.
      2:{ apply elem_of_union. right. by apply elem_of_singleton. }
      apply set_eq. intros x.
      rewrite elem_of_difference, elem_of_union, elem_of_singleton.
      destruct (decide (x = i)) as [->|]; tauto.
  - intros rawData mode g r clicks (_ & Hl & Hi)%returned_layout.
    apply toggles_keep_sticky. rewrite Hl, Hi. unfold StockTable.initial_hidden.
    intros j Hj Hin. rewrite elem_of_list_to_set in Hin.
    destruct mode; cbn [stickyIndices] in Hj.
    + destruct (is_simplified _).
      * repeat (apply elem_of_cons in Hj as [->|Hj]; [absurd_elem Hin|]).
        by apply elem_of_nil in Hj.
      * by apply elem_of_nil in Hin.
    + by apply elem_of_nil in Hin.
Qed.

(* ===================================================================== *)
(** ** Sorting, offsets and filters of the table *)
(* ===================================================================== *)

(** *** Sorting the table by a column of numbers *)

Lemma clicks_on_S k n :
  clicks_on k (S n)
  = Some (StockTable.mkSortConfig k (if Nat.even n then StockTable.asc else StockTable.desc)).
Proof.
  induction n as [|n IH]; [done|].
  unfold clicks_on in *. rewrite Nat.iter_succ, IH.
  cbn [StockTable.requestSort]. rewrite bool_decide_eq_true_2 by done.
  rewrite Nat.even_succ, <- Nat.negb_even. by destruct (Nat.even n).
Qed.

Lemma compare_rows_numeric localeCompare k dir a b :
  is_finite (cell_number k a) = true -> is_finite (cell_number k b) = true ->
  gtb (StockTable.compare_rows localeCompare (StockTable.mkSortConfig k dir) a b) zero = true <->
  weight_lt (weight_of (order_of dir) (cell_number k b))
            (weight_of (order_of dir) (cell_number k a)).
Proof.
  unfold StockTable.compare_rows, cell_number.
  cbn [StockTable.key StockTable.direction].
  destruct (parseBRNumber (at_index (raw a) k)) as [| | |x]; try done.
  destruct (parseBRNumber (at_index (raw b) k)) as [| | |y]; try done.
  intros _ _. cbn [strict_ne strict_eq negb andb].
  destruct dir; cbn [order_of weight_of weight_lt]; rewrite sub_gt_zero; lia.
Qed.

Lemma processedData_sorted localeCompare data cfg filters :
  StockTable.processedData localeCompare data (Some cfg) filters
  = array_sort (StockTable.compare_rows localeCompare cfg)
      (StockTable.processedData localeCompare data None filters).
Proof. reflexivity. Qed.

Lemma filter_ext_Forall {A} (P Q : A -> Prop) `{!forall x, Decision (P x)}
    `{!forall x, Decision (Q x)} (l : list A) :
  Forall (fun x => P x <-> Q x) l -> filter P l = filter Q l.
Proof.
  induction 1 as [|x l Hx _ IH]; [done|]. rewrite !filter_cons, IH.
  destruct (decide (P x)), (decide (Q x)); tauto.
Qed.

Lemma filter_False {A} (l : list A) : filter (fun _ => False) l = [].
Proof.
  induction l as [|x l IH]; [done|]. rewrite filter_cons.
  by destruct (decide False).
Qed.

(** A column in which every shown row holds a finite numeral is sorted
    by number: after an odd number of clicks on its header the rows are
    the shown rows in non-decreasing order of the cell's number, after
    an even number in non-increasing order, and rows with equal numbers
    keep the order they had. *)
Theorem column_sort_is_numeric localeCompare data filters k n :
  Forall (fun s => is_finite (cell_number k s) = true)
    (StockTable.processedData localeCompare data None filters) ->
  StockTable.processedData localeCompare data (clicks_on k (S n)) filters
    ≡ₚ StockTable.processedData localeCompare data None filters /\
  (if Nat.even n then ascending (cell_number k) else descending (cell_number k))
    (StockTable.processedData localeCompare data (clicks_on k (S n)) filters) /\
  forall v,
    filter (fun s => cell_number k s = v)
      (StockTable.processedData localeCompare data (clicks_on k (S n)) filters)
    = filter (fun s => cell_number k s = v)
        (StockTable.processedData localeCompare data None filters).
Proof.
  intros Hfin. rewrite clicks_on_S, processedData_sorted.
  set (shown := StockTable.processedData localeCompare data None filters) in *.
  set (dir := if Nat.even n then StockTable.asc else StockTable.desc).
  set (cmp := StockTable.compare_rows localeCompare (StockTable.mkSortConfig k dir)).
  set (w := fun s => weight_of (order_of dir) (cell_number k s)).
  assert (Hc : consistent_on cmp w shown).
  { intros a b Ha Hb. rewrite Forall_forall in Hfin.
    apply compare_rows_numeric; by apply Hfin. }
  assert (Hfin' : Forall (fun s => is_finite (cell_number k s) = true) (array_sort cmp shown)).
  { by rewrite array_sort_perm. }
  split; [apply array_sort_perm|]. split.
  - pose proof (array_sort_sorted cmp w shown Hc) as Hs.
    unfold dir in *. destruct (Nat.even n).
    + eapply StronglySorted_Forall_impl; [|exact Hfin'|exact Hs].
      intros a b Ha Hb. cbn beta in Ha, Hb. unfold weight_le, w. cbn [order_of].
      destruct (cell_number k a), (cell_number k b); try done.
      cbn [weight_of weight_lt leb]. rewrite Z.leb_le. lia.
    + eapply StronglySorted_Forall_impl; [|exact Hfin'|exact Hs].
      intros a b Ha Hb. cbn beta in Ha, Hb. unfold weight_le, w. cbn [order_of].
      destruct (cell_number k a), (cell_number k b); try done.
      cbn [weight_of weight_lt leb]. rewrite Z.leb_le. lia.
  - intros v. destruct (is_finite v) eqn:Ev.
    + pose proof (array_sort_filter cmp w shown (weight_of (order_of dir) v) Hc) as Hst.
      rewrite (filter_ext_Forall (fun s => cell_number k s = v)
                 (fun s => w s = weight_of (order_of dir) v) (array_sort cmp shown)).
      2:{ eapply Forall_impl; [exact Hfin'|]. intros s Hs. cbn beta in Hs. unfold w.
          destruct (cell_number k s), v; try done.
          destruct dir; cbn; split; intros [=]; f_equal; lia. }
      rewrite (filter_ext_Forall (fun s => cell_number k s = v)
                 (fun s => w s = weight_of (order_of dir) v) shown).
      2:{ eapply Forall_impl; [exact Hfin|]. intros s Hs. cbn beta in Hs. unfold w.
          destruct (cell_number k s), v; try done.
          destruct dir; cbn; split; intros [=]; f_equal; lia. }
      exact Hst.
    + rewrite (filter_ext_Forall (fun s => cell_number k s = v) (fun _ => False) (array_sort cmp shown)).
      2:{ eapply Forall_impl; [exact Hfin'|]. intros s Hs. cbn beta in Hs.
          split; [|done]. intros E. rewrite E in Hs. congruence. }
      rewrite (filter_ext_Forall (fun s => cell_number k s = v) (fun _ => False) shown).
      2:{ eapply Forall_impl; [exact Hfin|]. intros s Hs. cbn beta in Hs.
          split; [|done]. intros E. rewrite E in Hs. congruence. }
      by rewrite !filter_False.
Qed.

Lemma column_sort_is_numeric_witness :
  Forall (fun s => is_finite (cell_number 6 s) = true)
    (StockTable.processedData (fun _ _ => zero) table_rows None ∅) /\
  descending (cell_number 6)
    (StockTable.processedData (fun _ _ => zero) table_rows (clicks_on 6 2) ∅).
Proof.
  assert (H : Forall (fun s => is_finite (cell_number 6 s) = true)
                (StockTable.processedData (fun _ _ => zero) table_rows None ∅)).
  { apply (bool_decide_unpack _). vm_compute. reflexivity. }
  split; [exact H|].
  exact (proj1 (proj2 (column_sort_is_numeric (fun _ _ => zero) table_rows ∅ 6 1 H))).
Defined.

(** *** The offsets of the sticky columns *)

Lemma sticky_offset_upto l cw col xs rest left :
  col ∉ xs ->
  StockTable.sticky_offset l cw col (xs ++ col :: rest) left
  = foldl (fun acc idx =>
             add acc (StockTable.number_or (cw !! idx) (StockTable.fallback_width l idx)))
      left xs.
Proof.
  revert left. induction xs as [|x xs IH]; intros left Hcol; cbn [app StockTable.sticky_offset foldl].
  - by rewrite bool_decide_eq_true_2.
  - apply not_elem_of_cons in Hcol as [Hne Hcol].
    rewrite bool_decide_eq_false_2 by done. by apply IH.
Qed.

Lemma number_or_kept w fallback :
  kept_width w -> StockTable.number_or (Some w) fallback = w.
Proof.
  intros [Hn Hz]. destruct w as [| | |k]; try done.
  unfold StockTable.number_or. destruct k; try done.
Qed.

Lemma kept_width_of_Z n : 0 < n < 2 ^ 53 -> kept_width (of_Z n).
Proof.
  intros Hn. rewrite of_Z_exact by lia. split; [done|].
  unfold zero. intros [= E]. pose proof one_ulps_pos. nia.
Qed.

(** The sticky columns tile the left edge: a column that is not sticky
    and the first sticky column sit at offset 0, and a sticky column
    sits at the offset of the sticky column before it plus the width
    that column is drawn with, provided that width is stored and is
    neither zero nor NaN.  The layout effect stores such a width for
    every sticky column of every result of [processStockData]. *)
Theorem sticky_columns_tile :
  (forall l colWidths col,
     col ∉ stickyIndices l -> StockTable.getStickyLeft (Some l) colWidths col = zero) /\
  (forall l colWidths a post,
     stickyIndices l = a :: post -> StockTable.getStickyLeft (Some l) colWidths a = zero) /\
  (forall l colWidths pre a b post w,
     stickyIndices l = pre ++ a :: b :: post ->
     NoDup (stickyIndices l) ->
     colWidths !! a = Some w -> kept_width w ->
     StockTable.getStickyLeft (Some l) colWidths b
     = add (StockTable.getStickyLeft (Some l) colWidths a)
           (StockTable.column_width colWidths a)) /\
  (forall rawData mode g r prev a,
     run (processStockData rawData mode) g = Returns r ->
     a ∈ stickyIndices (layoutConfig r) ->
     exists w,
       StockTable.layout_widths (Some (layoutConfig r)) prev !! a = Some w /\
       kept_width w).
Proof.
  split; [|split; [|split]].
  - intros l cw col Hcol. unfold StockTable.getStickyLeft.
    by rewrite bool_decide_eq_false_2.
  - intros l cw a post E. unfold StockTable.getStickyLeft. rewrite E.
    rewrite bool_decide_eq_true_2 by by left.
    cbn [StockTable.sticky_offset]. by rewrite bool_decide_eq_true_2.
  - intros l cw pre a b post w E Hnd Ha Hw. unfold StockTable.getStickyLeft.
    rewrite E in *.
    apply NoDup_app in Hnd as (Hpre & Hdis & Hrest).
    apply NoDup_cons in Hrest as (Hab & Hrest).
    apply NoDup_cons in Hrest as (Hb & _).
    rewrite !bool_decide_eq_true_2
      by (apply elem_of_app; right; repeat (try (left; done); right)).
    rewrite (sticky_offset_upto l cw a pre (b :: post)).
    2:{ intros Hin. apply (Hdis a Hin). by left. }
    replace (pre ++ a :: b :: post) with ((pre ++ [a]) ++ b :: post)
      by (by rewrite <- app_assoc).
    rewrite (sticky_offset_upto l cw b (pre ++ [a]) post).
    2:{ intros [Hin|Hin]%elem_of_app.
        - apply (Hdis b Hin). right. by left.
        - apply list_elem_of_singleton in Hin. subst. apply Hab. by left. }
    rewrite foldl_app. cbn [foldl]. unfold StockTable.column_width.
    by rewrite Ha, !number_or_kept.
  - intros rawData mode g r prev a (_ & Hl & _)%returned_layout Ha.
    rewrite Hl in *. unfold StockTable.layout_widths.
    destruct mode; cbn [stickyIndices generalRankIndex companyIndex tickerIndex] in *.
    + repeat (apply elem_of_cons in Ha as [->|Ha]).
      * exists (of_Z 80). split; [|apply kept_width_of_Z; lia].
        apply lookup_union_Some_l. by rewrite !lookup_insert_ne, lookup_insert by done.
      * exists (of_Z 220). split; [|apply kept_width_of_Z; lia].
        apply lookup_union_Some_l. by rewrite lookup_insert_ne, lookup_insert by done.
      * exists (of_Z 100). split; [|apply kept_width_of_Z; lia].
        apply lookup_union_Some_l. by rewrite lookup_insert.
      * by apply elem_of_nil in Ha.
    + repeat (apply elem_of_cons in Ha as [->|Ha]).
      * exists (of_Z 220). split; [|apply kept_width_of_Z; lia].
        apply lookup_union_Some_l. by rewrite lookup_insert_ne, lookup_insert by done.
      * exists (of_Z 100). split; [|apply kept_width_of_Z; lia].
        apply lookup_union_Some_l. by rewrite lookup_insert.
      * by apply elem_of_nil in Ha.
Qed.

(** *** The filters *)

Lemma handleFilterChange_nonempty i v f :
  map_Forall (fun _ x => x <> "") f ->
  map_Forall (fun _ x => x <> "") (StockTable.handleFilterChange i v f).
Proof.
  intros Hf. unfold StockTable.handleFilterChange. destruct v as [|c v].
  - rewrite delete_insert_eq. by apply map_Forall_delete.
  - by apply map_Forall_insert_2.
Qed.

(** No filter is ever stored with an empty text, whatever is typed into
    the filter inputs; and typing into the input of a column that has no
    filter and erasing it again leaves the filters as they were. *)
Theorem filters_hold_no_empty_text :
  (forall edits, map_Forall (fun _ v => v <> "") (filters_after edits)) /\
  (forall i v filters,
     filters !! i = None ->
     StockTable.handleFilterChange i "" (StockTable.handleFilterChange i v filters)
     = filters).
Proof.
  split.
  - intros edits. unfold filters_after.
    assert (H : forall f, map_Forall (fun _ v => v <> "") f ->
              map_Forall (fun _ v => v <> "")
                (foldl (fun filters '(colIndex, value) =>
                          StockTable.handleFilterChange colIndex value filters) f edits)).
    { induction edits as [|[i v] edits IH]; intros f Hf; cbn [foldl]; [done|].
      apply IH. by apply handleFilterChange_nonempty. }
    apply H. apply map_Forall_empty.
  - intros i v f Hi. unfold StockTable.handleFilterChange.
    destruct v as [|c v].
    + rewrite !delete_insert_eq. by rewrite !(delete_id f i Hi).
    + rewrite insert_insert_eq, delete_insert_eq. by apply delete_id.
Qed.

(* ===================================================================== *)
(** ** The best ranked records *)
(* ===================================================================== *)

(** *** Sorting records by a field *)



Lemma NoDup_fmap_filter {A B} (f : A -> B) (P : A -> Prop)
    `{!forall x, Decision (P x)} (l : list A) :
  NoDup (f <$> l) -> NoDup (f <$> filter P l).
Proof.
  induction l as [|x l IH]; [done|]. cbn [fmap list_fmap].
  intros [Hx Hl]%NoDup_cons. rewrite filter_cons.
  destruct (decide (P x)); [|by apply IH].
  cbn [fmap list_fmap]. apply NoDup_cons. split; [|by apply IH].
  intros (y & E & [_ Hy]%list_elem_of_filter)%list_elem_of_fmap.
  apply Hx. apply list_elem_of_fmap. eauto.
Qed.

Lemma StronglySorted_strict {A} (f : A -> Z) (l : list A) :
  StronglySorted (fun a b => f a <= f b) l -> NoDup (f <$> l) ->
  StronglySorted (fun a b => f a < f b) l.
Proof.
  induction 1 as [|x l Hs IH Hall]; [constructor|]. cbn [fmap list_fmap].
  intros [Hx Hl]%NoDup_cons. constructor; [by apply IH|].
  rewrite Forall_forall in Hall. apply Forall_forall. intros y Hy.
  specialize (Hall y Hy). cbn beta in Hall.
  destruct (Z.eq_dec (f x) (f y)) as [E|]; [|lia].
  destruct Hx. rewrite E. by apply list_elem_of_fmap_2.
Qed.

(** Highest first, by a field that is never NaN. *)
Lemma sort_descending {A} (f : A -> number) (l : list A) :
  Forall (fun s => f s <> NaN) l ->
  array_sort (fun a b => sub (f b) (f a)) l ≡ₚ l /\
  descending f (array_sort (fun a b => sub (f b) (f a)) l).
Proof.
  intros Hl. split; [apply array_sort_perm|].
  set (cmp := fun a b => sub (f b) (f a)).
  set (lt := fun a b : A => ltb (f b) (f a) = true).
  assert (Hs : StronglySorted (fun a b => ~ lt b a) (array_sort cmp l)).
  { apply (array_sort_ordered cmp lt (fun s => f s <> NaN)); [| |done|].
    - intros a b _ _ H. unfold lt in *. by rewrite (ltb_asym _ _ H).
    - unfold lt. intros a b c _ Hb _ H1 H2.
      apply not_true_is_false in H1, H2. apply not_true_iff_false.
      by apply (ltb_cotrans (f c) (f b) (f a)).
    - intros a b Ha Hb. rewrite Forall_forall in Hl. unfold cmp, lt.
      by rewrite sub_gt_ltb by auto. }
  assert (Hl' : Forall (fun s => f s <> NaN) (array_sort cmp l)) by by rewrite array_sort_perm.
  eapply StronglySorted_Forall_impl; [|exact Hl'|exact Hs].
  intros a b Ha Hb H. unfold lt in H. apply not_true_is_false in H.
  by apply ltb_leb.
Qed.

Lemma by_rankGeneral_consistent l :
  Forall (fun s => Z.abs (rankGeneral s) < 2 ^ 53) l ->
  consistent_on AIInsights.by_rankGeneral (fun s => Weight (rankGeneral s)) l.
Proof.
  intros Hl a b Ha Hb. rewrite Forall_forall in Hl.
  unfold AIInsights.by_rankGeneral. rewrite sub_of_Z_gt by auto. done.
Qed.

(** Lowest general rank first. *)
Lemma sort_by_rankGeneral l :
  Forall (fun s => Z.abs (rankGeneral s) < 2 ^ 53) l ->
  StronglySorted (fun a b => rankGeneral a <= rankGeneral b)
    (array_sort AIInsights.by_rankGeneral l).
Proof.
  intros Hl.
  pose proof (array_sort_sorted _ _ l (by_rankGeneral_consistent l Hl)) as Hs.
  eapply StronglySorted_Forall_impl with (P := fun _ => True); [| |exact Hs].
  - intros a b _ _. unfold weight_le. cbn [weight_lt]. lia.
  - by apply Forall_true.
Qed.

Lemma returned_ranks_bounded l :
  Z.of_nat (length l) < 2 ^ 53 ->
  Forall (fun s => Z.abs (rankGeneral s) < 2 ^ 53) (calculateRanks l).
Proof.
  intros Hn. apply Forall_forall. intros s Hs.
  pose proof (calculateRanks_general_range l s Hs). lia.
Qed.

(** *** The records the assistant is given *)

(** The "best stocks" selection is made of the records ranked 1 to 7 of
    the result, in that order (all of them when there are fewer than 7),
    for every result of fewer than 2^53 records. *)
Theorem top_stocks_are_ranked_first rawData mode g r :
  run (processStockData rawData mode) g = Returns r ->
  Z.of_nat (length (processed r)) < 2 ^ 53 ->
  rankGeneral <$> AIInsights.topStocks (processed r)
  = ranks_upto (min 7 (length (processed r))) /\
  Forall (fun s => s ∈ processed r) (AIInsights.topStocks (processed r)).
Proof.
  intros [_ Hproc]%processStockData_returns. rewrite Hproc.
  set (l := run (stocks_before_ranking rawData mode) g).
  rewrite calculateRanks_length. intros Hn.
  unfold AIInsights.topStocks. split.
  - rewrite fmap_take, <- take_ranks_upto. f_equal.
    apply sorted_ranks.
    + eapply StronglySorted_fmap; [|apply sort_by_rankGeneral, returned_ranks_bounded; done].
      done.
    + rewrite array_sort_perm. apply calculateRanks_general.
  - apply Forall_forall. intros s Hs.
    apply subseteq_take in Hs. by rewrite array_sort_elem_of in Hs.
Qed.

Lemma top_stocks_are_ranked_first_witness :
  exists r,
    run (processStockData neto_sample neto) half_source = Returns r /\
    rankGeneral <$> AIInsights.topStocks (processed r) = ranks_upto 3.
Proof.
  eexists. split; [vm_compute; reflexivity|].
  exact (proj1 (top_stocks_are_ranked_first neto_sample neto half_source _
                  ltac:(vm_compute; reflexivity) ltac:(vm_compute; reflexivity))).
Defined.

(* ===================================================================== *)
(** ** The selections of the assistant and the margin chart *)
(* ===================================================================== *)

(** The "where to invest" selection: at most five records, each among
    the twenty best of the general rank with a price difference below
    zero (a missing one, -Infinity, counts as below zero), in strictly
    increasing general rank; a record that qualifies and is left out is
    ranked after all five that are picked. *)
Theorem best_buys_selection rawData mode g r :
  run (processStockData rawData mode) g = Returns r ->
  Z.of_nat (length (processed r)) < 2 ^ 53 ->
  (length (AIInsights.bestBuys (processed r)) <= 5)%nat /\
  Forall (fun s => s ∈ processed r /\ rankGeneral s <= 20 /\ ltb (priceDiff s) zero = true)
    (AIInsights.bestBuys (processed r)) /\
  StronglySorted (fun a b => rankGeneral a < rankGeneral b)
    (AIInsights.bestBuys (processed r)) /\
  (forall s,
     s ∈ processed r -> rankGeneral s <= 20 -> ltb (priceDiff s) zero = true ->
     s ∉ AIInsights.bestBuys (processed r) ->
     length (AIInsights.bestBuys (processed r)) = 5%nat /\
     Forall (fun p => rankGeneral p < rankGeneral s) (AIInsights.bestBuys (processed r))).
Proof.
  intros [_ Hproc]%processStockData_returns. rewrite Hproc.
  set (l := run (stocks_before_ranking rawData mode) g).
  rewrite calculateRanks_length. intros Hn.
  unfold AIInsights.bestBuys.
  set (keep := fun s : StockData =>
         leb (of_Z (rankGeneral s)) (of_Z 20) && ltb (priceDiff s) zero = true).
  set (kept := filter keep (calculateRanks l)).
  pose proof (returned_ranks_bounded l Hn) as Hb.
  assert (Hkeep : forall s, s ∈ calculateRanks l ->
            (keep s <-> rankGeneral s <= 20 /\ ltb (priceDiff s) zero = true)).
  { intros s Hs. unfold keep. rewrite andb_true_iff, leb_of_Z; [done| |lia].
    rewrite Forall_forall in Hb. by apply Hb. }
  assert (Hbk : Forall (fun s => Z.abs (rankGeneral s) < 2 ^ 53) kept).
  { apply Forall_forall. intros s [_ Hs]%list_elem_of_filter.
    rewrite Forall_forall in Hb. by apply Hb. }
  assert (Hsorted : StronglySorted (fun a b => rankGeneral a < rankGeneral b)
                      (array_sort AIInsights.by_rankGeneral kept)).
  { apply StronglySorted_strict; [by apply sort_by_rankGeneral|].
    rewrite array_sort_perm. apply NoDup_fmap_filter.
    destruct (calculateRanks_general l) as [Hp _]. rewrite Hp. apply NoDup_seqZ. }
  split; [rewrite length_take; lia|]. split; [|split].
  - apply Forall_forall. intros s Hs. apply subseteq_take in Hs.
    rewrite array_sort_elem_of in Hs. apply list_elem_of_filter in Hs as [Hk Hs].
    split; [done|]. by apply Hkeep.
  - by apply StronglySorted_take.
  - intros s Hs Hr Hd Hout.
    assert (Hin : s ∈ array_sort AIInsights.by_rankGeneral kept).
    { rewrite array_sort_elem_of. apply list_elem_of_filter. split; [|done].
      by apply Hkeep. }
    rewrite <- (take_drop 5 (array_sort AIInsights.by_rankGeneral kept)) in Hin.
    apply elem_of_app in Hin as [Hin|Hin]; [done|].
    split.
    + rewrite length_take. destruct (le_lt_dec 5 (length (array_sort AIInsights.by_rankGeneral kept)))
        as [|Hshort]; [lia|].
      rewrite drop_ge in Hin by lia. by apply elem_of_nil in Hin.
    + apply Forall_forall. intros p Hp.
      by apply (StronglySorted_take_drop _ 5 _ p s Hsorted).
Qed.

Lemma best_buys_selection_witness :
  exists r,
    run (processStockData infinite_ceiling_sample neto) half_source = Returns r /\
    (length (AIInsights.bestBuys (processed r)) <= 5)%nat.
Proof.
  eexists. split; [vm_compute; reflexivity|].
  exact (proj1 (best_buys_selection infinite_ceiling_sample neto half_source _
                  ltac:(vm_compute; reflexivity) ltac:(vm_compute; reflexivity))).
Defined.



(** The "risks" selection is made of five records of the highest debt
    ratio, highest first: the records of the result split into the
    selection and the rest, no record of the rest has a higher ratio
    than a selected one, and a record whose ratio is missing (-Infinity)
    is selected only after every record that has one. *)
Theorem risky_stocks_have_the_highest_debt rawData mode g r :
  run (processStockData rawData mode) g = Returns r ->
  exists rest,
    AIInsights.riskyStocks (processed r) ++ rest ≡ₚ processed r /\
    length (AIInsights.riskyStocks (processed r)) = min 5 (length (processed r)) /\
    descending debtEbitda (AIInsights.riskyStocks (processed r)) /\
    (forall a b, a ∈ AIInsights.riskyStocks (processed r) -> b ∈ rest ->
       leb (debtEbitda b) (debtEbitda a) = true).
Proof.
  intros Hrun.
  assert (Hdef : Forall (fun s => debtEbitda s <> NaN) (processed r)).
  { apply Forall_forall. intros s Hs.
    pose proof Hrun as [_ Hproc]%processStockData_returns. rewrite Hproc in Hs.
    destruct (calculateRanks_core _ s Hs) as (s0 & Hs0 & Ecore).
    pose proof (stocks_before_ranking_defined rawData mode g) as Hd.
    rewrite Forall_forall in Hd. specialize (Hd s0 Hs0 Debt).
    unfold metric_value in Hd. cbn [metric_key get] in Hd.
    unfold core in Ecore. injection Ecore as _ _ _ _ _ _ _ _ _ E _ _ _. by rewrite <- E. }
  destruct (sort_descending debtEbitda (processed r) Hdef) as [Hp Hs].
  unfold AIInsights.riskyStocks.
  set (sorted := array_sort (fun a b => sub (debtEbitda b) (debtEbitda a)) (processed r)) in *.
  exists (drop 5 sorted). split; [by rewrite take_drop|].
  split; [by rewrite length_take, Hp|]. split; [by apply StronglySorted_take|].
  intros a b Ha Hb. by apply (StronglySorted_take_drop _ 5 sorted a b Hs).
Qed.

Lemma risky_stocks_have_the_highest_debt_witness :
  exists r,
    run (processStockData neto_sample neto) half_source = Returns r /\
    length (AIInsights.riskyStocks (processed r)) = 3%nat.
Proof.
  eexists. split; [vm_compute; reflexivity|].
  destruct (risky_stocks_have_the_highest_debt neto_sample neto half_source _
              ltac:(vm_compute; reflexivity)) as (rest & _ & Hlen & _).
  exact Hlen.
Defined.

(** *** The bars of the margin chart *)

(** The margin chart draws five records of the highest margin of
    safety, highest first: the records of the result split into the
    five and the rest, no record of the rest has a higher margin, and
    no bar is drawn below -100: a margin of -100 or less, a missing one
    included, is drawn as 0. *)
Theorem top_margin_bars rawData mode g r :
  run (processStockData rawData mode) g = Returns r ->
  exists top rest,
    AnalysisCharts.topMargin (processed r) = AnalysisCharts.bar <$> top /\
    top ++ rest ≡ₚ processed r /\
    length top = min 5 (length (processed r)) /\
    descending marginSafety top /\
    (forall a b, a ∈ top -> b ∈ rest -> leb (marginSafety b) (marginSafety a) = true) /\
    Forall (fun bar => AnalysisCharts.margin bar = zero \/
                       gtb (AnalysisCharts.margin bar) (of_Z (-100)) = true)
      (AnalysisCharts.topMargin (processed r)).
Proof.
  intros Hrun.
  assert (Hdef : Forall (fun s => marginSafety s <> NaN) (processed r)).
  { apply Forall_forall. intros s Hs.
    pose proof Hrun as [_ Hproc]%processStockData_returns. rewrite Hproc in Hs.
    destruct (calculateRanks_core _ s Hs) as (s0 & Hs0 & Ecore).
    pose proof (stocks_before_ranking_defined rawData mode g) as Hd.
    rewrite Forall_forall in Hd. specialize (Hd s0 Hs0 Margin).
    unfold metric_value in Hd. cbn [metric_key get] in Hd.
    unfold core in Ecore. injection Ecore as _ _ _ _ _ _ _ E _ _ _ _ _. by rewrite <- E. }
  destruct (sort_descending marginSafety (processed r) Hdef) as [Hp Hs].
  unfold AnalysisCharts.topMargin.
  set (sorted := array_sort (fun a b => sub (marginSafety b) (marginSafety a)) (processed r)) in *.
  exists (take 5 sorted), (drop 5 sorted). split; [done|].
  split; [by rewrite take_drop|].
  split; [by rewrite length_take, Hp|]. split; [by apply StronglySorted_take|].
  split.
  - intros a b Ha Hb. by apply (StronglySorted_take_drop _ 5 sorted a b Hs).
  - apply Forall_fmap, Forall_forall. intros s _. unfold compose.
    cbn [AnalysisCharts.bar AnalysisCharts.margin].
    destruct (gtb (marginSafety s) (of_Z (-100))) eqn:E; auto.
Qed.

Lemma top_margin_bars_witness :
  exists r,
    run (processStockData neto_sample neto) half_source = Returns r /\
    length (AnalysisCharts.topMargin (processed r)) = 3%nat.
Proof.
  eexists. split; [vm_compute; reflexivity|].
  destruct (top_margin_bars neto_sample neto half_source _
              ltac:(vm_compute; reflexivity)) as (top & rest & -> & _ & Hlen & _).
  rewrite length_fmap. exact Hlen.
Defined.

(* ===================================================================== *)
(** ** Printed digits and slices *)
(* ===================================================================== *)

(** *** Printed digits *)

Lemma pretty_N_char_digit y : isDigit (pretty_N_char y) = true.
Proof. unfold pretty_N_char. by repeat case_match. Qed.

Lemma pretty_N_char_value y : (y < 10)%N -> digit_value (pretty_N_char y) = Z.of_N y.
Proof.
  intros Hy.
  assert (y = 0 \/ y = 1 \/ y = 2 \/ y = 3 \/ y = 4 \/ y = 5 \/ y = 6 \/ y = 7
          \/ y = 8 \/ y = 9)%N as H by lia.
  repeat (destruct H as [->|H]; [reflexivity|]). by subst.
Qed.

Lemma pretty_N_go_digits x s :
  all_digits s = true -> all_digits (pretty_N_go x s) = true.
Proof.
  revert s. induction (N.lt_wf_0 x) as [x _ IH]; intros s Hs.
  assert (x = 0 \/ 0 < x)%N as [->|Hx] by lia; [by rewrite pretty_N_go_0|].
  rewrite pretty_N_go_step by done. apply IH; [by apply N.div_lt|].
  cbn [all_digits]. by rewrite pretty_N_char_digit.
Qed.

Lemma digits_value_from acc ds :
  foldl (fun a d => 10 * a + d) acc ds
  = acc * 10 ^ Z.of_nat (length ds) + foldl (fun a d => 10 * a + d) 0 ds.
Proof.
  revert acc. induction ds as [|d ds IH]; intros acc; cbn [foldl length].
  - change (10 ^ Z.of_nat 0) with 1. lia.
  - rewrite IH, (IH (10 * 0 + d)). rewrite Nat2Z.inj_succ, Z.pow_succ_r by lia. lia.
Qed.

Lemma digits_value_cons d ds :
  digits_value (d :: ds) = d * 10 ^ Z.of_nat (length ds) + digits_value ds.
Proof.
  unfold digits_value. cbn [foldl]. rewrite digits_value_from. ring.
Qed.

Lemma digits_value_app ds1 ds2 :
  digits_value (ds1 ++ ds2)
  = digits_value ds1 * 10 ^ Z.of_nat (length ds2) + digits_value ds2.
Proof.
  unfold digits_value. rewrite foldl_app. apply digits_value_from.
Qed.

Lemma pretty_N_go_value x s :
  digits_value (digit_values (pretty_N_go x s))
  = Z.of_N x * 10 ^ Z.of_nat (String.length s) + digits_value (digit_values s).
Proof.
  revert s. induction (N.lt_wf_0 x) as [x _ IH]; intros s.
  assert (x = 0 \/ 0 < x)%N as [->|Hx] by lia.
  { rewrite pretty_N_go_0. lia. }
  rewrite pretty_N_go_step by done. rewrite IH by by apply N.div_lt.
  cbn [digit_values String.length]. rewrite digits_value_cons, digit_values_length.
  rewrite pretty_N_char_value by (apply N.mod_lt; lia).
  rewrite Nat2Z.inj_succ, Z.pow_succ_r by lia.
  rewrite (N.div_mod x 10) at 3 by lia.
  rewrite N2Z.inj_add, N2Z.inj_mul. change (Z.of_N 10) with 10. ring.
Qed.

Lemma digits_of_digits n : all_digits (digits_of n) = true.
Proof.
  unfold digits_of, pretty, pretty_N. case_decide; [done|].
  by apply pretty_N_go_digits.
Qed.

Lemma digits_of_value n :
  0 <= n -> digits_value (digit_values (digits_of n)) = n.
Proof.
  intros Hn. unfold digits_of, pretty, pretty_N. case_decide as E.
  - rewrite <- (Z2N.id n), E by done. reflexivity.
  - rewrite pretty_N_go_value. cbn [String.length digit_values].
    change (digits_value []) with 0. rewrite Z2N.id by done.
    change (10 ^ Z.of_nat 0) with 1. lia.
Qed.

Lemma repeat_zero_digits j : all_digits (repeat_char "0" j) = true.
Proof. induction j as [|j IH]; [done|]. cbn [repeat_char all_digits]. by rewrite IH. Qed.

Lemma repeat_zero_value j s :
  digits_value (digit_values (repeat_char "0" j +:+ s)) = digits_value (digit_values s).
Proof.
  induction j as [|j IH]; [by rewrite app_empty_l|].
  cbn [repeat_char]. rewrite app_cons. cbn [digit_values].
  rewrite digits_value_cons, IH. change (digit_value "0") with 0. lia.
Qed.

Lemma repeat_char_length c j : String.length (repeat_char c j) = j.
Proof. induction j as [|j IH]; [done|]. cbn. by rewrite IH. Qed.

(** *** Slices of a string *)

Lemma substring_all s : String.substring 0 (String.length s) s = s.
Proof. induction s as [|c s IH]; [done|]. cbn. by rewrite IH. Qed.

Lemma slice_join n s :
  (n <= String.length s)%nat -> slice_to n s +:+ slice_from n s = s.
Proof.
  unfold slice_to, slice_from. revert n. induction s as [|c s IH]; intros n Hn.
  - cbn in Hn. assert (n = 0%nat) as -> by lia. reflexivity.
  - destruct n as [|n].
    + rewrite Nat.sub_0_r, substring_all. reflexivity.
    + cbn [String.substring String.length Nat.sub]. rewrite app_cons. f_equal.
      apply IH. cbn in Hn. lia.
Qed.

Lemma slice_to_length n s :
  (n <= String.length s)%nat -> String.length (slice_to n s) = n.
Proof.
  unfold slice_to. revert n. induction s as [|c s IH]; intros n Hn.
  - cbn in Hn. assert (n = 0%nat) as -> by lia. reflexivity.
  - destruct n as [|n]; [done|]. cbn [String.substring String.length].
    f_equal. apply IH. cbn in Hn. lia.
Qed.

Lemma slice_from_length n s :
  (n <= String.length s)%nat -> String.length (slice_from n s) = (String.length s - n)%nat.
Proof.
  intros Hn. pose proof (slice_join n s Hn) as E.
  apply (f_equal String.length) in E.
  rewrite string_length_app, slice_to_length in E by done. lia.
Qed.

Lemma slices_digits n s :
  (n <= String.length s)%nat -> all_digits s = true ->
  all_digits (slice_to n s) = true /\ all_digits (slice_from n s) = true.
Proof.
  intros Hn Hs. rewrite <- (slice_join n s Hn), all_digits_app in Hs.
  by apply andb_true_iff in Hs.
Qed.

(** [s.replace(a, b)] leaves a prefix without [a] alone. *)
Lemma replace_first_free a b s1 s2 :
  free_of a s1 = true ->
  replace_first a b (s1 +:+ s2) = s1 +:+ replace_first a b s2.
Proof.
  induction s1 as [|c s1 IH]; [by rewrite !app_empty_l|].
  cbn [free_of]. intros [Hc Hs]%andb_true_iff. apply negb_true_iff in Hc.
  rewrite !app_cons. cbn [replace_first]. by rewrite Hc, IH.
Qed.

Lemma digits_free_of_dot s : all_digits s = true -> free_of "." s = true.
Proof.
  induction s as [|c s IH]; [done|]. cbn [all_digits free_of].
  intros [Hc Hs]%andb_true_iff. rewrite IH by done.
  rewrite andb_true_r. apply negb_true_iff. revert Hc. clear. by_char c.
Qed.

(* ===================================================================== *)
(** ** The price difference of a simplified sheet *)
(* ===================================================================== *)

(** *** A number printed with two decimals and read back *)

Lemma toFixed2_shape k :
  Z.abs k < 10 ^ 21 * one_ulps ->
  exists c int frac,
    toFixed2 (Fin k)
    = (if k <? 0 then "-" else "") +:+ String c int +:+ "." +:+ frac /\
    isDigit c = true /\ all_digits int = true /\ all_digits frac = true /\
    String.length frac = 2%nat /\
    digits_value (digit_values (String c int +:+ frac))
    = (2 * 100 * Z.abs k + one_ulps) / (2 * one_ulps).
Proof.
  intros Hk. unfold toFixed2.
  destruct (10 ^ 21 * one_ulps <=? Z.abs k) eqn:E; [apply Z.leb_le in E; lia|].
  set (n := (2 * 100 * Z.abs k + one_ulps) / (2 * one_ulps)).
  assert (Hn : 0 <= n).
  { apply Z.div_pos; pose proof one_ulps_pos; lia. }
  set (m0 := digits_of n).
  set (m := repeat_char "0" (3 - String.length m0) +:+ m0).
  assert (Hlen : (3 <= String.length m)%nat).
  { unfold m. rewrite string_length_app, repeat_char_length. lia. }
  assert (Hm : all_digits m = true).
  { unfold m, m0. by rewrite all_digits_app, repeat_zero_digits, digits_of_digits. }
  assert (Hv : digits_value (digit_values m) = n).
  { unfold m, m0. rewrite repeat_zero_value. by apply digits_of_value. }
  set (cut := (String.length m - 2)%nat).
  assert (Hcut : (cut <= String.length m)%nat) by (unfold cut; lia).
  destruct (slices_digits cut m Hcut Hm) as [Hto Hfrom].
  pose proof (slice_to_length cut m Hcut) as Lto.
  pose proof (slice_from_length cut m Hcut) as Lfrom.
  pose proof (slice_join cut m Hcut) as Ejoin.
  destruct (slice_to cut m) as [|c int] eqn:Eto.
  { cbn in Lto. unfold cut in Lto. lia. }
  exists c, int, (slice_from cut m).
  cbn [all_digits] in Hto. apply andb_true_iff in Hto as [Hc Hint].
  split; [done|]. split; [done|]. split; [done|]. split; [done|].
  split; [unfold cut in *; lia|].
  by rewrite Ejoin.
Qed.

Lemma parse_two_decimals x :
  below_1e21 x = true ->
  parseBRNumber (Some (replace_first "." "," (toFixed2 x) +:+ "%")) = two_decimals x.
Proof.
  destruct x as [| | |k]; [reflexivity..|].
  cbn [below_1e21]. intros Hk%Z.ltb_lt.
  destruct (toFixed2_shape k Hk) as (c & int & frac & -> & Hc & Hint & Hfrac & Hlen & Hv).
  set (sign := if k <? 0 then "-" else "").
  assert (Hsign : sign ∈ [""; "-"; "+"]).
  { unfold sign. destruct (k <? 0); repeat constructor. }
  assert (Hcd : all_digits (String c int) = true) by (cbn; by rewrite Hc).
  assert (Htext : replace_first "." "," (sign +:+ String c int +:+ "." +:+ frac) +:+ "%"
                  = sheet_numeral sign (String c int) [] (Some frac) true).
  { rewrite replace_first_free by (unfold sign; by destruct (k <? 0)).
    rewrite replace_first_free by by apply digits_free_of_dot.
    unfold sheet_numeral. cbn [concat_groups].
    rewrite !app_assoc_string. do 2 f_equal. }
  rewrite Htext, parseBRNumber_sheet_numeral; [|done..|discriminate|constructor|done].
  unfold integer_digits. change (default "" (Some frac)) with frac.
  cbn [concat_groups]. rewrite app_empty_r.
  unfold decimal_value. rewrite Hv, Hlen. cbn [two_decimals].
  unfold sign. destruct (k <? 0).
  - rewrite bool_decide_eq_true_2 by done. symmetry. apply of_decimal_opp.
  - by rewrite bool_decide_eq_false_2.
Qed.

(** *** The price difference of a simplified sheet *)

Lemma pad_row_full n row : length row = n -> pad_row n row = row.
Proof. intros <-. unfold pad_row. by rewrite Nat.sub_diag, app_nil_r. Qed.

Lemma simplified_row_cells row :
  length (simplified_row row) = 33%nat /\
  at_index (simplified_row row) 24 = at_index row 15 /\
  at_index (simplified_row row) 25 = at_index row 16 /\
  at_index (simplified_row row) 28
  = Some (if strict_ne (parseBRNumber (at_index row 15)) NInf
             && strict_ne (parseBRNumber (at_index row 16)) NInf
             && strict_ne (parseBRNumber (at_index row 16)) zero
          then difference_text
                 (mul (div (sub (parseBRNumber (at_index row 15))
                                (parseBRNumber (at_index row 16)))
                           (parseBRNumber (at_index row 16))) (of_Z 100))
          else "0,00%").
Proof.
  unfold simplified_row, difference_text.
  change (length STANDARD_HEADERS) with 33%nat.
  destruct (at_index row 1) as [[|c t]|];
    destruct (strict_ne (parseBRNumber (at_index row 15)) NInf
              && strict_ne (parseBRNumber (at_index row 16)) NInf
              && strict_ne (parseBRNumber (at_index row 16)) zero);
    repeat split; reflexivity.
Qed.

Lemma simplified_stock row g :
  currentPrice (run (standard_stock (simplified_row row)) g) = parseBRNumber (at_index row 15) /\
  fairPrice (run (standard_stock (simplified_row row)) g) = parseBRNumber (at_index row 16) /\
  raw (run (standard_stock (simplified_row row)) g) = simplified_row row /\
  priceDiff (run (standard_stock (simplified_row row)) g)
  = parseBRNumber (at_index (simplified_row row) 28).
Proof.
  destruct (simplified_row_cells row) as (Hlen & H24 & H25 & _).
  destruct (standard_stock_run (simplified_row row) g) as [i ->].
  cbv zeta. cbn [currentPrice fairPrice raw priceDiff].
  change (length STANDARD_HEADERS) with 33%nat.
  rewrite (pad_row_full _ _ Hlen). by rewrite H24, H25.
Qed.

(** On a simplified sheet the price difference of a record is computed
    from its price and its ceiling price: when both are present and the
    ceiling is not zero the display row shows the difference with two
    decimals, a comma and a percent sign, and the record holds that text
    read back, the difference rounded to hundredths (for a difference
    below 10^21 in size); otherwise the row shows 0,00% and the record
    holds zero. *)
Theorem simplified_price_difference rawData g r s :
  run (processStockData rawData standard) g = Returns r ->
  is_simplified (default [] (head (split_rows rawData))) = true ->
  s ∈ processed r ->
  if has_prices s then
    at_index (raw s) 28 = Some (difference_text (price_difference s)) /\
    (below_1e21 (price_difference s) = true ->
     priceDiff s = two_decimals (price_difference s))
  else
    at_index (raw s) 28 = Some "0,00%" /\ priceDiff s = zero.
Proof.
  intros [_ Hproc]%processStockData_returns Hsimple Hs. rewrite Hproc in Hs.
  destruct (calculateRanks_origin _ s (stocks_before_ranking_long _ _ _) Hs)
    as (s0 & s1 & Hs0 & Ecore & Hraw & ->).
  assert (Hin : Forall (fun s0 =>
            if has_prices s0 then
              at_index (raw s0) 28 = Some (difference_text (price_difference s0)) /\
              (below_1e21 (price_difference s0) = true ->
               priceDiff s0 = two_decimals (price_difference s0))
            else at_index (raw s0) 28 = Some "0,00%" /\ priceDiff s0 = zero)
            (run (stocks_before_ranking rawData standard) g)).
  { cbn [stocks_before_ranking]. unfold standard_stocks, standard_rows. rewrite Hsimple.
    apply array_mapM_Forall. intros row' g' (row & -> & _)%list_elem_of_fmap.
    destruct (simplified_stock row g') as (Hc & Hf & Hr & Hp).
    destruct (simplified_row_cells row) as (_ & _ & _ & H28).
    unfold has_prices, price_difference. rewrite Hc, Hf, Hr, Hp, H28.
    destruct (strict_ne (parseBRNumber (at_index row 15)) NInf
              && strict_ne (parseBRNumber (at_index row 16)) NInf
              && strict_ne (parseBRNumber (at_index row 16)) zero).
    - split; [done|]. intros Hb. by apply parse_two_decimals.
    - split; [done|]. reflexivity. }
  rewrite Forall_forall in Hin. specialize (Hin s0 Hs0).
  destruct (write_back_fields s1) as (Ewb & _ & _). rewrite Ecore in Ewb.
  assert (Ef : (currentPrice (write_back s1), fairPrice (write_back s1), priceDiff (write_back s1))
               = (currentPrice s0, fairPrice s0, priceDiff s0)).
  { unfold core in Ewb. by injection Ewb as _ _ _ _ _ _ _ _ _ _ -> -> ->. }
  injection Ef as Ec Efp Ep.
  unfold has_prices, price_difference in *.
  rewrite Ec, Efp, Ep, write_back_frame, Hraw; [exact Hin|].
  unfold rank_columns. intros H. absurd_elem H.
Qed.

Lemma simplified_price_difference_witness :
  exists r s,
    run (processStockData priced_simplified_sample standard) half_source = Returns r /\
    processed r !! 0%nat = Some s /\
    at_index (raw s) 28 = Some "-27,54%" /\
    priceDiff s = of_decimal (-2754) (-2).
Proof.
  eexists _, _.
  split; [vm_compute; reflexivity|].
  split; [vm_compute; reflexivity|].
  pose proof (simplified_price_difference priced_simplified_sample half_source _ _
                ltac:(vm_compute; reflexivity)
                ltac:(vm_compute; reflexivity)
                ltac:(apply list_elem_of_lookup_2 with 0%nat; reflexivity)) as H.
  match type of H with (if ?c then _ else _) =>
    assert (Hc : c = true) by (vm_compute; reflexivity); rewrite Hc in H end.
  destruct H as [H1 H2]. split.
  - rewrite H1. vm_compute. reflexivity.
  - rewrite H2; vm_compute; reflexivity.
Defined.

(* ===================================================================== *)
(** ** What the ranking keeps, and ties of the default order *)
(* ===================================================================== *)

(** *** Ranking reorders the records and nothing else *)

(** The returned records are the records built from the data rows, each
    exactly once, in another order: the ranking engine writes the rank
    fields and the rank cells of the display row and leaves the id, the
    ticker, the company, the sector and the nine numeric fields of every
    record as the normaliser made them. *)
Theorem ranking_only_reorders rawData mode g r :
  run (processStockData rawData mode) g = Returns r ->
  core <$> processed r ≡ₚ core <$> run (stocks_before_ranking rawData mode) g.
Proof.
  intros [_ Hproc]%processStockData_returns. rewrite Hproc.
  apply core_calculateRanks.
Qed.

Lemma ranking_only_reorders_witness :
  exists r,
    run (processStockData neto_sample neto) half_source = Returns r /\
    core <$> processed r
    ≡ₚ core <$> run (stocks_before_ranking neto_sample neto) half_source.
Proof.
  eexists. split; [vm_compute; reflexivity|].
  apply (ranking_only_reorders neto_sample neto half_source).
  vm_compute; reflexivity.
Defined.

(** *** Ties of the default order *)




